(** * tap2rekt-wss: the lobby / match session state machine

    A shallow embedding of the socket.io server of the repository.  The
    repository keeps several generations of the same server side by side:

    - [src/server.ts]: lobby handlers, and the first generation of
      [join_match], which overwrites the player entry and starts the
      countdown whenever the roster has exactly two keys.  The file
      [src/unnamed/part_001] is this program without the lobby handlers, and
      the first 103 lines of [src/unnamed/part_000] differ from that one in
      message payloads and in a 10 s game only;
    - the program that starts at line 104 of [src/unnamed/part_000]: lobby
      handlers that also materialise the match, a guarded [join_match] and
      the helper [startMatchCountdown], which persists the winner.  Line
      numbers written [part_000:n] below are lines of that file.

    Both are embedded here, [ServerTs] and [Part000]; the handlers that are
    textually the same in both ([join_lobby], [tap], [disconnecting]) are
    embedded once.  The two older programs are embedded further down,
    [Part001] and [Oldest], and related to [ServerTs].

    Modelling conventions.
    - A JS object used as a dictionary ([Record<string, T>]) is an
      association list kept in the order in which [Object.keys] enumerates
      it: array-index keys first, ascending, then the other keys in creation
      order.
    - The embedding describes the server on plain keys.  A lookup [o[k]]
      on such a dictionary also finds the members every object inherits
      from [Object.prototype] ([constructor], [toString], [__proto__] and
      the others listed in [inherited]), and [o["__proto__"] = v] sets the
      prototype instead of a key; [obj_get] and [obj_set] describe own keys
      only.  Where the source differs for an id or a wallet of such a name
      (a guard that passes on an inherited member, a [TypeError], a roster
      entry that is not added), a theorem carries [plain_run] or
      [plain_event] as a hypothesis: in a run of plain events no lookup
      reaches an inherited member.
    - Payload fields are strings, and [role] ranges over the two values of
      its declared type.
    - [number] is [Z]: the counters stay far below 2^53, where doubles are
      exact.
    - Handlers run to completion; a handler is a function from the world to
      the new world and the list of broadcasts it emitted, oldest first.
    - [setTimeout] appends a pending timer to the world; the event
      [ev_timeout n] fires the n-th pending timer.  Nested [setTimeout]
      calls keep the order inside one chain; between chains every firing
      order is allowed, which covers the order real time gives.
    - [Date.now()] is not modelled: the [startTime] field of
      [countdown_start] and [game_start] is left out of the messages. *)

From Stdlib Require Import List String Ascii ZArith NArith Bool Lia Permutation.
Import ListNotations.
Local Open Scope string_scope.
Local Open Scope list_scope.
Local Open Scope Z_scope.

(** ** Plain keys *)

(** The names of the members of [Object.prototype], which every dictionary
    created as [{}] inherits. *)
Definition inherited (k : string) : bool :=
  existsb (String.eqb k)
    ["constructor"; "__defineGetter__"; "__defineSetter__"; "hasOwnProperty";
     "__lookupGetter__"; "__lookupSetter__"; "isPrototypeOf";
     "propertyIsEnumerable"; "toString"; "valueOf"; "__proto__";
     "toLocaleString"].

Definition plain (k : string) : bool := negb (inherited k).

(** ** JS objects as ordered dictionaries *)

Section Obj.
Context {A : Type}.

Definition Obj := list (string * A).

Definition digit_of (c : ascii) : option N :=
  let n := N_of_ascii c in
  if ((48 <=? n) && (n <=? 57))%N then Some (n - 48)%N else None.

Fixpoint digits_value (s : string) (acc : N) : option N :=
  match s with
  | EmptyString => Some acc
  | String c s' =>
      match digit_of c with
      | Some d => digits_value s' (10 * acc + d)%N
      | None => None
      end
  end.

(** An array index: a canonical decimal numeral below 2^32 - 1. *)
Definition array_index (k : string) : option N :=
  match k with
  | EmptyString => None
  | String c rest =>
      if (Ascii.eqb c "0"%char && negb (String.eqb rest ""))%bool then None
      else match digits_value k 0%N with
           | Some n => if (n <? 4294967295)%N then Some n else None
           | None => None
           end
  end.

(** [o[k]] for a plain key [k]: the own property, if there is one. *)
Fixpoint obj_get (k : string) (o : Obj) : option A :=
  match o with
  | [] => None
  | (k', v) :: o' => if String.eqb k k' then Some v else obj_get k o'
  end.

(** [o[k] = v] for a key that [o] has: the key keeps its place. *)
Fixpoint obj_replace (k : string) (v : A) (o : Obj) : Obj :=
  match o with
  | [] => []
  | (k', v') :: o' =>
      if String.eqb k k' then (k', v) :: o' else (k', v') :: obj_replace k v o'
  end.

(** [o[k] = v] for a new array-index key of value [n]. *)
Fixpoint insert_index (n : N) (k : string) (v : A) (o : Obj) : Obj :=
  match o with
  | [] => [(k, v)]
  | (k', v') :: o' =>
      match array_index k' with
      | Some n' =>
          if (n <? n')%N then (k, v) :: o else (k', v') :: insert_index n k v o'
      | None => (k, v) :: o
      end
  end.

(** [o[k] = v] for a plain key [k]. *)
Definition obj_set (k : string) (v : A) (o : Obj) : Obj :=
  match obj_get k o with
  | Some _ => obj_replace k v o
  | None =>
      match array_index k with
      | Some n => insert_index n k v o
      | None => o ++ [(k, v)]
      end
  end.

(** [Object.keys(o)] and [Object.values(o)] *)
Definition obj_keys (o : Obj) : list string := map fst o.
Definition obj_values (o : Obj) : list A := map snd o.

(** [Array.prototype.reduce] without an initial value; [None] is the
    [TypeError] it throws on an empty array. *)
Definition reduce (f : A -> A -> A) (l : list A) : option A :=
  match l with
  | [] => None
  | a :: l' => Some (fold_left f l' a)
  end.
End Obj.
Arguments Obj : clear implicits.

(** ** Data model *)

Record Player := mkPlayer { wallet : string; score : Z; taps : Z }.

Inductive MatchState := waiting | countdown | active | finished.

Record Match := mkMatch {
  id : string;
  players : Obj Player;
  state : MatchState;
  countdownTime : Z;
  gameTime : Z;
  winner : option string
}.

Inductive Role := creator | opponent.

Record LobbyPlayer := mkLobbyPlayer {
  lp_wallet : string;
  role : Role;
  deposited : bool
}.

Inductive LobbyState := lobby_waiting | ready.

Record Deposits := mkDeposits { dep_creator : bool; dep_opponent : bool }.

Record Lobby := mkLobby {
  lobby_id : string;
  lobby_players : Obj LobbyPlayer;
  lobby_state : LobbyState;
  deposits : Deposits
}.

(** The entries of a [game_end] score list. *)
Record Score := mkScore { score_wallet : string; score_value : Z }.

(** The payloads of the broadcasts. *)
Inductive Msg :=
| lobby_update (playerCount : Z) (status : LobbyState)
| lobby_player_joined (playerCount : Z) (wallet : string)
| deposit_confirmed (role : Role)
| match_ready (matchId : option string)
| player_joined (playerCount : Z)
| countdown_start (duration : Z)
| game_start (duration : Z)
| tap_update (wallet : string) (taps : Z)
| game_end (scores : list Score) (winner : string)
| player_left (playerCount : Z).

(** [io.to(room).emit(...)] *)
Record Emit := emit { emit_room : string; emit_msg : Msg }.

(** The closures handed to [setTimeout], each closing over a match id. *)
Inductive Task :=
| settle_timeout (matchId : string)
| countdown_timeout (matchId : string)
| game_timeout (matchId : string).

Record Timer := mkTimer { delay : Z; task : Task }.

(** The process state: the two module-level registries, the rooms of every
    socket, and the pending timers. *)
Record World := mkWorld {
  lobbies : Obj Lobby;
  matches : Obj Match;
  rooms : Obj (list string);
  timers : list Timer
}.

Definition init : World := mkWorld [] [] [] [].

(** *** Field updates *)

Definition with_taps (t : Z) (p : Player) : Player :=
  mkPlayer (wallet p) (score p) t.

Definition with_players (ps : Obj Player) (m : Match) : Match :=
  mkMatch (id m) ps (state m) (countdownTime m) (gameTime m) (winner m).

Definition with_state (s : MatchState) (m : Match) : Match :=
  mkMatch (id m) (players m) s (countdownTime m) (gameTime m) (winner m).

Definition with_winner (wn : option string) (m : Match) : Match :=
  mkMatch (id m) (players m) (state m) (countdownTime m) (gameTime m) wn.

Definition with_deposited (d : bool) (p : LobbyPlayer) : LobbyPlayer :=
  mkLobbyPlayer (lp_wallet p) (role p) d.

Definition with_lobby_players (ps : Obj LobbyPlayer) (l : Lobby) : Lobby :=
  mkLobby (lobby_id l) ps (lobby_state l) (deposits l).

Definition with_lobby_state (s : LobbyState) (l : Lobby) : Lobby :=
  mkLobby (lobby_id l) (lobby_players l) s (deposits l).

Definition with_deposits (d : Deposits) (l : Lobby) : Lobby :=
  mkLobby (lobby_id l) (lobby_players l) (lobby_state l) d.

(** [deposits[role] = true] *)
Definition set_deposit (r : Role) (d : Deposits) : Deposits :=
  match r with
  | creator => mkDeposits true (dep_opponent d)
  | opponent => mkDeposits (dep_creator d) true
  end.

Definition with_lobbies (ls : Obj Lobby) (w : World) : World :=
  mkWorld ls (matches w) (rooms w) (timers w).

Definition with_matches (ms : Obj Match) (w : World) : World :=
  mkWorld (lobbies w) ms (rooms w) (timers w).

Definition with_rooms (rs : Obj (list string)) (w : World) : World :=
  mkWorld (lobbies w) (matches w) rs (timers w).

Definition with_timers (ts : list Timer) (w : World) : World :=
  mkWorld (lobbies w) (matches w) (rooms w) ts.

(** [setTimeout(task, delay)] *)
Definition setTimeout (tk : Task) (d : Z) (w : World) : World :=
  with_timers (timers w ++ [mkTimer d tk]) w.

Definition state_eqb (a b : MatchState) : bool :=
  match a, b with
  | waiting, waiting | countdown, countdown
  | active, active | finished, finished => true
  | _, _ => false
  end.

(** *** Rooms (socket.io) *)

(** [socket.rooms]: a socket starts in the room named by its own id. *)
Definition socket_rooms (sid : string) (w : World) : list string :=
  match obj_get sid (rooms w) with
  | Some rs => rs
  | None => [sid]
  end.

Definition set_add (r : string) (rs : list string) : list string :=
  if in_dec string_dec r rs then rs else rs ++ [r].

(** [socket.join(room)] *)
Definition socket_join (sid room : string) (w : World) : World :=
  with_rooms (obj_set sid (set_add room (socket_rooms sid w)) (rooms w)) w.

(** What socket.io does once the [disconnecting] handlers have run: the
    socket leaves all its rooms. *)
Definition socket_leave_all (sid : string) (w : World) : World :=
  with_rooms (obj_set sid [] (rooms w)) w.

(** [Object.keys(o).length] *)
Definition key_count {A} (o : Obj A) : Z := Z.of_nat (List.length (obj_keys o)).

(** ** Handlers shared by both generations *)

(** [socket.on("join_lobby", ...)], src/server.ts:38 and part_000:140, on
    plain keys.  (For a [lobbyId] that names an inherited member the source
    finds that member, whose [players] is undefined, and throws a
    [TypeError] before anything is written; a wallet ["__proto__"] sets the
    prototype of [players] and adds no key.) *)
Definition join_lobby (sid lobbyId wallet : string) (role : Role) (w : World)
  : World * list Emit :=
  let lobby0 :=
    match obj_get lobbyId (lobbies w) with
    | Some l => l
    | None => mkLobby lobbyId [] lobby_waiting (mkDeposits false false)
    end in
  let lobby1 :=
    with_lobby_players
      (obj_set wallet (mkLobbyPlayer wallet role false) (lobby_players lobby0))
      lobby0 in
  let w1 := socket_join sid lobbyId (with_lobbies (obj_set lobbyId lobby1 (lobbies w)) w) in
  let n := key_count (lobby_players lobby1) in
  (w1, [emit lobbyId (lobby_update n (lobby_state lobby1));
        emit lobbyId (lobby_player_joined n wallet)]).

(** [socket.on("tap", ...)], src/server.ts:146 and part_000:264, on plain
    keys.  (For a wallet that is not on the roster but names an inherited
    member, the guard of the source passes on an active match: it adds one
    to the undefined [taps] of that member and broadcasts a [tap_update]
    whose [taps] is [NaN].) *)
Definition tap (matchId wallet : string) (w : World) : World * list Emit :=
  match obj_get matchId (matches w) with
  | Some m =>
      match state m, obj_get wallet (players m) with
      | active, Some p =>
          let p' := with_taps (taps p + 1) p in
          let m' := with_players (obj_set wallet p' (players m)) m in
          (with_matches (obj_set matchId m' (matches w)) w,
           [emit matchId (tap_update wallet (taps p'))])
      | _, _ => (w, [])
      end
  | None => (w, [])
  end.

(** [socket.on("disconnecting", ...)], src/server.ts:158 and part_000:276. *)
Definition disconnecting (sid : string) (w : World) : World * list Emit :=
  (w,
   flat_map
     (fun matchId =>
        match obj_get matchId (matches w) with
        | Some m => [emit matchId (player_left (key_count (players m) - 1))]
        | None => []
        end)
     (socket_rooms sid w)).

(** The score list and the winner of the [game_end] callback. *)
Definition scores_of (m : Match) : list Score :=
  map (fun p => mkScore (wallet p) (taps p)) (obj_values (players m)).

Definition pick (a b : Score) : Score :=
  if score_value b <? score_value a then a else b.

Definition winner_of (scores : list Score) : option string :=
  option_map score_wallet (reduce pick scores).

(** ** Events *)

Inductive Event :=
| ev_join_lobby (sid lobbyId wallet : string) (role : Role)
| ev_deposit_made (lobbyId wallet : string)
| ev_join_match (sid matchId wallet : string)
| ev_tap (matchId wallet : string)
| ev_disconnecting (sid : string)
| ev_timeout (n : nat).

(** The ids and the wallet of the event are plain keys; a run of such
    events. *)
Definition plain_event (e : Event) : bool :=
  match e with
  | ev_join_lobby sid lobbyId wallet _ => plain sid && plain lobbyId && plain wallet
  | ev_deposit_made lobbyId wallet => plain lobbyId && plain wallet
  | ev_join_match sid matchId wallet => plain sid && plain matchId && plain wallet
  | ev_tap matchId wallet => plain matchId && plain wallet
  | ev_disconnecting sid => plain sid
  | ev_timeout _ => true
  end.

Definition plain_run (evs : list Event) : bool := forallb plain_event evs.

Definition remove_nth {A} (n : nat) (l : list A) : list A :=
  firstn n l ++ skipn (S n) l.

(** The n-th pending timer fires: it leaves the pending list and its task
    runs. *)
Definition timeout (run_task : Task -> World -> World * list Emit)
  (n : nat) (w : World) : World * list Emit :=
  match nth_error (timers w) n with
  | Some t => run_task (task t) (with_timers (remove_nth n (timers w)) w)
  | None => (w, [])
  end.

(** ** src/server.ts *)

Module ServerTs.

(** [socket.on("deposit_made", ...)], src/server.ts:65, on plain keys.
    (For a [lobbyId] that names an inherited member the source finds that
    member, and [lobby.players[wallet]] throws a [TypeError].) *)
Definition deposit_made (lobbyId wallet : string) (w : World)
  : World * list Emit :=
  match obj_get lobbyId (lobbies w) with
  | None => (w, [])
  | Some lobby =>
      match obj_get wallet (lobby_players lobby) with
      | None => (w, [])
      | Some lp =>
          let role := role lp in
          let lobby1 := with_deposits (set_deposit role (deposits lobby)) lobby in
          let lobby2 :=
            with_lobby_players
              (obj_set wallet (with_deposited true lp) (lobby_players lobby1))
              lobby1 in
          let out := [emit lobbyId (deposit_confirmed role)] in
          if dep_creator (deposits lobby2) && dep_opponent (deposits lobby2)
          then
            (with_lobbies
               (obj_set lobbyId (with_lobby_state ready lobby2) (lobbies w)) w,
             out ++ [emit lobbyId (match_ready None)])
          else (with_lobbies (obj_set lobbyId lobby2 (lobbies w)) w, out)
      end
  end.

(** [socket.on("join_match", ...)], src/server.ts:88, on plain keys.  (For
    a [matchId] that names an inherited member the assignment at
    src/server.ts:98 throws a [TypeError]; a wallet ["__proto__"] sets the
    prototype of [players] and adds no key.) *)
Definition join_match (sid matchId wallet : string) (w : World)
  : World * list Emit :=
  let m0 :=
    match obj_get matchId (matches w) with
    | Some m => m
    | None => mkMatch matchId [] waiting 3 10 None
    end in
  let m1 := with_players (obj_set wallet (mkPlayer wallet 0 0) (players m0)) m0 in
  let w1 := socket_join sid matchId (with_matches (obj_set matchId m1 (matches w)) w) in
  let out := [emit matchId (player_joined (key_count (players m1)))] in
  if key_count (players m1) =? 2 then
    let countdownDuration := 3000 in
    (setTimeout (countdown_timeout matchId) countdownDuration
       (with_matches (obj_set matchId (with_state countdown m1) (matches w1)) w1),
     out ++ [emit matchId (countdown_start countdownDuration)])
  else (w1, out).

(** The two nested [setTimeout] callbacks of [join_match],
    src/server.ts:118 and src/server.ts:128.  They dereference
    [matches[matchId]] unguarded, a [TypeError] when the match is absent;
    no handler deletes a match.  No [settle_timeout] is ever armed here. *)
Definition run_task (tk : Task) (w : World) : World * list Emit :=
  match tk with
  | settle_timeout _ => (w, [])
  | countdown_timeout matchId =>
      match obj_get matchId (matches w) with
      | None => (w, [])
      | Some m =>
          let gameDuration := 30000 in
          (setTimeout (game_timeout matchId) gameDuration
             (with_matches (obj_set matchId (with_state active m) (matches w)) w),
           [emit matchId (game_start gameDuration)])
      end
  | game_timeout matchId =>
      match obj_get matchId (matches w) with
      | None => (w, [])
      | Some m =>
          let m1 := with_state finished m in
          let w1 := with_matches (obj_set matchId m1 (matches w)) w in
          let scores := scores_of m1 in
          match winner_of scores with
          | None => (w1, [])
          | Some winner => (w1, [emit matchId (game_end scores winner)])
          end
      end
  end.

Definition step (e : Event) (w : World) : World * list Emit :=
  match e with
  | ev_join_lobby sid lobbyId wallet role => join_lobby sid lobbyId wallet role w
  | ev_deposit_made lobbyId wallet => deposit_made lobbyId wallet w
  | ev_join_match sid matchId wallet => join_match sid matchId wallet w
  | ev_tap matchId wallet => tap matchId wallet w
  | ev_disconnecting sid =>
      let (w1, out) := disconnecting sid w in (socket_leave_all sid w1, out)
  | ev_timeout n => timeout run_task n w
  end.

End ServerTs.

(** ** The program at line 104 of src/unnamed/part_000 *)

Module Part000.

(** [function startMatchCountdown(matchId)], part_000:293, up to its
    [setTimeout]. *)
Definition startMatchCountdown (matchId : string) (w : World)
  : World * list Emit :=
  match obj_get matchId (matches w) with
  | None => (w, [])
  | Some match_ =>
      let countdownDuration := 3000 in
      (setTimeout (countdown_timeout matchId) countdownDuration
         (with_matches
            (obj_set matchId (with_state countdown match_) (matches w)) w),
       [emit matchId (countdown_start countdownDuration)])
  end.

(** [socket.on("deposit_made", ...)], part_000:167, on plain keys.  (For a
    [lobbyId] that names an inherited member the source finds that member,
    and [lobby.players[wallet]] throws a [TypeError].) *)
Definition deposit_made (lobbyId wallet : string) (w : World)
  : World * list Emit :=
  match obj_get lobbyId (lobbies w) with
  | None => (w, [])
  | Some lobby =>
      match obj_get wallet (lobby_players lobby) with
      | None => (w, [])
      | Some lp =>
          let role := role lp in
          let lobby1 := with_deposits (set_deposit role (deposits lobby)) lobby in
          let lobby2 :=
            with_lobby_players
              (obj_set wallet (with_deposited true lp) (lobby_players lobby1))
              lobby1 in
          let out := [emit lobbyId (deposit_confirmed role)] in
          if dep_creator (deposits lobby2) && dep_opponent (deposits lobby2)
          then
            let lobby3 := with_lobby_state ready lobby2 in
            let matchId := lobbyId in
            let m0 :=
              match obj_get matchId (matches w) with
              | Some m => m
              | None => mkMatch matchId [] waiting 3 30 None
              end in
            let roster :=
              fold_left
                (fun ps player =>
                   obj_set (lp_wallet player)
                     (mkPlayer (lp_wallet player) 0 0) ps)
                (obj_values (lobby_players lobby3)) (players m0) in
            let m1 := with_state waiting (with_players roster m0) in
            (setTimeout (settle_timeout matchId) 2000
               (with_matches (obj_set matchId m1 (matches w))
                  (with_lobbies (obj_set lobbyId lobby3 (lobbies w)) w)),
             out ++ [emit lobbyId (match_ready (Some matchId))])
          else (with_lobbies (obj_set lobbyId lobby2 (lobbies w)) w, out)
      end
  end.

(** [socket.on("join_match", ...)], part_000:226, on plain keys.  (For a
    [matchId] that names an inherited member the guard at part_000:241
    throws a [TypeError]; for a wallet that names an inherited member that
    guard finds the member, and the wallet is never added.) *)
Definition join_match (sid matchId wallet : string) (w : World)
  : World * list Emit :=
  let m0 :=
    match obj_get matchId (matches w) with
    | Some m => m
    | None => mkMatch matchId [] waiting 3 30 None
    end in
  let m1 :=
    match obj_get wallet (players m0) with
    | Some _ => m0
    | None => with_players (obj_set wallet (mkPlayer wallet 0 0) (players m0)) m0
    end in
  let w1 := socket_join sid matchId (with_matches (obj_set matchId m1 (matches w)) w) in
  let playerCount := key_count (players m1) in
  let out := [emit matchId (player_joined playerCount)] in
  if (2 <=? playerCount) && state_eqb (state m1) waiting then
    let (w2, out2) := startMatchCountdown matchId w1 in (w2, out ++ out2)
  else (w1, out).

(** The timer callbacks: the settle delay of [deposit_made] (part_000:217)
    and the two nested callbacks of [startMatchCountdown] (part_000:309,
    part_000:324).  With no player [reduce] throws after the state was
    written. *)
Definition run_task (tk : Task) (w : World) : World * list Emit :=
  match tk with
  | settle_timeout matchId =>
      match obj_get matchId (matches w) with
      | Some m =>
          if state_eqb (state m) waiting then startMatchCountdown matchId w
          else (w, [])
      | None => (w, [])
      end
  | countdown_timeout matchId =>
      match obj_get matchId (matches w) with
      | None => (w, [])
      | Some m =>
          let gameDuration := 30000 in
          (setTimeout (game_timeout matchId) gameDuration
             (with_matches (obj_set matchId (with_state active m) (matches w)) w),
           [emit matchId (game_start gameDuration)])
      end
  | game_timeout matchId =>
      match obj_get matchId (matches w) with
      | None => (w, [])
      | Some m =>
          let m1 := with_state finished m in
          let scores := scores_of m1 in
          match winner_of scores with
          | None => (with_matches (obj_set matchId m1 (matches w)) w, [])
          | Some winner =>
              (with_matches
                 (obj_set matchId (with_winner (Some winner) m1) (matches w)) w,
               [emit matchId (game_end scores winner)])
          end
      end
  end.

Definition step (e : Event) (w : World) : World * list Emit :=
  match e with
  | ev_join_lobby sid lobbyId wallet role => join_lobby sid lobbyId wallet role w
  | ev_deposit_made lobbyId wallet => deposit_made lobbyId wallet w
  | ev_join_match sid matchId wallet => join_match sid matchId wallet w
  | ev_tap matchId wallet => tap matchId wallet w
  | ev_disconnecting sid =>
      let (w1, out) := disconnecting sid w in (socket_leave_all sid w1, out)
  | ev_timeout n => timeout run_task n w
  end.

End Part000.

(** ** Runs *)

Inductive Variant := server_ts | part_000.

Definition step (v : Variant) : Event -> World -> World * list Emit :=
  match v with
  | server_ts => ServerTs.step
  | part_000 => Part000.step
  end.

(** The world after a sequence of events, and everything broadcast on the
    way. *)
Fixpoint run (v : Variant) (evs : list Event) (w : World) : World * list Emit :=
  match evs with
  | [] => (w, [])
  | e :: evs' =>
      let (w1, out1) := step v e w in
      let (w2, out2) := run v evs' w1 in
      (w2, out1 ++ out2)
  end.

Definition match_state (w : World) (matchId : string) : option MatchState :=
  option_map state (obj_get matchId (matches w)).

Definition match_winner (w : World) (matchId : string) : option string :=
  match obj_get matchId (matches w) with
  | Some m => winner m
  | None => None
  end.

Definition taps_of (w : World) (matchId wallet : string) : option Z :=
  match obj_get matchId (matches w) with
  | Some m => option_map taps (obj_get wallet (players m))
  | None => None
  end.

(** ** Vocabulary of the properties *)

(** The three conditions under which a tap counts. *)
Definition tap_accepted (w : World) (matchId wallet : string) : bool :=
  match obj_get matchId (matches w) with
  | Some m =>
      state_eqb (state m) active &&
      match obj_get wallet (players m) with Some _ => true | None => false end
  | None => false
  end.


Definition is_disconnecting (e : Event) : bool :=
  match e with ev_disconnecting _ => true | _ => false end.



(** The handlers that never write a lobby. *)
Definition keeps_lobbies (h : World -> World * list Emit) : Prop :=
  forall w, lobbies (fst (h w)) = lobbies w.

(** How one handler run can change the lobby stored under an id. *)
Inductive lobby_change (lobbyId : string) : option Lobby -> Lobby -> Prop :=
| change_join prev ps :
    lobby_change lobbyId prev
      (with_lobby_players ps
         (match prev with
          | Some l => l
          | None => mkLobby lobbyId [] lobby_waiting (mkDeposits false false)
          end))
| change_deposit l r ps :
    lobby_change lobbyId (Some l)
      (let l2 :=
         with_lobby_players ps (with_deposits (set_deposit r (deposits l)) l) in
       if dep_creator (deposits l2) && dep_opponent (deposits l2)
       then with_lobby_state ready l2 else l2).

Definition both_deposited (l : Lobby) : bool :=
  dep_creator (deposits l) && dep_opponent (deposits l).

Definition lobby_ok (l : Lobby) : Prop :=
  lobby_state l = if both_deposited l then ready else lobby_waiting.

Definition lobbies_ok (w : World) : Prop :=
  forall lobbyId l, obj_get lobbyId (lobbies w) = Some l -> lobby_ok l.

Definition lobby_le (l l' : Lobby) : Prop :=
  (dep_creator (deposits l) = true -> dep_creator (deposits l') = true) /\
  (dep_opponent (deposits l) = true -> dep_opponent (deposits l') = true) /\
  (lobby_state l = ready -> lobby_state l' = ready).

(** A wallet deposits, joins again, and the lobby becomes ready on the
    other player's deposit. *)
Definition becomes_ready : list Event :=
  [ev_join_lobby "s1" "L" "A" creator; ev_deposit_made "L" "A";
   ev_join_lobby "s1" "L" "A" creator;
   ev_join_lobby "s2" "L" "B" opponent; ev_deposit_made "L" "B"].

(** The lobby is ready, and a wallet that deposited joins again. *)
Definition remains_ready : list Event :=
  [ev_join_lobby "s1" "L" "A" creator; ev_join_lobby "s2" "L" "B" opponent;
   ev_deposit_made "L" "A"; ev_deposit_made "L" "B";
   ev_join_lobby "s1" "L" "A" creator].

Definition ready_with_undeposited_member (w : World) : Prop :=
  exists l,
    obj_get "L" (lobbies w) = Some l /\
    lobby_state l = ready /\
    deposits l = mkDeposits true true /\
    option_map deposited (obj_get "A" (lobby_players l)) = Some false.

Definition fresh_match (matchId : string) (gameTime : Z) : Match :=
  mkMatch matchId [] waiting 3 gameTime None.

Definition or_fresh (prev : option Match) (matchId : string) (gameTime : Z)
  : Match :=
  match prev with Some m => m | None => fresh_match matchId gameTime end.

(** The roster [deposit_made] builds from the lobby members. *)
Definition copy_roster (members : list LobbyPlayer) (ps : Obj Player)
  : Obj Player :=
  fold_left
    (fun ps player =>
       obj_set (lp_wallet player) (mkPlayer (lp_wallet player) 0 0) ps)
    members ps.

(** How one handler run can change the match stored under an id: the
    generation, the event, the timer task that fired (when the event is a
    timer firing), the match before, the match after, and the timers the
    handler armed. *)
Inductive match_change (matchId : string)
  : Variant -> Event -> option Task -> option Match -> Match -> list Timer
    -> Prop :=
| mc_tap v m wallet p :
    state m = active ->
    obj_get wallet (players m) = Some p ->
    match_change matchId v (ev_tap matchId wallet) None (Some m)
      (with_players (obj_set wallet (with_taps (taps p + 1) p) (players m)) m)
      []
| mc_active v n m :
    match_change matchId v (ev_timeout n)
      (Some (countdown_timeout matchId)) (Some m)
      (with_state active m)
      [mkTimer 30000 (game_timeout matchId)]
| mc_finished v n m :
    (v = part_000 -> winner_of (scores_of m) = None) ->
    match_change matchId v (ev_timeout n)
      (Some (game_timeout matchId)) (Some m)
      (with_state finished m)
      []
| mc_finished_winner n m wn :
    winner_of (scores_of m) = Some wn ->
    match_change matchId part_000 (ev_timeout n)
      (Some (game_timeout matchId)) (Some m)
      (with_winner (Some wn) (with_state finished m))
      []
| mc_join_server_ts sid prev wallet :
    let m0 := or_fresh prev matchId 10 in
    let m1 :=
      with_players (obj_set wallet (mkPlayer wallet 0 0) (players m0)) m0 in
    let start := key_count (players m1) =? 2 in
    match_change matchId server_ts (ev_join_match sid matchId wallet) None prev
      (if start then with_state countdown m1 else m1)
      (if start then [mkTimer 3000 (countdown_timeout matchId)] else [])
| mc_join_part_000 sid prev wallet :
    let m0 := or_fresh prev matchId 30 in
    let m1 :=
      match obj_get wallet (players m0) with
      | Some _ => m0
      | None =>
          with_players (obj_set wallet (mkPlayer wallet 0 0) (players m0)) m0
      end in
    let start := (2 <=? key_count (players m1)) && state_eqb (state m1) waiting in
    match_change matchId part_000 (ev_join_match sid matchId wallet) None prev
      (if start then with_state countdown m1 else m1)
      (if start then [mkTimer 3000 (countdown_timeout matchId)] else [])
| mc_settle n m :
    state m = waiting ->
    match_change matchId part_000 (ev_timeout n)
      (Some (settle_timeout matchId)) (Some m)
      (with_state countdown m)
      [mkTimer 3000 (countdown_timeout matchId)]
| mc_deposit prev wallet members :
    let m0 := or_fresh prev matchId 30 in
    match_change matchId part_000 (ev_deposit_made matchId wallet) None prev
      (with_state waiting (with_players (copy_roster members (players m0)) m0))
      [mkTimer 2000 (settle_timeout matchId)].

(** The effect of a handler on the matches [ms] and the pending timers
    [ts] it started from: nothing, or one match rewritten and the armed
    timers appended. *)
Definition effect (v : Variant) (e : Event) (fired : option Task)
  (ms : Obj Match) (ts : list Timer) (w' : World) : Prop :=
  ((forall mid, obj_get mid (matches w') = obj_get mid ms) /\ timers w' = ts) \/
  exists k m' armed,
    match_change k v e fired (obj_get k ms) m' armed /\
    (forall mid,
        obj_get mid (matches w') =
        if String.eqb mid k then Some m' else obj_get mid ms) /\
    timers w' = ts ++ armed.

(** The timer an event fires, and the timers it leaves pending before its
    handler runs. *)
Definition fired_by (e : Event) (w : World) : option Timer :=
  match e with
  | ev_timeout n => nth_error (timers w) n
  | _ => None
  end.

Definition timers_left (e : Event) (w : World) : list Timer :=
  match e with
  | ev_timeout n =>
      match nth_error (timers w) n with
      | Some _ => remove_nth n (timers w)
      | None => timers w
      end
  | _ => timers w
  end.

(** A roster has every wallet once, stored under its own name. *)
Definition roster_ok (ps : Obj Player) : Prop :=
  NoDup (obj_keys ps) /\ Forall (fun kp => wallet (snd kp) = fst kp) ps.

Definition matches_ok (w : World) : Prop :=
  forall mid m, obj_get mid (matches w) = Some m -> roster_ok (players m).

(** What the [game_end] callback of [matchId], pending at position [n] of
    the timers of [w], does on the match [m]. *)
Definition game_end_correct
  (v : Variant) (w : World) (n : nat) (matchId : string) (m : Match) : Prop :=
  let w' := fst (step v (ev_timeout n) w) in
  exists p,
    obj_get (wallet p) (players m) = Some p /\
    (forall q, In q (obj_values (players m)) -> q <> p -> taps q < taps p) /\
    snd (step v (ev_timeout n) w) =
      [emit matchId (game_end (scores_of m) (wallet p))] /\
    match_state w' matchId = Some finished /\
    match_winner w' matchId =
      match v with
      | part_000 => Some (wallet p)
      | server_ts => match_winner w matchId
      end /\
    NoDup (map score_wallet (scores_of m)) /\
    (forall k s,
        In (mkScore k s) (scores_of m) <-> taps_of w matchId k = Some s).

(** A direct match between A and B: both join, the countdown ends, A taps
    twice and B once. *)
Definition sample_game : list Event :=
  [ev_join_match "s1" "M" "A"; ev_join_match "s2" "M" "B"; ev_timeout 0;
   ev_tap "M" "A"; ev_tap "M" "A"; ev_tap "M" "B"].

(** What [f] sees after each event of a run. *)
Fixpoint observe {A} (f : World -> A) (v : Variant) (evs : list Event)
  (w : World) : list A :=
  match evs with
  | [] => []
  | e :: evs' =>
      let w1 := fst (step v e w) in f w1 :: observe f v evs' w1
  end.

(** Two players form a lobby and deposit; the settle delay and the
    countdown elapse; then the creator's deposit is confirmed once more. *)
Definition deposit_again : list Event :=
  [ev_join_lobby "s1" "L" "A" creator; ev_join_lobby "s2" "L" "B" opponent;
   ev_deposit_made "L" "A"; ev_deposit_made "L" "B";
   ev_timeout 0; ev_timeout 0;
   ev_deposit_made "L" "A"].

(** Two players join a match directly; the countdown elapses; then the
    first player sends [join_match] again. *)
Definition rejoin_active : list Event :=
  [ev_join_match "s1" "M" "A"; ev_join_match "s2" "M" "B"; ev_timeout 0;
   ev_join_match "s1" "M" "A"].

(** A lobby match is played to its end with A ahead; a repeated deposit
    restarts it, and it is played again with B ahead. *)
Definition played_twice : list Event :=
  [ev_join_lobby "s1" "L" "A" creator; ev_join_lobby "s2" "L" "B" opponent;
   ev_deposit_made "L" "A"; ev_deposit_made "L" "B";
   ev_timeout 0; ev_timeout 0; ev_tap "L" "A"; ev_timeout 0;
   ev_deposit_made "L" "A";
   ev_timeout 0; ev_timeout 0; ev_tap "L" "B"; ev_timeout 0].

(** The matches that only [wallet] has joined: not yet created, or
    [waiting] with the one-wallet roster. *)
Definition joined_only_by (wallet matchId : string) (w : World) : Prop :=
  match obj_get matchId (matches w) with
  | None => True
  | Some m => obj_keys (players m) = [wallet] /\ state m = waiting
  end.

(** *** Timer chains *)

Definition Task_eqb (a b : Task) : bool :=
  match a, b with
  | settle_timeout x, settle_timeout y
  | countdown_timeout x, countdown_timeout y
  | game_timeout x, game_timeout y => String.eqb x y
  | _, _ => false
  end.

(** How many pending timers run the task [tk]. *)
Definition pending (tk : Task) (ts : list Timer) : nat :=
  List.length (filter (fun t => Task_eqb (task t) tk) ts).

Definition fired_count (fired : option Task) (tk : Task) : nat :=
  match fired with
  | Some t => if Task_eqb t tk then 1%nat else 0%nat
  | None => 0%nat
  end.

(** [deposit_made] from this wallet sets the second deposit flag (or finds
    both set). *)
Definition completes_lobby (lobbyId wallet : string) (w : World) : bool :=
  match obj_get lobbyId (lobbies w) with
  | Some lobby =>
      match obj_get wallet (lobby_players lobby) with
      | Some lp =>
          both_deposited
            (with_deposits (set_deposit (role lp) (deposits lobby)) lobby)
      | None => false
      end
  | None => false
  end.

(** The event is a [deposit_made] that completes its lobby while the match
    of the same id has left [waiting]. *)
Definition restarts (e : Event) (w : World) : bool :=
  match e with
  | ev_deposit_made lobbyId wallet =>
      completes_lobby lobbyId wallet w &&
      match match_state w lobbyId with
      | None | Some waiting => false
      | Some _ => true
      end
  | _ => false
  end.

(** A run of the later generation in which no event restarts a match. *)
Fixpoint calm (evs : list Event) (w : World) : bool :=
  match evs with
  | [] => true
  | e :: evs' => negb (restarts e w) && calm evs' (fst (step part_000 e w))
  end.

Definition phase_rank (s : MatchState) : nat :=
  match s with
  | waiting => 0%nat
  | countdown => 1%nat
  | active => 2%nat
  | finished => 3%nat
  end.

(** A match that exists stays, and its phase does not go back. *)
Definition phase_le (a b : option MatchState) : Prop :=
  match a, b with
  | None, _ => True
  | Some x, Some y => (phase_rank x <= phase_rank y)%nat
  | Some _, None => False
  end.

(** One step of the walk through the phases: a match that appears is
    [waiting], a match that exists stays where it is or moves to the next
    phase. *)
Definition phase_step (a b : option MatchState) : Prop :=
  match a, b with
  | None, None => True
  | None, Some y => y = waiting
  | Some x, Some y => y = x \/ phase_rank y = S (phase_rank x)
  | Some _, None => False
  end.

(** The timers of one match agree with its phase: a countdown timer is
    pending only during the countdown, a game timer only while the match is
    active, one at most of each, and no winner is stored before the match is
    finished.  [cd] and [gm] count the pending countdown and game timers of
    the match. *)
Definition chain_at (o : option Match) (cd gm : nat) : Prop :=
  match o with
  | None => cd = 0%nat /\ gm = 0%nat
  | Some m =>
      match state m with
      | waiting => cd = 0%nat /\ gm = 0%nat /\ winner m = None
      | countdown => (cd <= 1)%nat /\ gm = 0%nat /\ winner m = None
      | active => cd = 0%nat /\ (gm <= 1)%nat /\ winner m = None
      | finished => cd = 0%nat /\ gm = 0%nat
      end
  end.

Definition chain_ok (ms : Obj Match) (ts : list Timer) (mid : string) : Prop :=
  chain_at (obj_get mid ms)
    (pending (countdown_timeout mid) ts) (pending (game_timeout mid) ts).

Definition stored_winner (o : option Match) : option string :=
  match o with
  | Some m => winner m
  | None => None
  end.

Definition chains_ok (w : World) : Prop :=
  forall mid, chain_ok (matches w) (timers w) mid.

(** *** Sessions *)

(** The match id a timer callback closes over. *)
Definition task_match (tk : Task) : string :=
  match tk with
  | settle_timeout matchId
  | countdown_timeout matchId
  | game_timeout matchId => matchId
  end.


(** How an event rewrites the lobby stored under an id. *)
Inductive lobby_write (lobbyId : string)
  : Event -> option Lobby -> Lobby -> Prop :=
| lw_join sid wallet r prev :
    let l0 :=
      match prev with
      | Some l => l
      | None => mkLobby lobbyId [] lobby_waiting (mkDeposits false false)
      end in
    lobby_write lobbyId (ev_join_lobby sid lobbyId wallet r) prev
      (with_lobby_players
         (obj_set wallet (mkLobbyPlayer wallet r false) (lobby_players l0)) l0)
| lw_deposit wallet l lp :
    obj_get wallet (lobby_players l) = Some lp ->
    let l1 := with_deposits (set_deposit (role lp) (deposits l)) l in
    let l2 :=
      with_lobby_players
        (obj_set wallet (with_deposited true lp) (lobby_players l1)) l1 in
    lobby_write lobbyId (ev_deposit_made lobbyId wallet) (Some l)
      (if both_deposited l2 then with_lobby_state ready l2 else l2).

(** Everything stored in [w] is still stored in [w']: every lobby with all
    its members, every match with all its players. *)
Definition persists (w w' : World) : Prop :=
  (forall lobbyId l,
      obj_get lobbyId (lobbies w) = Some l ->
      exists l',
        obj_get lobbyId (lobbies w') = Some l' /\
        forall wallet,
          obj_get wallet (lobby_players l) <> None ->
          obj_get wallet (lobby_players l') <> None) /\
  (forall matchId m,
      obj_get matchId (matches w) = Some m ->
      exists m',
        obj_get matchId (matches w') = Some m' /\
        forall wallet,
          obj_get wallet (players m) <> None ->
          obj_get wallet (players m') <> None).

(** [deposits[role]] *)
Definition flag_of (r : Role) (d : Deposits) : bool :=
  match r with
  | creator => dep_creator d
  | opponent => dep_opponent d
  end.

(** A lobby is stored under its own id, its members under their own
    wallets, and a member marked as deposited has the flag of their role
    set. *)
Definition lobby_wf (lobbyId : string) (l : Lobby) : Prop :=
  lobby_id l = lobbyId /\
  forall wallet lp,
    obj_get wallet (lobby_players l) = Some lp ->
    lp_wallet lp = wallet /\
    (deposited lp = true -> flag_of (role lp) (deposits l) = true).

(** The [gameTime] each generation writes into a match it creates. *)
Definition default_gameTime (v : Variant) : Z :=
  match v with
  | server_ts => 10
  | part_000 => 30
  end.

(** A match is stored under its own id with the durations it was created
    with, has at least one player, and every player is stored under their
    own wallet with a zero score and a count of taps that is not
    negative. *)
Definition match_wf (v : Variant) (matchId : string) (m : Match) : Prop :=
  id m = matchId /\
  countdownTime m = 3 /\
  gameTime m = default_gameTime v /\
  players m <> [] /\
  forall k p,
    obj_get k (players m) = Some p ->
    wallet p = k /\ score p = 0 /\ 0 <= taps p.

Definition registries_wf (v : Variant) (w : World) : Prop :=
  (forall lobbyId l, obj_get lobbyId (lobbies w) = Some l -> lobby_wf lobbyId l) /\
  (forall matchId m, obj_get matchId (matches w) = Some m -> match_wf v matchId m).

(** The delay each kind of timer is armed with. *)
Definition kind_delay (tk : Task) : Z :=
  match tk with
  | settle_timeout _ => 2000
  | countdown_timeout _ => 3000
  | game_timeout _ => 30000
  end.

(** A pending timer has the delay of its kind and closes over the id of a
    match that exists; src/server.ts arms no settle timer. *)
Definition timer_wf (v : Variant) (w : World) (t : Timer) : Prop :=
  delay t = kind_delay (task t) /\
  obj_get (task_match (task t)) (matches w) <> None /\
  (v = server_ts -> forall matchId, task t <> settle_timeout matchId).

Definition timers_wf (v : Variant) (w : World) : Prop :=
  Forall (timer_wf v w) (timers w).

(** What the timer [t], pending at position [n] of the timers of [w], does
    when it fires: its callback runs in full. *)
Definition callback_runs (v : Variant) (w : World) (n : nat) (t : Timer)
  : Prop :=
  let w' := fst (step v (ev_timeout n) w) in
  let out := snd (step v (ev_timeout n) w) in
  match task t with
  | settle_timeout matchId =>
      v = part_000 /\
      exists m,
        obj_get matchId (matches w) = Some m /\
        if state_eqb (state m) waiting
        then
          out = [emit matchId (countdown_start 3000)] /\
          obj_get matchId (matches w') = Some (with_state countdown m) /\
          timers w' =
            remove_nth n (timers w) ++ [mkTimer 3000 (countdown_timeout matchId)]
        else
          out = [] /\
          matches w' = matches w /\
          timers w' = remove_nth n (timers w)
  | countdown_timeout matchId =>
      exists m,
        obj_get matchId (matches w) = Some m /\
        out = [emit matchId (game_start 30000)] /\
        obj_get matchId (matches w') = Some (with_state active m) /\
        timers w' =
          remove_nth n (timers w) ++ [mkTimer 30000 (game_timeout matchId)]
  | game_timeout matchId =>
      exists m champion,
        obj_get matchId (matches w) = Some m /\
        out = [emit matchId (game_end (scores_of m) champion)] /\
        obj_get champion (players m) <> None /\
        obj_get matchId (matches w') =
          Some (match v with
                | part_000 => with_winner (Some champion) (with_state finished m)
                | server_ts => with_state finished m
                end) /\
        timers w' = remove_nth n (timers w)
  end.

(** [wallet] is the wallet of some member of the lobby. *)
Definition is_member (wallet : string) (l : Lobby) : bool :=
  existsb (fun lp => String.eqb wallet (lp_wallet lp))
    (obj_values (lobby_players l)).

(** The invariants a world reached from the empty registries has. *)
Definition sound (v : Variant) (w : World) : Prop :=
  registries_wf v w /\ timers_wf v w /\ matches_ok w.

(** A ready lobby has a match of the same id, and every member whose
    deposit is confirmed is on its roster. *)
Definition ready_lobbies_have_matches (w : World) : Prop :=
  forall lobbyId l,
    obj_get lobbyId (lobbies w) = Some l ->
    lobby_state l = ready ->
    exists m,
      obj_get lobbyId (matches w) = Some m /\
      forall wallet lp,
        obj_get wallet (lobby_players l) = Some lp ->
        deposited lp = true ->
        obj_get wallet (players m) <> None.

(** The event is the disconnect of the socket [sid]. *)
Definition leaves (sid : string) (e : Event) : bool :=
  match e with
  | ev_disconnecting s => String.eqb s sid
  | _ => false
  end.

(** The socket [sid] does not disconnect during [evs]. *)
Definition stays (sid : string) (evs : list Event) : bool :=
  forallb (fun e => negb (leaves sid e)) evs.

(** The wallet is a member of the lobby, is on the roster of the match. *)
Definition in_lobby (w : World) (lobbyId wallet : string) : bool :=
  match obj_get lobbyId (lobbies w) with
  | Some l =>
      match obj_get wallet (lobby_players l) with
      | Some _ => true
      | None => false
      end
  | None => false
  end.

Definition on_roster (w : World) (matchId wallet : string) : bool :=
  match obj_get matchId (matches w) with
  | Some m =>
      match obj_get wallet (players m) with
      | Some _ => true
      | None => false
      end
  | None => false
  end.

(** The trace has a [join_lobby], a [join_match], of the wallet for the
    id. *)
Definition joins_lobby (lobbyId wallet : string) (e : Event) : bool :=
  match e with
  | ev_join_lobby _ l k _ => String.eqb lobbyId l && String.eqb wallet k
  | _ => false
  end.

Definition joins_match (matchId wallet : string) (e : Event) : bool :=
  match e with
  | ev_join_match _ m k => String.eqb matchId m && String.eqb wallet k
  | _ => false
  end.

Definition joined_lobby (lobbyId wallet : string) (evs : list Event) : bool :=
  existsb (joins_lobby lobbyId wallet) evs.

Definition joined_match (matchId wallet : string) (evs : list Event) : bool :=
  existsb (joins_match matchId wallet) evs.

(** The state of a lobby, by id. *)
Definition lobby_state_of (w : World) (lobbyId : string) : option LobbyState :=
  option_map lobby_state (obj_get lobbyId (lobbies w)).

(** Every entry of the players of every lobby is stored under its own
    wallet. *)
Definition lobby_entries_ok (w : World) : Prop :=
  forall lobbyId l,
    obj_get lobbyId (lobbies w) = Some l ->
    Forall (fun kp => lp_wallet (snd kp) = fst kp) (lobby_players l).

(** The event puts the wallet on the roster of the match: a [join_match],
    or in the later generation a [deposit_made] that completes the lobby of
    the same id while the wallet is a member of it. *)
Definition enrols (v : Variant) (e : Event) (w : World)
  (matchId wallet : string) : bool :=
  match e with
  | ev_join_match _ m k => String.eqb matchId m && String.eqb wallet k
  | ev_deposit_made l k =>
      match v with
      | part_000 =>
          String.eqb matchId l && completes_lobby l k w && in_lobby w l wallet
      | server_ts => false
      end
  | _ => false
  end.

(** *** The two sides of the server *)

(** The events and the messages of the lobby handlers; the messages of the
    match handlers and of the timer callbacks, [player_left] apart. *)
Definition is_lobby_event (e : Event) : bool :=
  match e with
  | ev_join_lobby _ _ _ _ | ev_deposit_made _ _ => true
  | _ => false
  end.

Definition is_lobby_msg (m : Msg) : bool :=
  match m with
  | lobby_update _ _ | lobby_player_joined _ _
  | deposit_confirmed _ | match_ready _ => true
  | _ => false
  end.

Definition is_match_msg (m : Msg) : bool :=
  match m with
  | player_joined _ | countdown_start _ | game_start _
  | tap_update _ _ | game_end _ _ => true
  | _ => false
  end.

Definition lobby_side (out : list Emit) : list Emit :=
  filter (fun em => is_lobby_msg (emit_msg em)) out.

Definition match_side (out : list Emit) : list Emit :=
  filter (fun em => is_match_msg (emit_msg em)) out.

(** The matches and the pending timers. *)
Definition play (w : World) : Obj Match * list Timer := (matches w, timers w).

(** ** src/unnamed/part_001

    The generation between the oldest and src/server.ts: no lobby registry
    and no lobby handler.  Its [join_match] with the two timer callbacks,
    its [tap] and its [disconnecting] (part_001:27 to part_001:106) are,
    line for line, those of src/server.ts (src/server.ts:88 to
    src/server.ts:167), so their embeddings are used. *)

Module Part001.

(** [join_lobby] and [deposit_made] have no handler here: socket.io drops
    them. *)
Definition step (e : Event) (w : World) : World * list Emit :=
  match e with
  | ev_join_lobby _ _ _ _ => (w, [])
  | ev_deposit_made _ _ => (w, [])
  | ev_join_match sid matchId wallet => ServerTs.join_match sid matchId wallet w
  | ev_tap matchId wallet => tap matchId wallet w
  | ev_disconnecting sid =>
      let (w1, out) := disconnecting sid w in (socket_leave_all sid w1, out)
  | ev_timeout n => timeout ServerTs.run_task n w
  end.

Fixpoint run (evs : list Event) (w : World) : World * list Emit :=
  match evs with
  | [] => (w, [])
  | e :: evs' =>
      let (w1, out1) := step e w in
      let (w2, out2) := run evs' w1 in
      (w2, out1 ++ out2)
  end.

End Part001.

(** ** The first 103 lines of src/unnamed/part_000

    The oldest generation: no lobby registry and no lobby handler, the
    [join_match] of part_001 with other payloads, and a game of 10 s.
    Line numbers in this module are lines of [src/unnamed/part_000]. *)

Module Oldest.

(** The payload of an [update] event. *)
Inductive Update :=
| player_joined (playerCount : Z)
| countdown_start (countdownTime : Z)
| game_start (duration : Z)
| tap_update (wallet : string) (taps : Z)
| game_end (scores : list Score) (winner : string)
| player_left (playerCount : Z).

(** [io.to(room).emit("update", ...)] *)
Record Emit := emit { emit_room : string; emit_msg : Update }.

(** [socket.on("join_match", ...)], part_000:27, up to its [setTimeout], on
    plain keys. *)
Definition join_match (sid matchId wallet : string) (w : World)
  : World * list Emit :=
  let m0 :=
    match obj_get matchId (matches w) with
    | Some m => m
    | None => mkMatch matchId [] waiting 3 10 None
    end in
  let m1 := with_players (obj_set wallet (mkPlayer wallet 0 0) (players m0)) m0 in
  let w1 := socket_join sid matchId (with_matches (obj_set matchId m1 (matches w)) w) in
  let out := [emit matchId (player_joined (key_count (players m1)))] in
  if key_count (players m1) =? 2 then
    (setTimeout (countdown_timeout matchId) 3000
       (with_matches (obj_set matchId (with_state countdown m1) (matches w1)) w1),
     out ++ [emit matchId (countdown_start 3)])
  else (w1, out).

(** The two nested [setTimeout] callbacks of [join_match], part_000:51 and
    part_000:55.  No [settle_timeout] is ever armed here. *)
Definition run_task (tk : Task) (w : World) : World * list Emit :=
  match tk with
  | settle_timeout _ => (w, [])
  | countdown_timeout matchId =>
      match obj_get matchId (matches w) with
      | None => (w, [])
      | Some m =>
          (setTimeout (game_timeout matchId) 10000
             (with_matches (obj_set matchId (with_state active m) (matches w)) w),
           [emit matchId (game_start 10)])
      end
  | game_timeout matchId =>
      match obj_get matchId (matches w) with
      | None => (w, [])
      | Some m =>
          let m1 := with_state finished m in
          let w1 := with_matches (obj_set matchId m1 (matches w)) w in
          let scores := scores_of m1 in
          match winner_of scores with
          | None => (w1, [])
          | Some winner => (w1, [emit matchId (game_end scores winner)])
          end
      end
  end.

(** [socket.on("tap", ...)], part_000:73, on plain keys. *)
Definition tap (matchId wallet : string) (w : World) : World * list Emit :=
  match obj_get matchId (matches w) with
  | Some m =>
      match state m, obj_get wallet (players m) with
      | active, Some p =>
          let p' := with_taps (taps p + 1) p in
          let m' := with_players (obj_set wallet p' (players m)) m in
          (with_matches (obj_set matchId m' (matches w)) w,
           [emit matchId (tap_update wallet (taps p'))])
      | _, _ => (w, [])
      end
  | None => (w, [])
  end.

(** [socket.on("disconnecting", ...)], part_000:85. *)
Definition disconnecting (sid : string) (w : World) : World * list Emit :=
  (w,
   flat_map
     (fun matchId =>
        match obj_get matchId (matches w) with
        | Some m => [emit matchId (player_left (key_count (players m) - 1))]
        | None => []
        end)
     (socket_rooms sid w)).

Definition timeout (n : nat) (w : World) : World * list Emit :=
  match nth_error (timers w) n with
  | Some t => run_task (task t) (with_timers (remove_nth n (timers w)) w)
  | None => (w, [])
  end.

(** [join_lobby] and [deposit_made] have no handler here: socket.io drops
    them. *)
Definition step (e : Event) (w : World) : World * list Emit :=
  match e with
  | ev_join_lobby _ _ _ _ => (w, [])
  | ev_deposit_made _ _ => (w, [])
  | ev_join_match sid matchId wallet => join_match sid matchId wallet w
  | ev_tap matchId wallet => tap matchId wallet w
  | ev_disconnecting sid =>
      let (w1, out) := disconnecting sid w in (socket_leave_all sid w1, out)
  | ev_timeout n => timeout n w
  end.

Fixpoint run (evs : list Event) (w : World) : World * list Emit :=
  match evs with
  | [] => (w, [])
  | e :: evs' =>
      let (w1, out1) := step e w in
      let (w2, out2) := run evs' w1 in
      (w2, out1 ++ out2)
  end.

End Oldest.

(** What a broadcast of part_001 is in the oldest generation: the same
    event to the same room, with the countdown as [countdownTime: 3] and
    the game as [duration: 10]; the lobby broadcasts have no counterpart. *)
Definition legacy_msg (m : Msg) : option Oldest.Update :=
  match m with
  | player_joined n => Some (Oldest.player_joined n)
  | countdown_start _ => Some (Oldest.countdown_start 3)
  | game_start _ => Some (Oldest.game_start 10)
  | tap_update k n => Some (Oldest.tap_update k n)
  | game_end scores k => Some (Oldest.game_end scores k)
  | player_left n => Some (Oldest.player_left n)
  | lobby_update _ _ | lobby_player_joined _ _
  | deposit_confirmed _ | match_ready _ => None
  end.

Definition legacy_out (out : list Emit) : list Oldest.Emit :=
  flat_map
    (fun em =>
       match legacy_msg (emit_msg em) with
       | Some u => [Oldest.emit (emit_room em) u]
       | None => []
       end)
    out.

(** The game timer of the oldest generation runs for 10 s. *)
Definition legacy_timer (t : Timer) : Timer :=
  match task t with
  | game_timeout _ => mkTimer 10000 (task t)
  | _ => t
  end.

Definition legacy_world (w : World) : World :=
  with_timers (map legacy_timer (timers w)) w.

(** *** Taps and tap events *)

(** The number of [tap] events of the wallet for the match. *)
Definition tapped (matchId wallet : string) (e : Event) : Z :=
  match e with
  | ev_tap m k =>
      if String.eqb matchId m && String.eqb wallet k then 1 else 0
  | _ => 0
  end.

Definition taps_sent (matchId wallet : string) (evs : list Event) : Z :=
  fold_right (fun e n => tapped matchId wallet e + n) 0 evs.

(** The taps stored for the wallet, 0 when there is no entry. *)
Definition taps_or_zero (w : World) (matchId wallet : string) : Z :=
  match taps_of w matchId wallet with
  | Some t => t
  | None => 0
  end.

(** Splits a conjunction of four. *)
Ltac fields := (split; [|split; [|split]]); try assumption.

(** ** Facts about ordered dictionaries *)

Section ObjFacts.
Context {A : Type}.
Implicit Types (o : Obj A) (k : string) (v : A).

Lemma obj_get_replace k k' v o :
  obj_get k' (obj_replace k v o) =
  if String.eqb k' k
  then match obj_get k o with Some _ => Some v | None => None end
  else obj_get k' o.
Proof.
  induction o as [|[k0 v0] o IH]; simpl.
  - now destruct (String.eqb k' k).
  - destruct (String.eqb_spec k k0) as [->|Hk]; simpl.
    + now destruct (String.eqb_spec k' k0).
    + rewrite IH.
      destruct (String.eqb k' k0) eqn:E0; [|reflexivity].
      destruct (String.eqb k' k) eqn:E1; [|reflexivity].
      apply String.eqb_eq in E0, E1. congruence.
Qed.

Lemma obj_get_insert_index_other n k k' v o :
  k' <> k -> obj_get k' (insert_index n k v o) = obj_get k' o.
Proof.
  intros Hne. apply String.eqb_neq in Hne.
  induction o as [|[k0 v0] o IH]; simpl.
  - now rewrite Hne.
  - destruct (array_index k0) as [n'|]; simpl.
    + destruct (n <? n')%N; simpl.
      * now rewrite Hne.
      * now rewrite IH.
    + now rewrite Hne.
Qed.

Lemma obj_get_insert_index_same n k v o :
  obj_get k o = None -> obj_get k (insert_index n k v o) = Some v.
Proof.
  induction o as [|[k0 v0] o IH]; simpl; intros Hget.
  - now rewrite String.eqb_refl.
  - destruct (String.eqb k k0) eqn:E; [discriminate|].
    destruct (array_index k0) as [n'|]; simpl.
    + destruct (n <? n')%N; simpl.
      * now rewrite String.eqb_refl.
      * rewrite E. now apply IH.
    + now rewrite String.eqb_refl.
Qed.

Lemma obj_get_snoc k k' v o :
  obj_get k' (o ++ [(k, v)]) =
  match obj_get k' o with
  | Some x => Some x
  | None => if String.eqb k' k then Some v else None
  end.
Proof.
  induction o as [|[k0 v0] o IH]; simpl; [reflexivity|].
  now destruct (String.eqb k' k0).
Qed.

(** Reading after writing. *)
Lemma obj_get_set k k' v o :
  obj_get k' (obj_set k v o) =
  if String.eqb k' k then Some v else obj_get k' o.
Proof.
  unfold obj_set. destruct (obj_get k o) as [x|] eqn:E.
  - rewrite obj_get_replace, E. reflexivity.
  - destruct (String.eqb_spec k' k) as [->|Hne].
    + destruct (array_index k) as [n|].
      * now apply obj_get_insert_index_same.
      * now rewrite obj_get_snoc, E, String.eqb_refl.
    + destruct (array_index k) as [n|].
      * now apply obj_get_insert_index_other.
      * rewrite obj_get_snoc. apply String.eqb_neq in Hne. rewrite Hne.
        now destruct (obj_get k' o).
Qed.

Lemma obj_get_set_same k v o : obj_get k (obj_set k v o) = Some v.
Proof. now rewrite obj_get_set, String.eqb_refl. Qed.

Lemma obj_get_set_other k k' v o :
  k' <> k -> obj_get k' (obj_set k v o) = obj_get k' o.
Proof.
  intros H. apply String.eqb_neq in H. now rewrite obj_get_set, H.
Qed.

Lemma obj_get_In k v o : obj_get k o = Some v -> In (k, v) o.
Proof.
  induction o as [|[k0 v0] o IH]; simpl; [discriminate|].
  destruct (String.eqb_spec k k0) as [->|Hne].
  - intros [= ->]. now left.
  - intros H. right. now apply IH.
Qed.

Lemma obj_get_None k o : obj_get k o = None <-> ~ In k (obj_keys o).
Proof.
  induction o as [|[k0 v0] o IH]; simpl; [tauto|].
  destruct (String.eqb_spec k k0) as [->|Hne].
  - split; [discriminate|]. intros H. exfalso. apply H. now left.
  - rewrite IH. split; intros H; [intros [E|E]|]; try tauto.
    now apply Hne.
Qed.

Lemma In_obj_get k v o :
  NoDup (obj_keys o) -> In (k, v) o -> obj_get k o = Some v.
Proof.
  induction o as [|[k0 v0] o IH]; simpl; [tauto|].
  intros Hnd [E|Hin].
  - injection E as -> ->. now rewrite String.eqb_refl.
  - inversion Hnd as [|? ? Hnotin Hnd']; subst.
    destruct (String.eqb_spec k k0) as [->|Hne].
    + exfalso. apply Hnotin. change k0 with (fst (k0, v)).
      now apply in_map.
    + now apply IH.
Qed.

Lemma obj_keys_replace k v o : obj_keys (obj_replace k v o) = obj_keys o.
Proof.
  induction o as [|[k0 v0] o IH]; simpl; [reflexivity|].
  destruct (String.eqb k k0); simpl; [reflexivity|].
  f_equal. exact IH.
Qed.

Lemma obj_keys_insert_index n k v o :
  Permutation (obj_keys (insert_index n k v o)) (k :: obj_keys o).
Proof.
  induction o as [|[k0 v0] o IH]; simpl; [reflexivity|].
  destruct (array_index k0) as [n'|]; simpl; [|reflexivity].
  destruct (n <? n')%N; simpl; [reflexivity|].
  etransitivity; [apply perm_skip, IH|apply perm_swap].
Qed.

(** The keys after a write: the old ones, and the written one when new. *)
Lemma obj_keys_set k v o :
  Permutation (obj_keys (obj_set k v o))
    (match obj_get k o with Some _ => obj_keys o | None => k :: obj_keys o end).
Proof.
  unfold obj_set. destruct (obj_get k o) as [x|].
  - now rewrite obj_keys_replace.
  - destruct (array_index k) as [n|].
    + apply obj_keys_insert_index.
    + unfold obj_keys. rewrite map_app. simpl.
      symmetry. apply Permutation_cons_append.
Qed.

Lemma obj_keys_set_NoDup k v o :
  NoDup (obj_keys o) -> NoDup (obj_keys (obj_set k v o)).
Proof.
  intros Hnd.
  eapply Permutation_NoDup; [symmetry; apply obj_keys_set|].
  destruct (obj_get k o) as [x|] eqn:E; [assumption|].
  constructor; [now apply obj_get_None|assumption].
Qed.

Lemma key_count_set k v o :
  key_count (obj_set k v o) =
  match obj_get k o with Some _ => key_count o | None => key_count o + 1 end.
Proof.
  unfold key_count. rewrite (Permutation_length (obj_keys_set k v o)).
  destruct (obj_get k o); simpl List.length; lia.
Qed.

Lemma obj_replace_In k v o kv :
  In kv (obj_replace k v o) -> kv = (k, v) \/ In kv o.
Proof.
  induction o as [|[k0 v0] o IH]; simpl; [tauto|].
  destruct (String.eqb_spec k k0) as [->|Hne]; simpl.
  - intros [E|H]; [now left|right; now right].
  - intros [E|H]; [right; now left|].
    destruct (IH H); [now left|right; now right].
Qed.

Lemma insert_index_In n k v o kv :
  In kv (insert_index n k v o) -> kv = (k, v) \/ In kv o.
Proof.
  induction o as [|[k0 v0] o IH]; simpl.
  - intros [E|[]]. now left.
  - destruct (array_index k0) as [n'|]; simpl.
    + destruct (n <? n')%N; simpl.
      * intros [E|H]; [now left|now right].
      * intros [E|H]; [right; now left|].
        destruct (IH H); [now left|right; now right].
    + intros [E|H]; [now left|now right].
Qed.

(** Every entry after a write is the written one or an old one. *)
Lemma obj_set_In k v o kv :
  In kv (obj_set k v o) -> kv = (k, v) \/ In kv o.
Proof.
  unfold obj_set. destruct (obj_get k o).
  - apply obj_replace_In.
  - destruct (array_index k).
    + apply insert_index_In.
    + rewrite in_app_iff. simpl. intros [H|[E|[]]]; [now right|now left].
Qed.

End ObjFacts.

(** ** Taps *)

Lemma state_eqb_eq a b : state_eqb a b = true <-> a = b.
Proof. destruct a, b; simpl; split; congruence. Qed.

Lemma tap_unfold_accepted w matchId wallet m p :
  obj_get matchId (matches w) = Some m ->
  state m = active ->
  obj_get wallet (players m) = Some p ->
  tap matchId wallet w =
  (with_matches
     (obj_set matchId
        (with_players (obj_set wallet (with_taps (taps p + 1) p) (players m)) m)
        (matches w)) w,
   [emit matchId (tap_update wallet (taps p + 1))]).
Proof.
  intros Hm Hs Hp. unfold tap. now rewrite Hm, Hs, Hp.
Qed.

Lemma tap_unfold_rejected w matchId wallet :
  tap_accepted w matchId wallet = false -> tap matchId wallet w = (w, []).
Proof.
  unfold tap_accepted, tap.
  destruct (obj_get matchId (matches w)) as [m|]; [|reflexivity].
  destruct (state m); simpl; try reflexivity.
  destruct (obj_get wallet (players m)); [discriminate|reflexivity].
Qed.

(** What one [tap] does, by the three conditions of its guard. *)
Lemma tap_cases (w : World) (matchId wallet : string) :
  let (w', out) := tap matchId wallet w in
  if tap_accepted w matchId wallet then
    exists t,
      taps_of w matchId wallet = Some t /\
      taps_of w' matchId wallet = Some (t + 1) /\
      out = [emit matchId (tap_update wallet (t + 1))] /\
      (forall mid wal,
          (mid, wal) <> (matchId, wallet) ->
          taps_of w' mid wal = taps_of w mid wal) /\
      (forall mid,
          match_state w' mid = match_state w mid /\
          match_winner w' mid = match_winner w mid) /\
      lobbies w' = lobbies w /\ rooms w' = rooms w /\ timers w' = timers w
  else w' = w /\ out = [].
Proof.
  destruct (tap_accepted w matchId wallet) eqn:Hacc.
  - unfold tap_accepted in Hacc.
    destruct (obj_get matchId (matches w)) as [m|] eqn:Hm; [|discriminate].
    apply andb_prop in Hacc as [Hs Hp]. apply state_eqb_eq in Hs.
    destruct (obj_get wallet (players m)) as [p|] eqn:Hpl; [|discriminate].
    rewrite (tap_unfold_accepted w matchId wallet m p Hm Hs Hpl).
    exists (taps p). unfold taps_of, match_state, match_winner. simpl.
    rewrite Hm, Hpl, obj_get_set_same. simpl. rewrite obj_get_set_same.
    repeat split; try reflexivity.
    + intros mid wal Hne. rewrite obj_get_set.
      destruct (String.eqb_spec mid matchId) as [->|Hmid]; [|reflexivity].
      rewrite Hm. simpl. rewrite obj_get_set_other; [reflexivity|].
      intros ->. now apply Hne.
    + rewrite obj_get_set.
      destruct (String.eqb_spec mid matchId) as [->|Hmid]; [|reflexivity].
      now rewrite Hm.
    + rewrite obj_get_set.
      destruct (String.eqb_spec mid matchId) as [->|Hmid]; [|reflexivity].
      now rewrite Hm.
  - now rewrite (tap_unfold_rejected w matchId wallet Hacc).
Qed.

(** X24.  After a run of plain events, in both generations, a [tap] for
    plain keys adds exactly one to the tapping player's counter when the
    match exists, is [active] and has the wallet on its roster: every other
    counter, every phase and winner, the lobbies, the rooms and the timers
    stay as they were, and one [tap_update] with the new count goes out.  In
    every other case the world is unchanged and nothing is broadcast. *)
Theorem tap_counts_iff_accepted
  (v : Variant) (evs : list Event) (matchId wallet : string) :
  plain_run evs = true ->
  plain_event (ev_tap matchId wallet) = true ->
  let w := fst (run v evs init) in
  let w' := fst (step v (ev_tap matchId wallet) w) in
  let out := snd (step v (ev_tap matchId wallet) w) in
  if tap_accepted w matchId wallet then
    exists t,
      taps_of w matchId wallet = Some t /\
      taps_of w' matchId wallet = Some (t + 1) /\
      out = [emit matchId (tap_update wallet (t + 1))] /\
      (forall mid wal,
          (mid, wal) <> (matchId, wallet) ->
          taps_of w' mid wal = taps_of w mid wal) /\
      (forall mid,
          match_state w' mid = match_state w mid /\
          match_winner w' mid = match_winner w mid) /\
      lobbies w' = lobbies w /\ rooms w' = rooms w /\ timers w' = timers w
  else w' = w /\ out = [].
Proof.
  intros _ _ w w' out.
  assert (Hstep : step v (ev_tap matchId wallet) w = tap matchId wallet w)
    by now destruct v.
  subst w' out. rewrite Hstep.
  pose proof (tap_cases w matchId wallet) as H.
  now destruct (tap matchId wallet w) as [w' out].
Qed.

Lemma tap_counts_iff_accepted_witness :
  let w := fst (run part_000 (firstn 3 sample_game) init) in
  exists t,
    taps_of w "M" "A" = Some t /\
    taps_of (fst (step part_000 (ev_tap "M" "A") w)) "M" "A" = Some (t + 1) /\
    snd (step part_000 (ev_tap "M" "A") w) =
      [emit "M" (tap_update "A" (t + 1))] /\
    (forall mid wal,
        (mid, wal) <> ("M", "A") ->
        taps_of (fst (step part_000 (ev_tap "M" "A") w)) mid wal =
        taps_of w mid wal) /\
    (forall mid,
        match_state (fst (step part_000 (ev_tap "M" "A") w)) mid =
        match_state w mid /\
        match_winner (fst (step part_000 (ev_tap "M" "A") w)) mid =
        match_winner w mid) /\
    lobbies (fst (step part_000 (ev_tap "M" "A") w)) = lobbies w /\
    rooms (fst (step part_000 (ev_tap "M" "A") w)) = rooms w /\
    timers (fst (step part_000 (ev_tap "M" "A") w)) = timers w.
Proof.
  apply (tap_counts_iff_accepted part_000 (firstn 3 sample_game) "M" "A");
    reflexivity.
Defined.

(** Scenario 4 of the spec and its accepted counterpart, on a concrete
    run. *)
Example tap_scenario :
  let w := fst (run part_000
                  [ev_join_match "s1" "M" "A"; ev_join_match "s2" "M" "B";
                   ev_timeout 0] init) in
  tap "M" "C" w = (w, []) /\
  snd (tap "M" "A" w) = [emit "M" (tap_update "A" 1)] /\
  taps_of (fst (tap "M" "A" w)) "M" "A" = Some 1.
Proof. vm_compute. repeat split. Qed.

(** ** Deposits from strangers *)

(** [deposit_made] for a lobby that is not stored, or from a wallet that is
    not among its players, returns the world as it was and broadcasts
    nothing, in both generations of the handler. *)
Lemma deposit_made_stranger (w : World) (lobbyId wallet : string) :
  match obj_get lobbyId (lobbies w) with
  | Some lobby => obj_get wallet (lobby_players lobby) = None
  | None => True
  end ->
  ServerTs.deposit_made lobbyId wallet w = (w, []) /\
  Part000.deposit_made lobbyId wallet w = (w, []).
Proof.
  unfold ServerTs.deposit_made, Part000.deposit_made.
  destruct (obj_get lobbyId (lobbies w)) as [lobby|]; [|easy].
  intros ->. easy.
Qed.

(** X25.  After a run of plain events, in both generations, a
    [deposit_made] with plain keys for a lobby that does not exist, or from
    a wallet that has not joined it, leaves the world as it was and
    broadcasts nothing. *)
Theorem deposit_made_ignores_strangers
  (v : Variant) (evs : list Event) (lobbyId wallet : string) :
  plain_run evs = true ->
  plain_event (ev_deposit_made lobbyId wallet) = true ->
  in_lobby (fst (run v evs init)) lobbyId wallet = false ->
  step v (ev_deposit_made lobbyId wallet) (fst (run v evs init)) =
  (fst (run v evs init), []).
Proof.
  intros _ _ Hin.
  destruct (deposit_made_stranger (fst (run v evs init)) lobbyId wallet)
    as [H1 H2].
  { unfold in_lobby in Hin.
    destruct (obj_get lobbyId (lobbies (fst (run v evs init)))) as [l|];
      [|exact I].
    now destruct (obj_get wallet (lobby_players l)). }
  now destruct v.
Qed.

Lemma deposit_made_ignores_strangers_witness :
  step part_000 (ev_deposit_made "L" "C")
    (fst (run part_000 [ev_join_lobby "s1" "L" "A" creator] init)) =
  (fst (run part_000 [ev_join_lobby "s1" "L" "A" creator] init), []).
Proof.
  apply (deposit_made_ignores_strangers part_000
           [ev_join_lobby "s1" "L" "A" creator] "L" "C"); reflexivity.
Defined.

(** ** Disconnects *)














(** Scenario 6 of the spec: a player disconnects during the active phase;
    the roster and the taps stay, and the match ends on them. *)
Example disconnect_scenario :
  let evs := [ev_join_match "s1" "M" "A"; ev_join_match "s2" "M" "B";
              ev_timeout 0; ev_tap "M" "A"; ev_tap "M" "A"; ev_tap "M" "B"] in
  let w := fst (run part_000 evs init) in
  let w' := fst (step part_000 (ev_disconnecting "s1") w) in
  snd (step part_000 (ev_disconnecting "s1") w) = [emit "M" (player_left 1)] /\
  matches w' = matches w /\
  match_state w' "M" = Some active /\
  snd (step part_000 (ev_timeout 0) w') =
    [emit "M" (game_end [mkScore "A" 2; mkScore "B" 1] "A")] /\
  match_state (fst (step part_000 (ev_timeout 0) w')) "M" = Some finished.
Proof. vm_compute. repeat split. Qed.

(** ** Lobbies *)

Lemma startMatchCountdown_lobbies matchId :
  keeps_lobbies (Part000.startMatchCountdown matchId).
Proof.
  intros w. unfold Part000.startMatchCountdown.
  now destruct (obj_get matchId (matches w)).
Qed.

Lemma Part000_run_task_lobbies tk : keeps_lobbies (Part000.run_task tk).
Proof.
  intros w. destruct tk as [mid|mid|mid]; simpl.
  - destruct (obj_get mid (matches w)) as [m|]; [|reflexivity].
    destruct (state_eqb (state m) waiting); [|reflexivity].
    apply startMatchCountdown_lobbies.
  - now destruct (obj_get mid (matches w)).
  - destruct (obj_get mid (matches w)) as [m|]; [|reflexivity].
    now destruct (winner_of (scores_of (with_state finished m))).
Qed.

Lemma ServerTs_run_task_lobbies tk : keeps_lobbies (ServerTs.run_task tk).
Proof.
  intros w. destruct tk as [mid|mid|mid]; simpl; [reflexivity| |].
  - now destruct (obj_get mid (matches w)).
  - destruct (obj_get mid (matches w)) as [m|]; [|reflexivity].
    now destruct (winner_of (scores_of (with_state finished m))).
Qed.

Lemma timeout_lobbies rt n :
  (forall tk, keeps_lobbies (rt tk)) -> keeps_lobbies (timeout rt n).
Proof.
  intros Hrt w. unfold timeout.
  destruct (nth_error (timers w) n) as [t|]; [|reflexivity].
  now rewrite Hrt.
Qed.

Lemma tap_lobbies matchId wallet : keeps_lobbies (tap matchId wallet).
Proof.
  intros w. unfold tap.
  destruct (obj_get matchId (matches w)) as [m|]; [|reflexivity].
  destruct (state m); try reflexivity.
  now destruct (obj_get wallet (players m)).
Qed.

Lemma ServerTs_join_match_lobbies sid matchId wallet :
  keeps_lobbies (ServerTs.join_match sid matchId wallet).
Proof.
  intros w. unfold ServerTs.join_match. now destruct (_ =? 2).
Qed.

Lemma Part000_join_match_lobbies sid matchId wallet :
  keeps_lobbies (Part000.join_match sid matchId wallet).
Proof.
  intros w. unfold Part000.join_match.
  destruct (_ && _); [|reflexivity].
  match goal with
  | |- context [Part000.startMatchCountdown ?k ?a] =>
      pose proof (startMatchCountdown_lobbies k a) as Hs;
      destruct (Part000.startMatchCountdown k a)
  end.
  exact Hs.
Qed.

Lemma step_lobbies v e w :
  lobbies (fst (step v e w)) = lobbies w \/
  exists lobbyId l',
    lobbies (fst (step v e w)) = obj_set lobbyId l' (lobbies w) /\
    lobby_change lobbyId (obj_get lobbyId (lobbies w)) l'.
Proof.
  assert (Hjoin : forall sid lobbyId wallet role,
             exists lid l',
               lobbies (fst (join_lobby sid lobbyId wallet role w)) =
               obj_set lid l' (lobbies w) /\
               lobby_change lid (obj_get lid (lobbies w)) l').
  { intros sid lobbyId wallet role. unfold join_lobby. simpl.
    eexists _, _. split; [reflexivity|]. apply change_join. }
  destruct v, e; unfold step, ServerTs.step, Part000.step;
    try (right; apply Hjoin);
    try (left;
         first [ apply tap_lobbies
               | apply ServerTs_join_match_lobbies
               | apply Part000_join_match_lobbies
               | apply timeout_lobbies; auto using ServerTs_run_task_lobbies,
                   Part000_run_task_lobbies
               | reflexivity ]).
  - unfold ServerTs.deposit_made.
    destruct (obj_get lobbyId (lobbies w)) as [lobby|] eqn:Hl; [|now left].
    destruct (obj_get wallet0 (lobby_players lobby)) as [lp|]; [|now left].
    right. exists lobbyId. rewrite Hl.
    eexists. split; [|apply (change_deposit lobbyId lobby (role lp))].
    cbv zeta. simpl deposits. now destruct (_ && _).
  - unfold Part000.deposit_made.
    destruct (obj_get lobbyId (lobbies w)) as [lobby|] eqn:Hl; [|now left].
    destruct (obj_get wallet0 (lobby_players lobby)) as [lp|]; [|now left].
    right. exists lobbyId. rewrite Hl.
    eexists. split; [|apply (change_deposit lobbyId lobby (role lp))].
    cbv zeta. simpl deposits. now destruct (_ && _).
Qed.

(** *** Runs and invariants *)

Lemma run_cons_fst v e evs w :
  fst (run v (e :: evs) w) = fst (run v evs (fst (step v e w))).
Proof.
  simpl. destruct (step v e w) as [w1 o1]. simpl.
  now destruct (run v evs w1).
Qed.

Lemma run_invariant (P : World -> Prop) v :
  (forall e w, P w -> P (fst (step v e w))) ->
  forall evs w, P w -> P (fst (run v evs w)).
Proof.
  intros Hstep evs. induction evs as [|e evs IH]; intros w Hw; [exact Hw|].
  rewrite run_cons_fst. apply IH, Hstep, Hw.
Qed.

(** *** The ready invariant *)

Lemma lobby_change_ok lobbyId prev l' :
  (forall l, prev = Some l -> lobby_ok l) ->
  lobby_change lobbyId prev l' -> lobby_ok l'.
Proof.
  intros Hprev Hch. destruct Hch as [prev ps|l r ps].
  - destruct prev as [l|]; [|reflexivity].
    now apply (Hprev l).
  - specialize (Hprev l eq_refl). revert Hprev.
    unfold lobby_ok, both_deposited. cbv zeta. simpl deposits.
    destruct l as [i pl st [c o]], r; simpl; destruct c, o; simpl; auto.
Qed.

Lemma step_lobbies_ok v e w : lobbies_ok w -> lobbies_ok (fst (step v e w)).
Proof.
  intros Hok lid l Hget.
  destruct (step_lobbies v e w) as [Heq|(k & l' & Heq & Hch)];
    rewrite Heq in Hget.
  - now apply (Hok lid).
  - rewrite obj_get_set in Hget.
    destruct (String.eqb_spec lid k) as [->|Hne].
    + injection Hget as <-.
      eapply lobby_change_ok; [|exact Hch]. intros l0. apply Hok.
    + now apply (Hok lid).
Qed.

(** C3.  After any sequence of events, in both generations, every lobby is
    [ready] exactly when both deposit flags are set, and [waiting]
    otherwise. *)
Theorem lobby_ready_iff_both_deposits
  (v : Variant) (evs : list Event) (lobbyId : string) (l : Lobby) :
  obj_get lobbyId (lobbies (fst (run v evs init))) = Some l ->
  (lobby_state l = ready <->
   dep_creator (deposits l) = true /\ dep_opponent (deposits l) = true) /\
  (lobby_state l <> ready -> lobby_state l = lobby_waiting).
Proof.
  intros Hget.
  assert (Hok : lobbies_ok (fst (run v evs init))).
  { apply run_invariant; [apply step_lobbies_ok|]. intros k l0 H. discriminate. }
  specialize (Hok lobbyId l Hget). unfold lobby_ok, both_deposited in Hok.
  split.
  - rewrite Hok, <- andb_true_iff. destruct (_ && _); split; congruence.
  - now destruct (lobby_state l).
Qed.

Lemma lobby_ready_iff_both_deposits_witness :
  obj_get "L"
    (lobbies
       (fst (run part_000
               [ev_join_lobby "s1" "L" "A" creator;
                ev_join_lobby "s2" "L" "B" opponent;
                ev_deposit_made "L" "A"; ev_deposit_made "L" "B"] init))) =
  Some (mkLobby "L"
          [("A", mkLobbyPlayer "A" creator true);
           ("B", mkLobbyPlayer "B" opponent true)]
          ready (mkDeposits true true)) /\
  ((ready = ready <-> true = true /\ true = true) /\
   (ready <> ready -> ready = lobby_waiting)).
Proof.
  split; [reflexivity|].
  exact (lobby_ready_iff_both_deposits part_000
           [ev_join_lobby "s1" "L" "A" creator;
            ev_join_lobby "s2" "L" "B" opponent;
            ev_deposit_made "L" "A"; ev_deposit_made "L" "B"]
           "L"
           (mkLobby "L"
              [("A", mkLobbyPlayer "A" creator true);
               ("B", mkLobbyPlayer "B" opponent true)]
              ready (mkDeposits true true))
           eq_refl).
Defined.

(** *** Monotone flags *)

Lemma lobby_change_le lobbyId l l' :
  lobby_change lobbyId (Some l) l' -> lobby_le l l'.
Proof.
  intros Hch. inversion Hch as [prev ps Hp Hl|l0 r ps Hp Hl]; subst.
  - now repeat split.
  - unfold lobby_le. cbv zeta. simpl deposits.
    destruct l as [i pl st [c o]], r; simpl; destruct c, o; simpl; auto.
Qed.

Lemma step_lobby_le v e w lobbyId l :
  obj_get lobbyId (lobbies w) = Some l ->
  exists l',
    obj_get lobbyId (lobbies (fst (step v e w))) = Some l' /\ lobby_le l l'.
Proof.
  intros Hget.
  destruct (step_lobbies v e w) as [Heq|(k & l' & Heq & Hch)]; rewrite Heq.
  - exists l. now repeat split.
  - rewrite obj_get_set.
    destruct (String.eqb_spec lobbyId k) as [->|Hne].
    + exists l'. split; [reflexivity|].
      rewrite Hget in Hch. now apply (lobby_change_le k).
    + exists l. now repeat split.
Qed.

Lemma run_lobby_le v evs : forall w lobbyId l,
  obj_get lobbyId (lobbies w) = Some l ->
  exists l',
    obj_get lobbyId (lobbies (fst (run v evs w))) = Some l' /\ lobby_le l l'.
Proof.
  induction evs as [|e evs IH]; intros w lid l Hget.
  - exists l. now repeat split.
  - rewrite run_cons_fst.
    destruct (step_lobby_le v e w lid l Hget) as (l1 & H1 & Hle1).
    destruct (IH _ lid l1 H1) as (l2 & H2 & Hle2).
    exists l2. split; [exact H2|].
    unfold lobby_le in *. intuition.
Qed.

(** C10.  From any world and under any sequence of events, in both
    generations, a deposit flag that is set stays set and a lobby that is
    [ready] stays [ready].  A [join_lobby] for a lobby that exists stores
    the player with [deposited = false] and leaves the per-role flags and
    the lobby state alone; so a lobby can become [ready], and can remain
    [ready], while a member's own [deposited] flag is false. *)
Theorem lobby_deposits_monotone :
  (forall v evs w lobbyId l,
      obj_get lobbyId (lobbies w) = Some l ->
      exists l',
        obj_get lobbyId (lobbies (fst (run v evs w))) = Some l' /\
        (dep_creator (deposits l) = true -> dep_creator (deposits l') = true) /\
        (dep_opponent (deposits l) = true -> dep_opponent (deposits l') = true) /\
        (lobby_state l = ready -> lobby_state l' = ready)) /\
  (forall sid lobbyId wallet r w l,
      obj_get lobbyId (lobbies w) = Some l ->
      exists l',
        obj_get lobbyId (lobbies (fst (join_lobby sid lobbyId wallet r w)))
        = Some l' /\
        obj_get wallet (lobby_players l') = Some (mkLobbyPlayer wallet r false) /\
        deposits l' = deposits l /\
        lobby_state l' = lobby_state l) /\
  (forall v,
      ready_with_undeposited_member (fst (run v becomes_ready init)) /\
      ready_with_undeposited_member (fst (run v remains_ready init))).
Proof.
  split; [|split].
  - intros v evs w lid l Hget. apply (run_lobby_le v evs w lid l Hget).
  - intros sid lid wal r w l Hget. unfold join_lobby. simpl.
    rewrite Hget, obj_get_set_same. eexists. split; [reflexivity|].
    simpl. now rewrite obj_get_set_same.
  - intros v. unfold ready_with_undeposited_member.
    split; destruct v; vm_compute; eexists; repeat split.
Qed.

(** ** Matches *)

Lemma startMatchCountdown_matches matchId w m :
  obj_get matchId (matches w) = Some m ->
  matches (fst (Part000.startMatchCountdown matchId w)) =
  obj_set matchId (with_state countdown m) (matches w) /\
  timers (fst (Part000.startMatchCountdown matchId w)) =
  timers w ++ [mkTimer 3000 (countdown_timeout matchId)].
Proof.
  intros H. unfold Part000.startMatchCountdown. now rewrite H.
Qed.

Lemma run_task_effect v n tk w :
  effect v (ev_timeout n) (Some tk) (matches w) (timers w)
    (fst (match v with
          | server_ts => ServerTs.run_task tk w
          | part_000 => Part000.run_task tk w
          end)).
Proof.
  destruct v, tk as [mid|mid|mid]; simpl;
    try (destruct (obj_get mid (matches w)) as [m|] eqn:Hm);
    try (left; split; reflexivity).
  - right. exists mid, (with_state active m), [mkTimer 30000 (game_timeout mid)].
    rewrite Hm. split; [constructor|]. split; [|reflexivity].
    intros k. simpl. apply obj_get_set.
  - right. exists mid, (with_state finished m), []. rewrite Hm.
    split; [now constructor|].
    destruct (winner_of _); simpl; (split; [|now rewrite app_nil_r]);
      intros k; apply obj_get_set.
  - destruct (state_eqb (state m) waiting) eqn:Hs;
      [|left; split; reflexivity].
    apply state_eqb_eq in Hs.
    destruct (startMatchCountdown_matches mid w m Hm) as [H1 H2].
    right.
    exists mid, (with_state countdown m), [mkTimer 3000 (countdown_timeout mid)].
    rewrite Hm. split; [now constructor|]. split; [|exact H2].
    intros k. rewrite H1. apply obj_get_set.
  - right. exists mid, (with_state active m), [mkTimer 30000 (game_timeout mid)].
    rewrite Hm. split; [constructor|]. split; [|reflexivity].
    intros k. simpl. apply obj_get_set.
  - destruct (winner_of (scores_of (with_state finished m))) as [wn|] eqn:Hw.
    + right. exists mid, (with_winner (Some wn) (with_state finished m)), [].
      rewrite Hm. split; [now constructor|]. simpl.
      split; [|now rewrite app_nil_r]. intros k. apply obj_get_set.
    + right. exists mid, (with_state finished m), []. rewrite Hm.
      split; [now constructor|]. simpl.
      split; [|now rewrite app_nil_r]. intros k. apply obj_get_set.
Qed.

Lemma tap_effect v matchId wallet w :
  effect v (ev_tap matchId wallet) None (matches w) (timers w)
    (fst (tap matchId wallet w)).
Proof.
  unfold tap.
  destruct (obj_get matchId (matches w)) as [m|] eqn:Hm; [|now left].
  destruct (state m) eqn:Hs; try now left.
  destruct (obj_get wallet (players m)) as [p|] eqn:Hp; [|now left].
  right. eexists matchId, _, []. rewrite Hm.
  split; [now apply (mc_tap matchId v m wallet p)|]. simpl.
  split; [|now rewrite app_nil_r]. intros k. apply obj_get_set.
Qed.

Lemma ServerTs_join_match_effect sid matchId wallet w :
  effect server_ts (ev_join_match sid matchId wallet) None
    (matches w) (timers w)
    (fst (ServerTs.join_match sid matchId wallet w)).
Proof.
  right. eexists matchId, _, _.
  split; [apply (mc_join_server_ts matchId sid _ wallet)|].
  unfold ServerTs.join_match. cbv zeta.
  fold (or_fresh (obj_get matchId (matches w)) matchId 10).
  destruct (_ =? 2); simpl; (split; [|now rewrite ?app_nil_r]);
    intros k; rewrite !obj_get_set; now destruct (String.eqb k matchId).
Qed.

Lemma Part000_join_match_effect sid matchId wallet w :
  effect part_000 (ev_join_match sid matchId wallet) None
    (matches w) (timers w)
    (fst (Part000.join_match sid matchId wallet w)).
Proof.
  right. eexists matchId, _, _.
  split; [apply (mc_join_part_000 matchId sid _ wallet)|].
  unfold Part000.join_match. cbv zeta.
  fold (or_fresh (obj_get matchId (matches w)) matchId 30).
  destruct ((2 <=? _) && _).
  - match goal with
    | |- context [Part000.startMatchCountdown matchId ?a] =>
        pose proof (startMatchCountdown_matches matchId a) as Hs;
        destruct (Part000.startMatchCountdown matchId a) as [w2 out2]
    end.
    simpl in *. rewrite obj_get_set_same in Hs.
    destruct (Hs _ eq_refl) as [H1 H2]. split; [|exact H2].
    intros k. rewrite H1, !obj_get_set. now destruct (String.eqb k matchId).
  - simpl. split; [|now rewrite app_nil_r]. intros k. apply obj_get_set.
Qed.

Lemma Part000_deposit_made_effect lobbyId wallet w :
  effect part_000 (ev_deposit_made lobbyId wallet) None
    (matches w) (timers w)
    (fst (Part000.deposit_made lobbyId wallet w)).
Proof.
  unfold Part000.deposit_made.
  destruct (obj_get lobbyId (lobbies w)) as [lobby|]; [|now left].
  destruct (obj_get wallet (lobby_players lobby)) as [lp|]; [|now left].
  cbv zeta. destruct (_ && _); [|now left].
  right. eexists lobbyId, _, _.
  split; [apply (mc_deposit lobbyId _ wallet)|]. simpl.
  split; [|reflexivity]. intros k. apply obj_get_set.
Qed.

Lemma ServerTs_deposit_made_effect lobbyId wallet w :
  effect server_ts (ev_deposit_made lobbyId wallet) None
    (matches w) (timers w)
    (fst (ServerTs.deposit_made lobbyId wallet w)).
Proof.
  left. unfold ServerTs.deposit_made.
  destruct (obj_get lobbyId (lobbies w)) as [lobby|]; [|now split].
  destruct (obj_get wallet (lobby_players lobby)) as [lp|]; [|now split].
  cbv zeta. now destruct (_ && _).
Qed.

(** Every step leaves the matches alone or rewrites one of them in one of
    the ways of [match_change]; it removes the timer it fires and appends
    the timers it arms. *)
Lemma step_effect v e w :
  effect v e (option_map task (fired_by e w)) (matches w) (timers_left e w)
    (fst (step v e w)).
Proof.
  destruct e as [sid lid wal r|lid wal|sid mid wal|mid wal|sid|n];
    unfold fired_by, timers_left; simpl option_map.
  - left. now destruct v.
  - destruct v; [apply ServerTs_deposit_made_effect
                |apply Part000_deposit_made_effect].
  - destruct v; [apply ServerTs_join_match_effect
                |apply Part000_join_match_effect].
  - destruct v; apply tap_effect.
  - left. now destruct v.
  - assert (H : step v (ev_timeout n) w =
                match nth_error (timers w) n with
                | Some t =>
                    match v with
                    | server_ts => ServerTs.run_task (task t)
                    | part_000 => Part000.run_task (task t)
                    end (with_timers (remove_nth n (timers w)) w)
                | None => (w, [])
                end).
    { destruct v; reflexivity. }
    rewrite H. destruct (nth_error (timers w) n) as [t|]; [|now left].
    simpl option_map.
    destruct v.
    + apply (run_task_effect server_ts n (task t)
               (with_timers (remove_nth n (timers w)) w)).
    + apply (run_task_effect part_000 n (task t)
               (with_timers (remove_nth n (timers w)) w)).
Qed.

Lemma step_matches v e w :
  (forall mid,
      obj_get mid (matches (fst (step v e w))) = obj_get mid (matches w)) \/
  exists k m' fired armed,
    match_change k v e fired (obj_get k (matches w)) m' armed /\
    forall mid,
      obj_get mid (matches (fst (step v e w))) =
      if String.eqb mid k then Some m' else obj_get mid (matches w).
Proof.
  destruct (step_effect v e w) as [[H _]|(k & m' & armed & Hch & H & _)].
  - now left.
  - right. now exists k, m', (option_map task (fired_by e w)), armed.
Qed.

(** *** Rosters *)

Lemma roster_ok_set k p ps :
  roster_ok ps -> wallet p = k -> roster_ok (obj_set k p ps).
Proof.
  intros [Hnd Hall] Hw. split; [now apply obj_keys_set_NoDup|].
  apply Forall_forall. intros kp Hin.
  destruct (obj_set_In _ _ _ _ Hin) as [->|Hold]; [exact Hw|].
  exact (proj1 (Forall_forall _ _) Hall kp Hold).
Qed.

Lemma roster_ok_copy members : forall ps,
  roster_ok ps -> roster_ok (copy_roster members ps).
Proof.
  induction members as [|lp members IH]; intros ps Hok; [exact Hok|].
  apply IH. now apply roster_ok_set.
Qed.

Lemma roster_ok_get k p ps :
  roster_ok ps -> obj_get k ps = Some p -> wallet p = k.
Proof.
  intros [_ Hall] Hget. apply obj_get_In in Hget.
  now apply (proj1 (Forall_forall _ _) Hall (k, p)).
Qed.

Lemma roster_ok_nil : roster_ok [].
Proof. split; constructor. Qed.

Lemma match_change_roster_ok k v e fired prev m' armed :
  (forall m, prev = Some m -> roster_ok (players m)) ->
  match_change k v e fired prev m' armed -> roster_ok (players m').
Proof.
  intros Hprev Hch.
  assert (Hfresh : forall g, roster_ok (players (or_fresh prev k g))).
  { intros g. destruct prev as [m|]; [now apply Hprev|apply roster_ok_nil]. }
  destruct Hch; simpl; auto.
  - apply roster_ok_set; [now apply Hprev|].
    simpl. eapply roster_ok_get; [apply (Hprev m eq_refl)|eassumption].
  - subst start m0 m1. destruct (_ =? 2); simpl; now apply roster_ok_set.
  - subst start m0 m1.
    destruct (obj_get wallet0 (players (or_fresh prev k 30)));
      destruct ((2 <=? _) && _); simpl; auto; now apply roster_ok_set.
  - subst m0. now apply roster_ok_copy.
Qed.

Lemma step_matches_ok v e w : matches_ok w -> matches_ok (fst (step v e w)).
Proof.
  intros Hok mid m Hget.
  destruct (step_matches v e w) as [Heq|(k & m' & fired & armed & Hch & Heq)];
    rewrite Heq in Hget.
  - now apply (Hok mid).
  - destruct (String.eqb_spec mid k) as [->|Hne].
    + injection Hget as <-.
      eapply match_change_roster_ok; [|exact Hch]. intros m0. apply Hok.
    + now apply (Hok mid).
Qed.

Lemma run_matches_ok v evs : matches_ok (fst (run v evs init)).
Proof.
  apply run_invariant; [apply step_matches_ok|]. intros k m H. discriminate.
Qed.

(** *** The winner *)

Lemma pick_cases a b :
  (pick a b = a \/ pick a b = b) /\
  score_value a <= score_value (pick a b) /\
  score_value b <= score_value (pick a b).
Proof.
  unfold pick. destruct (Z.ltb_spec (score_value b) (score_value a)).
  - split; [now left|lia].
  - split; [now right|lia].
Qed.

(** [reduce] with [pick] returns an entry of the list that no entry beats. *)
Lemma fold_pick_max l : forall a,
  In (fold_left pick l a) (a :: l) /\
  forall y, In y (a :: l) -> score_value y <= score_value (fold_left pick l a).
Proof.
  induction l as [|b l IH]; intros a; simpl.
  - split; [now left|]. intros y [<-|[]]. lia.
  - destruct (IH (pick a b)) as [Hin Hmax].
    destruct (pick_cases a b) as (Hc & Ha & Hb).
    split.
    + destruct Hin as [E|Hin]; [|now right; right].
      rewrite <- E. destruct Hc as [-> | ->]; [now left|right; now left].
    + intros y [<-|[<-|Hy]].
      * specialize (Hmax (pick a b) (or_introl eq_refl)). lia.
      * specialize (Hmax (pick a b) (or_introl eq_refl)). lia.
      * apply Hmax. now right.
Qed.

Lemma winner_of_max (ps : list Player) :
  ps <> [] ->
  exists p,
    In p ps /\
    winner_of (map (fun p => mkScore (wallet p) (taps p)) ps) = Some (wallet p) /\
    forall q, In q ps -> taps q <= taps p.
Proof.
  destruct ps as [|p0 ps]; [easy|]. intros _.
  set (f := fun p => mkScore (wallet p) (taps p)).
  unfold winner_of, reduce.
  change (map f (p0 :: ps)) with (f p0 :: map f ps).
  destruct (fold_pick_max (map f ps) (f p0)) as [Hin Hmax].
  change (f p0 :: map f ps) with (map f (p0 :: ps)) in Hin, Hmax.
  apply in_map_iff in Hin as (p & Hp & Hinp).
  exists p. split; [exact Hinp|]. split.
  - unfold option_map. now rewrite <- Hp.
  - intros q Hq. specialize (Hmax (f q) (in_map f _ _ Hq)).
    rewrite <- Hp in Hmax. exact Hmax.
Qed.

Lemma NoDup_map_inj {A B} (f : A -> B) (l : list A) x y :
  NoDup (map f l) -> In x l -> In y l -> f x = f y -> x = y.
Proof.
  induction l as [|a l IH]; simpl; [easy|].
  intros Hnd. inversion Hnd as [|? ? Hnotin Hnd']; subst.
  intros [->|Hx] [->|Hy] Hf; auto.
  - exfalso. apply Hnotin. rewrite Hf. now apply in_map.
  - exfalso. apply Hnotin. rewrite <- Hf. now apply in_map.
Qed.

Lemma roster_values_get ps p :
  roster_ok ps -> In p (obj_values ps) -> obj_get (wallet p) ps = Some p.
Proof.
  intros [Hnd Hall] Hin. apply in_map_iff in Hin as ([k q] & Hq & Hin).
  simpl in Hq. subst q.
  pose proof (proj1 (Forall_forall _ _) Hall _ Hin) as Hw. simpl in Hw.
  rewrite Hw. now apply In_obj_get.
Qed.

Lemma scores_of_wallets m :
  roster_ok (players m) -> map score_wallet (scores_of m) = obj_keys (players m).
Proof.
  intros [_ Hall]. unfold scores_of, obj_values, obj_keys.
  rewrite !map_map. apply map_ext_in. intros kp Hin. simpl.
  now apply (proj1 (Forall_forall _ _) Hall).
Qed.

Lemma scores_of_In m k s :
  roster_ok (players m) ->
  In (mkScore k s) (scores_of m) <->
  option_map taps (obj_get k (players m)) = Some s.
Proof.
  intros Hok. unfold scores_of. rewrite in_map_iff. split.
  - intros (p & [= <- <-] & Hin).
    now rewrite (roster_values_get _ _ Hok Hin).
  - destruct (obj_get k (players m)) as [p|] eqn:Hget; [|discriminate].
    intros [= <-]. exists p.
    rewrite (roster_ok_get _ _ _ Hok Hget). split; [reflexivity|].
    apply obj_get_In in Hget. unfold obj_values.
    change p with (snd (k, p)). now apply in_map.
Qed.

(** C5.  In a world reached from the start, let the [game_end] timer of a
    match fire while the match has at least one player and the taps on its
    roster are pairwise distinct.  Then the winner that is broadcast (and,
    in the generation that stores it, stored) is the wallet of the one
    player whose taps exceed everyone else's, the match is [finished], and
    the broadcast score list has every roster wallet exactly once, each with
    that player's taps. *)
Theorem winner_has_max_taps
  (v : Variant) (evs : list Event) (n : nat) (d : Z)
  (matchId : string) (m : Match) :
  nth_error (timers (fst (run v evs init))) n
  = Some (mkTimer d (game_timeout matchId)) ->
  obj_get matchId (matches (fst (run v evs init))) = Some m ->
  players m <> [] ->
  NoDup (map taps (obj_values (players m))) ->
  game_end_correct v (fst (run v evs init)) n matchId m.
Proof.
  set (w := fst (run v evs init)). intros Hn Hm Hne Hdistinct.
  assert (Hok : roster_ok (players m))
    by exact (run_matches_ok v evs matchId m Hm).
  assert (Hvals : obj_values (players m) <> []).
  { destruct (players m); [easy|discriminate]. }
  destruct (winner_of_max _ Hvals) as (p & Hin & Hwin & Hmax).
  fold (scores_of m) in Hwin.
  exists p. split; [now apply roster_values_get|].
  split.
  { intros q Hq Hqp. specialize (Hmax q Hq).
    destruct (Z.eq_dec (taps q) (taps p)) as [E|E]; [|lia].
    exfalso. apply Hqp. exact (NoDup_map_inj taps _ q p Hdistinct Hq Hin E). }
  assert (Hscores : scores_of (with_state finished m) = scores_of m)
    by reflexivity.
  assert (Hstep :
            step v (ev_timeout n) w =
            (with_matches
               (obj_set matchId
                  (match v with
                   | part_000 => with_winner (Some (wallet p)) (with_state finished m)
                   | server_ts => with_state finished m
                   end) (matches w))
               (with_timers (remove_nth n (timers w)) w),
             [emit matchId (game_end (scores_of m) (wallet p))])).
  { destruct v; simpl; unfold timeout; rewrite Hn; simpl; rewrite Hm;
      rewrite Hscores, Hwin; reflexivity. }
  rewrite Hstep. unfold match_state, match_winner, taps_of. simpl.
  rewrite obj_get_set_same, Hm.
  repeat split.
  - now destruct v.
  - now destruct v.
  - rewrite scores_of_wallets by exact Hok. apply Hok.
  - now apply scores_of_In.
  - now apply scores_of_In.
Qed.

Lemma winner_has_max_taps_witness :
  game_end_correct part_000 (fst (run part_000 sample_game init)) 0 "M"
    (mkMatch "M" [("A", mkPlayer "A" 0 2); ("B", mkPlayer "B" 0 1)]
       active 3 30 None).
Proof.
  apply (winner_has_max_taps part_000 sample_game 0 30000 "M").
  - reflexivity.
  - reflexivity.
  - discriminate.
  - simpl. repeat constructor; simpl; intuition discriminate.
Defined.

(** Scenario 3 of the spec, in both generations. *)
Example game_end_scenario (v : Variant) :
  snd (step v (ev_timeout 0) (fst (run v sample_game init))) =
  [emit "M" (game_end [mkScore "A" 2; mkScore "B" 1] "A")].
Proof. now destruct v. Qed.

(** ** Phases *)

(** C1, on the two inputs where it fails.  In the later generation a
    repeated [deposit_made] on a ready lobby writes [waiting] into a match
    that is [active]; in src/server.ts a repeated [join_match] writes
    [countdown] into a match that is [active]. *)
Theorem phase_regresses :
  observe (fun w => match_state w "L") part_000 deposit_again init =
  [None; None; None; Some waiting; Some countdown; Some active; Some waiting] /\
  observe (fun w => match_state w "M") server_ts rejoin_active init =
  [Some waiting; Some countdown; Some active; Some countdown].
Proof. split; reflexivity. Qed.

(** C4, on the input where src/server.ts fails it: [join_match] from a
    wallet that is already on a two-player roster starts a countdown on a
    match that is [active]. *)
Theorem server_ts_countdown_from_active :
  let w := fst (run server_ts
                  [ev_join_match "s1" "M" "A"; ev_join_match "s2" "M" "B";
                   ev_timeout 0] init) in
  let (w', out) := step server_ts (ev_join_match "s2" "M" "B") w in
  match_state w "M" = Some active /\
  match_state w' "M" = Some countdown /\
  out = [emit "M" (player_joined 2); emit "M" (countdown_start 3000)] /\
  timers w' = timers w ++ [mkTimer 3000 (countdown_timeout "M")].
Proof. repeat split. Qed.

(** C7, on the input where src/server.ts fails it: a second [join_match]
    from a player who has tapped stores a fresh entry in place of
    the old one. *)
Theorem server_ts_rejoin_resets_taps :
  let w := fst (run server_ts
                  [ev_join_match "s1" "M" "A"; ev_join_match "s2" "M" "B";
                   ev_timeout 0; ev_tap "M" "A"] init) in
  let w' := fst (step server_ts (ev_join_match "s1" "M" "A") w) in
  taps_of w "M" "A" = Some 1 /\ taps_of w' "M" "A" = Some 0.
Proof. split; reflexivity. Qed.

(** C6, on the inputs where it fails.  In the later generation the match
    restarted by a repeated deposit is [waiting] with the old winner
    still stored, and its second [game_end] stores another winner; in
    src/server.ts the winner is broadcast and never stored. *)
Theorem winner_assigned_twice_or_never :
  observe (fun w => (match_state w "L", match_winner w "L"))
    part_000 played_twice init =
  [(None, None); (None, None); (None, None);
   (Some waiting, None); (Some countdown, None); (Some active, None);
   (Some active, None); (Some finished, Some "A");
   (Some waiting, Some "A");
   (Some countdown, Some "A"); (Some active, Some "A");
   (Some active, Some "A"); (Some finished, Some "B")] /\
  (let w := fst (run server_ts sample_game init) in
   let (w', out) := step server_ts (ev_timeout 0) w in
   out = [emit "M" (game_end [mkScore "A" 2; mkScore "B" 1] "A")] /\
   match_state w' "M" = Some finished /\
   match_winner w' "M" = None).
Proof. split; [reflexivity|repeat split]. Qed.

(** ** What the later generation guards *)

Lemma key_count_singleton {A} k (v : A) : key_count (obj_set k v []) = 1.
Proof. rewrite key_count_set. reflexivity. Qed.

Lemma match_change_countdown k v e fired prev m' armed :
  match_change k v e fired prev m' armed ->
  v = part_000 ->
  state m' = countdown ->
  exists m, prev = Some m /\ (state m = waiting \/ state m = countdown).
Proof.
  intros Hch Hv. destruct Hch; simpl; try congruence.
  - subst start m0 m1. destruct prev as [m|]; simpl.
    + set (m1 := match obj_get wallet0 (players m) with
                 | Some _ => m
                 | None =>
                     with_players
                       (obj_set wallet0 (mkPlayer wallet0 0 0) (players m)) m
                 end).
      assert (Hst : state m1 = state m)
        by (subst m1; now destruct (obj_get wallet0 (players m))).
      intros Hs. exists m. split; [reflexivity|].
      destruct ((2 <=? _) && _) eqn:Hg.
      * apply andb_prop in Hg as [_ Hg]. apply state_eqb_eq in Hg.
        left. congruence.
      * right. congruence.
    + rewrite key_count_singleton. simpl. discriminate.
  - intros _. exists m. split; [reflexivity|now left].
Qed.

(** X2.  In the later generation a step leaves a match in [countdown] only
    if the match existed before the step and was [waiting] or already in
    [countdown]. *)
Theorem part_000_countdown_only_from_waiting
  (e : Event) (w : World) (matchId : string) :
  match_state (fst (step part_000 e w)) matchId = Some countdown ->
  match_state w matchId = Some waiting \/
  match_state w matchId = Some countdown.
Proof.
  unfold match_state.
  destruct (step_matches part_000 e w)
    as [Heq|(k & m' & fired & armed & Hch & Heq)];
    rewrite Heq; [tauto|].
  destruct (String.eqb_spec matchId k) as [->|Hne]; [|tauto].
  simpl. intros [= Hs].
  destruct (match_change_countdown k _ _ _ _ _ _ Hch eq_refl Hs)
    as (m & -> & H).
  simpl. destruct H as [-> | ->]; tauto.
Qed.

Lemma part_000_countdown_only_from_waiting_witness :
  match_state
    (fst (run part_000
            [ev_join_match "s1" "M" "A"; ev_join_match "s2" "M" "B"] init))
    "M" = Some countdown /\
  (match_state (fst (run part_000 [ev_join_match "s1" "M" "A"] init)) "M"
   = Some waiting \/
   match_state (fst (run part_000 [ev_join_match "s1" "M" "A"] init)) "M"
   = Some countdown).
Proof.
  split; [reflexivity|].
  apply (part_000_countdown_only_from_waiting
           (ev_join_match "s2" "M" "B")
           (fst (run part_000 [ev_join_match "s1" "M" "A"] init)) "M").
  reflexivity.
Defined.

(** X1.  In the later generation a [countdown_start] goes out for a match
    only from a step that found the match [waiting] and, when the step is a
    [join_match], with at least two players on the roster. *)
Theorem part_000_countdown_start_guarded
  (e : Event) (w : World) (matchId : string) (d : Z) :
  In (emit matchId (countdown_start d)) (snd (step part_000 e w)) ->
  d = 3000 /\
  match_state w matchId = Some waiting /\
  match_state (fst (step part_000 e w)) matchId = Some countdown /\
  match e with
  | ev_join_match _ _ _ =>
      exists m',
        obj_get matchId (matches (fst (step part_000 e w))) = Some m' /\
        2 <= key_count (players m')
  | ev_timeout n =>
      exists dl, nth_error (timers w) n = Some (mkTimer dl (settle_timeout matchId))
  | _ => False
  end.
Proof.
  destruct e as [sid lid wal r|lid wal|sid mid wal|mid wal|sid|n];
    unfold step, Part000.step.
  - simpl. intros [H|[H|[]]]; discriminate.
  - unfold Part000.deposit_made.
    destruct (obj_get lid (lobbies w)) as [lobby|]; [|easy].
    destruct (obj_get wal (lobby_players lobby)) as [lp|]; [|easy].
    cbv zeta. destruct (_ && _); simpl.
    + intros [H|[H|[]]]; discriminate.
    + intros [H|[]]; discriminate.
  - unfold Part000.join_match. cbv zeta.
    fold (or_fresh (obj_get mid (matches w)) mid 30).
    set (m0 := or_fresh (obj_get mid (matches w)) mid 30).
    set (m1 := match obj_get wal (players m0) with
               | Some _ => m0
               | None =>
                   with_players
                     (obj_set wal (mkPlayer wal 0 0) (players m0)) m0
               end).
    destruct (_ && _) eqn:Hg.
    + apply andb_prop in Hg as [Hcount Hs].
      apply state_eqb_eq in Hs. apply Z.leb_le in Hcount.
      unfold Part000.startMatchCountdown. simpl.
      rewrite obj_get_set_same. simpl.
      intros [H|[H|[]]]; [discriminate|].
      injection H as -> ->.
      unfold match_state. simpl. rewrite obj_get_set_same. simpl.
      repeat split.
      * destruct (obj_get matchId (matches w)) as [m|] eqn:Hm.
        -- simpl. f_equal. rewrite <- Hs. subst m1 m0. simpl.
           now destruct (obj_get wal (players m)).
        -- exfalso. subst m1 m0. simpl in Hcount.
           rewrite key_count_singleton in Hcount. lia.
      * eexists. split; [reflexivity|exact Hcount].
    + simpl. intros [H|[]]; discriminate.
  - unfold tap.
    destruct (obj_get mid (matches w)) as [m|]; [|easy].
    destruct (state m); try easy.
    destruct (obj_get wal (players m)); [|easy].
    simpl. intros [H|[]]; discriminate.
  - simpl. intros Hin. apply in_flat_map in Hin as (r & _ & Hin).
    destruct (obj_get r (matches w)); simpl in Hin; [|easy].
    destruct Hin as [H|[]]; discriminate.
  - unfold timeout.
    destruct (nth_error (timers w) n) as [t|] eqn:Hn; [|easy].
    destruct t as [dl [mid|mid|mid]]; simpl.
    + destruct (obj_get mid (matches w)) as [m|] eqn:Hm; [|easy].
      destruct (state_eqb (state m) waiting) eqn:Hs; [|easy].
      apply state_eqb_eq in Hs.
      unfold Part000.startMatchCountdown. simpl. rewrite Hm. simpl.
      intros [H|[]]. injection H as -> ->.
      unfold match_state. simpl. rewrite Hm, obj_get_set_same. simpl.
      repeat split; [congruence|].
      now exists dl.
    + destruct (obj_get mid (matches w)); simpl; [|easy].
      intros [H|[]]; discriminate.
    + destruct (obj_get mid (matches w)) as [m|]; simpl; [|easy].
      destruct (winner_of _); simpl; [|easy].
      intros [H|[]]; discriminate.
Qed.

Lemma part_000_countdown_start_guarded_witness :
  In (emit "M" (countdown_start 3000))
    (snd (step part_000 (ev_join_match "s2" "M" "B")
            (fst (run part_000 [ev_join_match "s1" "M" "A"] init)))) /\
  match_state (fst (run part_000 [ev_join_match "s1" "M" "A"] init)) "M"
  = Some waiting.
Proof.
  split; [right; left; reflexivity|].
  apply (part_000_countdown_start_guarded
           (ev_join_match "s2" "M" "B")
           (fst (run part_000 [ev_join_match "s1" "M" "A"] init)) "M" 3000).
  right. left. reflexivity.
Defined.

(** X3.  In the later generation a [join_match] from a wallet that is on the
    roster leaves the roster, entry by entry, as it was. *)
Theorem part_000_join_match_idempotent
  (sid matchId wallet : string) (w : World) (m : Match) (p : Player) :
  obj_get matchId (matches w) = Some m ->
  obj_get wallet (players m) = Some p ->
  exists m',
    obj_get matchId
      (matches (fst (step part_000 (ev_join_match sid matchId wallet) w)))
    = Some m' /\
    players m' = players m /\
    taps_of (fst (step part_000 (ev_join_match sid matchId wallet) w))
      matchId wallet = Some (taps p).
Proof.
  intros Hm Hp. unfold step, Part000.step, Part000.join_match, taps_of.
  rewrite Hm, Hp. cbv zeta.
  destruct (_ && _).
  - unfold Part000.startMatchCountdown. simpl.
    rewrite obj_get_set_same. simpl. rewrite obj_get_set_same.
    eexists. split; [reflexivity|]. simpl. now rewrite Hp.
  - simpl. rewrite obj_get_set_same.
    eexists. split; [reflexivity|]. now rewrite Hp.
Qed.

Lemma part_000_join_match_idempotent_witness :
  exists m',
    obj_get "M"
      (matches
         (fst (step part_000 (ev_join_match "s1" "M" "A")
                 (fst (run part_000 sample_game init)))))
    = Some m' /\
    players m' = [("A", mkPlayer "A" 0 2); ("B", mkPlayer "B" 0 1)] /\
    taps_of
      (fst (step part_000 (ev_join_match "s1" "M" "A")
              (fst (run part_000 sample_game init))))
      "M" "A" = Some 2.
Proof.
  apply (part_000_join_match_idempotent "s1" "M" "A"
           (fst (run part_000 sample_game init))
           (mkMatch "M" [("A", mkPlayer "A" 0 2); ("B", mkPlayer "B" 0 1)]
              active 3 30 None)
           (mkPlayer "A" 0 2)); reflexivity.
Defined.

Lemma obj_keys_set_singleton {A} k (v : A) o :
  o = [] \/ obj_keys o = [k] -> obj_keys (obj_set k v o) = [k].
Proof.
  intros [->|Hk].
  - unfold obj_set. simpl. now destruct (array_index k).
  - destruct o as [|[k0 x] [|]]; simpl in Hk; try discriminate.
    injection Hk as ->. unfold obj_set. simpl.
    now rewrite String.eqb_refl.
Qed.

Lemma obj_get_singleton_keys {A} k (o : Obj A) :
  obj_keys o = [k] -> obj_get k o <> None.
Proof.
  intros Hk H. apply obj_get_None in H. apply H. rewrite Hk. now left.
Qed.

Lemma join_match_alone v sid matchId wallet w :
  joined_only_by wallet matchId w ->
  let (w', out) := step v (ev_join_match sid matchId wallet) w in
  (exists m,
      obj_get matchId (matches w') = Some m /\
      obj_keys (players m) = [wallet] /\ state m = waiting) /\
  timers w' = timers w /\
  out = [emit matchId (player_joined 1)].
Proof.
  unfold joined_only_by. intros Hw.
  destruct v; unfold step, ServerTs.step, Part000.step,
    ServerTs.join_match, Part000.join_match; cbv zeta.
  - set (m0 := match obj_get matchId (matches w) with
               | Some m => m
               | None => mkMatch matchId [] waiting 3 10 None
               end).
    assert (Hk : obj_keys
                   (obj_set wallet (mkPlayer wallet 0 0) (players m0))
                 = [wallet] /\ state m0 = waiting).
    { subst m0. destruct (obj_get matchId (matches w)) as [m|].
      - destruct Hw as [Hk Hs]. split; [|exact Hs].
        apply obj_keys_set_singleton. now right.
      - split; [|reflexivity]. apply obj_keys_set_singleton. now left. }
    destruct Hk as [Hk Hs].
    unfold key_count. simpl players. rewrite Hk. simpl.
    rewrite obj_get_set_same.
    split; [|now split]. eexists. split; [reflexivity|]. now split.
  - set (m0 := match obj_get matchId (matches w) with
               | Some m => m
               | None => mkMatch matchId [] waiting 3 30 None
               end).
    set (m1 := match obj_get wallet (players m0) with
               | Some _ => m0
               | None =>
                   with_players
                     (obj_set wallet (mkPlayer wallet 0 0) (players m0)) m0
               end).
    assert (Hk : obj_keys (players m1) = [wallet] /\ state m1 = waiting).
    { subst m1 m0. destruct (obj_get matchId (matches w)) as [m|].
      - destruct Hw as [Hk Hs].
        destruct (obj_get wallet (players m)) eqn:Hg; [now split|].
        now apply obj_get_singleton_keys in Hk.
      - simpl. split; [|reflexivity]. apply obj_keys_set_singleton. now left. }
    destruct Hk as [Hk Hs].
    unfold key_count. rewrite Hk. simpl.
    rewrite obj_get_set_same.
    split; [|now split]. eexists. split; [reflexivity|]. now split.
Qed.

(** X4.  After a run of plain events, in both generations, [join_match]
    calls that all come from one wallet, for plain keys, on a match nobody
    else has joined, keep the roster at that one wallet and the match
    [waiting]; they arm no timer and broadcast nothing but [player_joined]
    with a count of one. *)
Theorem single_wallet_never_starts_countdown
  (v : Variant) (evs : list Event) (sids : list string)
  (matchId wallet : string) (w : World) :
  plain_run evs = true ->
  plain matchId = true ->
  plain wallet = true ->
  w = fst (run v evs init) ->
  joined_only_by wallet matchId w ->
  joined_only_by wallet matchId
    (fst (run v (map (fun sid => ev_join_match sid matchId wallet) sids) w)) /\
  timers (fst (run v (map (fun sid => ev_join_match sid matchId wallet) sids) w))
  = timers w /\
  Forall (fun e => e = emit matchId (player_joined 1))
    (snd (run v (map (fun sid => ev_join_match sid matchId wallet) sids) w)).
Proof.
  intros _ _ _ _. clear evs.
  revert w. induction sids as [|sid sids IH]; intros w Hw; simpl.
  - repeat split; [exact Hw|constructor].
  - pose proof (join_match_alone v sid matchId wallet w Hw) as Hstep.
    destruct (step v (ev_join_match sid matchId wallet) w) as [w1 o1].
    destruct Hstep as ((m & Hm & Hk & Hs) & Ht & ->).
    assert (Hw1 : joined_only_by wallet matchId w1)
      by (unfold joined_only_by; rewrite Hm; now split).
    destruct (IH w1 Hw1) as (H1 & H2 & H3).
    destruct (run v _ w1) as [w2 o2]. simpl in *.
    repeat split; [exact H1|congruence|].
    constructor; [reflexivity|exact H3].
Qed.

Lemma single_wallet_never_starts_countdown_witness :
  joined_only_by "A" "M"
    (fst (run server_ts
            (map (fun sid => ev_join_match sid "M" "A") ["s1"; "s1"; "s2"])
            init)) /\
  timers
    (fst (run server_ts
            (map (fun sid => ev_join_match sid "M" "A") ["s1"; "s1"; "s2"])
            init)) = timers init /\
  Forall (fun e => e = emit "M" (player_joined 1))
    (snd (run server_ts
            (map (fun sid => ev_join_match sid "M" "A") ["s1"; "s1"; "s2"])
            init)).
Proof.
  apply (single_wallet_never_starts_countdown server_ts [] ["s1"; "s1"; "s2"]
           "M" "A" init); [reflexivity..|exact I].
Defined.

(** X5.  In both generations a step changes the stored winner of a match
    only when it is the firing of a [game_end] timer of that match in the
    later generation, which leaves the match [finished] and stores the
    winner computed from the roster it found.  So no client event
    ([join_lobby], [deposit_made], [join_match], [tap], a disconnect), no
    other timer and no step of src/server.ts changes a stored winner. *)
Theorem winner_written_only_at_finish
  (v : Variant) (e : Event) (w : World) (matchId : string) :
  match_winner (fst (step v e w)) matchId = match_winner w matchId \/
  (v = part_000 /\
   (exists n t,
       e = ev_timeout n /\
       nth_error (timers w) n = Some t /\
       task t = game_timeout matchId) /\
   match_state (fst (step v e w)) matchId = Some finished /\
   exists m,
     obj_get matchId (matches w) = Some m /\
     match_winner (fst (step v e w)) matchId = winner_of (scores_of m)).
Proof.
  unfold match_winner, match_state.
  pose proof (step_effect v e w) as Heff.
  remember (option_map task (fired_by e w)) as fired eqn:Hf.
  destruct Heff as [[Heq _]|(k & m' & armed & Hch & Heq & _)];
    rewrite !Heq; [now left|].
  destruct (String.eqb_spec matchId k) as [->|Hne]; [|now left].
  destruct Hch; try (left; reflexivity).
  - right. split; [reflexivity|]. split.
    + simpl in Hf. destruct (nth_error (timers w) n) as [t|] eqn:Hn;
        [|discriminate].
      injection Hf as Hf. now exists n, t.
    + split; [reflexivity|]. exists m. split; [reflexivity|]. now simpl.
  - left. subst start m0 m1. destruct prev as [m|]; now destruct (_ =? 2).
  - left. subst start m0 m1. destruct prev as [m|]; simpl.
    + destruct (obj_get wallet0 (players m));
        match goal with |- context [if ?b then _ else _] => destruct b end;
        reflexivity.
    + match goal with |- context [if ?b then _ else _] => destruct b end;
        reflexivity.
  - left. subst m0. now destruct prev.
Qed.


(** ** Runs of the later generation without restarts *)

Lemma Task_eqb_eq a b : Task_eqb a b = true <-> a = b.
Proof.
  destruct a, b; simpl; rewrite ?String.eqb_eq; split; congruence.
Qed.

Lemma pending_app tk ts1 ts2 :
  pending tk (ts1 ++ ts2) = (pending tk ts1 + pending tk ts2)%nat.
Proof. unfold pending. now rewrite filter_app, length_app. Qed.

Lemma pending_remove_nth tk n : forall ts t,
  nth_error ts n = Some t ->
  pending tk ts = (pending tk (remove_nth n ts) + fired_count (Some (task t)) tk)%nat.
Proof.
  induction n as [|n IH]; intros [|t0 ts] t Hn; try discriminate.
  - injection Hn as ->. unfold pending, remove_nth, fired_count. simpl.
    destruct (Task_eqb (task t) tk); simpl; lia.
  - simpl in Hn. specialize (IH ts t Hn).
    change (remove_nth (S n) (t0 :: ts)) with (t0 :: remove_nth n ts).
    unfold pending in *. simpl filter.
    destruct (Task_eqb (task t0) tk); simpl List.length; lia.
Qed.

(** Firing removes exactly the fired timer. *)
Lemma pending_timers_left e w tk :
  pending tk (timers w) =
  (pending tk (timers_left e w)
   + fired_count (option_map task (fired_by e w)) tk)%nat.
Proof.
  destruct e; simpl; try lia.
  destruct (nth_error (timers w) n) as [t|] eqn:Hn; simpl; [|lia].
  now apply pending_remove_nth.
Qed.

Lemma match_change_armed_other k v e fired prev m' armed mid :
  match_change k v e fired prev m' armed ->
  mid <> k ->
  pending (countdown_timeout mid) armed = 0%nat /\
  pending (game_timeout mid) armed = 0%nat.
Proof.
  intros Hch Hne. apply String.eqb_neq in Hne.
  rewrite String.eqb_sym in Hne.
  destruct Hch; try subst start; unfold pending; simpl;
    repeat match goal with
      | |- context [if ?b then _ else _] => destruct b eqn:?; simpl
      end;
    try (split; reflexivity); congruence.
Qed.

Lemma chain_at_le o cd gm cd' gm' :
  chain_at o cd gm -> (cd' <= cd)%nat -> (gm' <= gm)%nat -> chain_at o cd' gm'.
Proof.
  unfold chain_at. destruct o as [m|]; [destruct (state m)|]; intuition lia.
Qed.

Lemma pending_nil tk : pending tk [] = 0%nat.
Proof. reflexivity. Qed.

Lemma pending_single tk t :
  pending tk [t] = fired_count (Some (task t)) tk.
Proof.
  unfold pending, fired_count. simpl. now destruct (Task_eqb (task t) tk).
Qed.

Ltac chain_counts :=
  rewrite ?pending_app, ?pending_single, ?pending_nil in *;
  unfold fired_count in *; simpl task in *; simpl Task_eqb in *;
  rewrite ?String.eqb_refl in *.

Lemma chain_change k v e fired prev m' armed ts tl :
  match_change k v e fired prev m' armed ->
  v = part_000 ->
  chain_at prev (pending (countdown_timeout k) ts) (pending (game_timeout k) ts) ->
  (forall tk, pending tk ts = (pending tk tl + fired_count fired tk)%nat) ->
  (forall wal, e = ev_deposit_made k wal ->
               phase_le (option_map state prev) (Some waiting)) ->
  chain_at (Some m')
    (pending (countdown_timeout k) (tl ++ armed))
    (pending (game_timeout k) (tl ++ armed)) /\
  phase_le (option_map state prev) (Some (state m')) /\
  (forall x, stored_winner prev = Some x -> winner m' = Some x).
Proof.
  intros Hch Hv Hat Hcnt Hcalm.
  pose proof (Hcnt (countdown_timeout k)) as Hcd.
  pose proof (Hcnt (game_timeout k)) as Hgm.
  clear Hcnt.
  destruct Hch; try discriminate Hv; unfold chain_at in *; simpl in Hat |- *.
  - (* tap *)
    chain_counts. rewrite H in *. simpl. intuition lia.
  - (* the countdown ends *)
    chain_counts. destruct (state m); simpl; intuition (try lia; congruence).
  - (* the game ends, no winner *)
    chain_counts. destruct (state m); simpl; intuition (try lia; congruence).
  - (* the game ends *)
    chain_counts. destruct (state m); simpl; intuition (try lia; congruence).
  - (* join_match *)
    subst start m1 m0.
    destruct prev as [m|]; simpl in Hat |- *.
    + set (m1 := match obj_get wallet0 (players m) with
                 | Some _ => m
                 | None =>
                     with_players
                       (obj_set wallet0 (mkPlayer wallet0 0 0) (players m)) m
                 end) in *.
      assert (Hst : state m1 = state m /\ winner m1 = winner m)
        by (subst m1; now destruct (obj_get wallet0 (players m))).
      destruct Hst as [Hst Hwn].
      destruct ((2 <=? _) && _) eqn:Hg; simpl.
      * apply andb_prop in Hg as [_ Hg]. apply state_eqb_eq in Hg.
        rewrite Hst in Hg. rewrite Hg in *. chain_counts. simpl.
        rewrite Hwn. intuition (try lia; congruence).
      * rewrite Hst, Hwn. chain_counts.
        destruct (state m); simpl; intuition (try lia; congruence).
    + rewrite key_count_singleton. simpl. chain_counts. intuition lia.
  - (* the settle delay ends *)
    chain_counts. rewrite H in *. simpl. intuition (try lia; congruence).
  - (* deposit_made *)
    subst m0. specialize (Hcalm wallet0 eq_refl). chain_counts.
    destruct prev as [m|]; simpl in *.
    + destruct (state m); simpl in *; intuition (try lia; congruence).
    + intuition lia.
Qed.

Lemma deposit_made_incomplete lobbyId wallet w :
  completes_lobby lobbyId wallet w = false ->
  matches (fst (Part000.deposit_made lobbyId wallet w)) = matches w /\
  timers (fst (Part000.deposit_made lobbyId wallet w)) = timers w.
Proof.
  unfold completes_lobby, Part000.deposit_made, both_deposited.
  destruct (obj_get lobbyId (lobbies w)) as [lobby|]; [|now split].
  destruct (obj_get wallet (lobby_players lobby)) as [lp|]; [|now split].
  cbv zeta. simpl deposits. now intros ->.
Qed.

Lemma phase_le_refl o : phase_le o o.
Proof. destruct o as [s|]; simpl; [lia|exact I]. Qed.

Lemma phase_le_trans a b c : phase_le a b -> phase_le b c -> phase_le a c.
Proof.
  destruct a as [x|], b as [y|], c as [z|]; simpl; try tauto; lia.
Qed.

(** A step that restarts no match keeps the timers of every match in
    agreement with its phase, moves no match back, and keeps every stored
    winner. *)
Lemma chain_step e w :
  chains_ok w ->
  restarts e w = false ->
  chains_ok (fst (step part_000 e w)) /\
  forall mid,
    phase_le (match_state w mid) (match_state (fst (step part_000 e w)) mid) /\
    forall x,
      match_winner w mid = Some x ->
      match_winner (fst (step part_000 e w)) mid = Some x.
Proof.
  intros Hok Hcalm.
  assert (Hquiet :
            (forall mid,
                obj_get mid (matches (fst (step part_000 e w))) =
                obj_get mid (matches w)) ->
            (forall tk,
                (pending tk (timers (fst (step part_000 e w)))
                 <= pending tk (timers w))%nat) ->
            chains_ok (fst (step part_000 e w)) /\
            forall mid,
              phase_le (match_state w mid)
                (match_state (fst (step part_000 e w)) mid) /\
              forall x,
                match_winner w mid = Some x ->
                match_winner (fst (step part_000 e w)) mid = Some x).
  { intros Hsame Hle. split.
    - intros mid. unfold chain_ok. rewrite Hsame.
      eapply chain_at_le; [apply (Hok mid)|apply Hle|apply Hle].
    - intros mid. unfold match_state, match_winner. rewrite Hsame.
      split; [apply phase_le_refl|tauto]. }
  assert (Hdep : forall lid wal,
             e = ev_deposit_made lid wal ->
             completes_lobby lid wal w = true ->
             phase_le (match_state w lid) (Some waiting)).
  { intros lid wal -> Hc. simpl in Hcalm. rewrite Hc in Hcalm. simpl in Hcalm.
    destruct (match_state w lid) as [[]|]; simpl; try discriminate; lia. }
  destruct (match e with
            | ev_deposit_made lid wal => completes_lobby lid wal w
            | _ => true
            end) eqn:Hcomp.
  2:{ destruct e; try discriminate.
      destruct (deposit_made_incomplete _ _ _ Hcomp) as [H1 H2].
      apply Hquiet; simpl.
      - intros mid. now rewrite H1.
      - intros tk. rewrite H2. lia. }
  destruct (step_effect part_000 e w)
    as [[Hsame Hts]|(k & m' & armed & Hch & Hlook & Hts)].
  - apply Hquiet; [exact Hsame|].
    intros tk. rewrite Hts. pose proof (pending_timers_left e w tk). lia.
  - assert (Hk : chain_at (Some m')
                   (pending (countdown_timeout k) (timers_left e w ++ armed))
                   (pending (game_timeout k) (timers_left e w ++ armed)) /\
                 phase_le (option_map state (obj_get k (matches w)))
                   (Some (state m')) /\
                 (forall x,
                     stored_winner (obj_get k (matches w)) = Some x ->
                     winner m' = Some x)).
    { apply (chain_change k part_000 e _ _ _ _ (timers w) _ Hch eq_refl).
      - apply (Hok k).
      - intros tk. apply pending_timers_left.
      - intros wal He. apply (Hdep k wal He). now rewrite He in Hcomp. }
    destruct Hk as (Hk1 & Hk2 & Hk3).
    split.
    + intros mid. unfold chain_ok. rewrite Hlook, Hts.
      destruct (String.eqb_spec mid k) as [->|Hne]; [exact Hk1|].
      destruct (match_change_armed_other _ _ _ _ _ _ _ mid Hch Hne)
        as [Ha Hb].
      eapply chain_at_le; [apply (Hok mid)| |]; rewrite pending_app.
      * rewrite Ha. pose proof (pending_timers_left e w (countdown_timeout mid)).
        lia.
      * rewrite Hb. pose proof (pending_timers_left e w (game_timeout mid)).
        lia.
    + intros mid. unfold match_state, match_winner. rewrite Hlook.
      destruct (String.eqb_spec mid k) as [->|Hne].
      * split; [exact Hk2|exact Hk3].
      * split; [apply phase_le_refl|tauto].
Qed.

Lemma phase_step_refl o : phase_step o o.
Proof. destruct o as [s|]; simpl; [now left|exact I]. Qed.

(** With the timers in agreement with the phase, a change that restarts
    nothing moves the match by one phase at most. *)
Lemma phase_change_next k v e fired prev m' armed ts tl :
  match_change k v e fired prev m' armed ->
  v = part_000 ->
  chain_at prev (pending (countdown_timeout k) ts) (pending (game_timeout k) ts) ->
  (forall tk, pending tk ts = (pending tk tl + fired_count fired tk)%nat) ->
  (forall wal, e = ev_deposit_made k wal ->
               phase_le (option_map state prev) (Some waiting)) ->
  phase_step (option_map state prev) (Some (state m')).
Proof.
  intros Hch Hv Hat Hcnt Hcalm.
  pose proof (Hcnt (countdown_timeout k)) as Hcd.
  pose proof (Hcnt (game_timeout k)) as Hgm.
  clear Hcnt.
  destruct Hch; try discriminate Hv; unfold chain_at in *; simpl in Hat |- *.
  - (* tap *)
    now left.
  - (* the countdown ends *)
    chain_counts. destruct (state m); simpl; intuition (try lia; congruence).
  - (* the game ends, no winner *)
    chain_counts. destruct (state m); simpl; intuition (try lia; congruence).
  - (* the game ends *)
    chain_counts. destruct (state m); simpl; intuition (try lia; congruence).
  - (* join_match *)
    subst start m1 m0.
    destruct prev as [m|]; simpl.
    + set (m1 := match obj_get wallet0 (players m) with
                 | Some _ => m
                 | None =>
                     with_players
                       (obj_set wallet0 (mkPlayer wallet0 0 0) (players m)) m
                 end) in *.
      assert (Hst : state m1 = state m)
        by (subst m1; now destruct (obj_get wallet0 (players m))).
      destruct ((2 <=? _) && _) eqn:Hg; simpl.
      * apply andb_prop in Hg as [_ Hg]. apply state_eqb_eq in Hg.
        rewrite Hst in Hg. rewrite Hg. now right.
      * left. exact Hst.
    + now rewrite key_count_singleton.
  - (* the settle delay ends *)
    rewrite H. now right.
  - (* deposit_made *)
    subst m0. specialize (Hcalm wallet0 eq_refl).
    destruct prev as [m|]; simpl in *; [|reflexivity].
    destruct (state m); simpl in *; try lia. now left.
Qed.

(** A step that restarts no match moves every match by one phase at
    most. *)
Lemma chain_step_next e w :
  chains_ok w ->
  restarts e w = false ->
  forall mid,
    phase_step (match_state w mid) (match_state (fst (step part_000 e w)) mid).
Proof.
  intros Hok Hcalm mid.
  assert (Hquiet :
            (forall k,
                obj_get k (matches (fst (step part_000 e w))) =
                obj_get k (matches w)) ->
            phase_step (match_state w mid)
              (match_state (fst (step part_000 e w)) mid)).
  { intros Hsame. unfold match_state. rewrite Hsame. apply phase_step_refl. }
  assert (Hdep : forall lid wal,
             e = ev_deposit_made lid wal ->
             completes_lobby lid wal w = true ->
             phase_le (match_state w lid) (Some waiting)).
  { intros lid wal -> Hc. simpl in Hcalm. rewrite Hc in Hcalm. simpl in Hcalm.
    destruct (match_state w lid) as [[]|]; simpl; try discriminate; lia. }
  destruct (match e with
            | ev_deposit_made lid wal => completes_lobby lid wal w
            | _ => true
            end) eqn:Hcomp.
  2:{ destruct e; try discriminate.
      destruct (deposit_made_incomplete _ _ _ Hcomp) as [H1 _].
      apply Hquiet. intros k. simpl. now rewrite H1. }
  destruct (step_effect part_000 e w)
    as [[Hsame _]|(k & m' & armed & Hch & Hlook & _)];
    [now apply Hquiet|].
  unfold match_state. rewrite Hlook.
  destruct (String.eqb_spec mid k) as [->|Hne]; [|apply phase_step_refl].
  apply (phase_change_next k part_000 e _ _ _ _ (timers w) (timers_left e w)
           Hch eq_refl).
  - apply (Hok k).
  - intros tk. apply pending_timers_left.
  - intros wal He. apply (Hdep k wal He). now rewrite He in Hcomp.
Qed.

Lemma run_app_fst v evs1 evs2 : forall w,
  fst (run v (evs1 ++ evs2) w) = fst (run v evs2 (fst (run v evs1 w))).
Proof.
  induction evs1 as [|e evs1 IH]; intros w; [reflexivity|].
  rewrite <- app_comm_cons, !run_cons_fst. apply IH.
Qed.

Lemma calm_app evs1 evs2 : forall w,
  calm (evs1 ++ evs2) w =
  calm evs1 w && calm evs2 (fst (run part_000 evs1 w)).
Proof.
  induction evs1 as [|e evs1 IH]; intros w; [reflexivity|].
  rewrite <- app_comm_cons, run_cons_fst. simpl calm.
  now rewrite IH, andb_assoc.
Qed.

Lemma calm_run evs : forall w,
  chains_ok w ->
  calm evs w = true ->
  chains_ok (fst (run part_000 evs w)) /\
  forall mid,
    phase_le (match_state w mid) (match_state (fst (run part_000 evs w)) mid) /\
    forall x,
      match_winner w mid = Some x ->
      match_winner (fst (run part_000 evs w)) mid = Some x.
Proof.
  induction evs as [|e evs IH]; intros w Hok Hcalm.
  - split; [exact Hok|]. intros mid. split; [apply phase_le_refl|tauto].
  - simpl in Hcalm. apply andb_prop in Hcalm as [He Hcalm].
    apply negb_true_iff in He.
    destruct (chain_step e w Hok He) as [Hok1 H1].
    destruct (IH _ Hok1 Hcalm) as [Hok2 H2].
    rewrite run_cons_fst. split; [exact Hok2|].
    intros mid. destruct (H1 mid) as [Ha Hb], (H2 mid) as [Hc Hd].
    split; [exact (phase_le_trans _ _ _ Ha Hc)|].
    intros x Hx. apply Hd, Hb, Hx.
Qed.

Lemma chains_ok_init : chains_ok init.
Proof. intros mid. now split. Qed.

(** X6.  In a run of plain events of the later generation in which no
    [deposit_made] completes a lobby whose match has already left
    [waiting], no match ever moves to an earlier phase, and every single
    step leaves a match in its phase or moves it to the next one of
    [waiting], [countdown], [active], [finished], a new match starting in
    [waiting]; a stored winner is never changed, and a winner is stored
    only on a match that is [finished]. *)
Theorem part_000_calm_runs_are_monotone
  (evs1 evs2 : list Event) (matchId : string) :
  plain_run (evs1 ++ evs2) = true ->
  calm (evs1 ++ evs2) init = true ->
  phase_le
    (match_state (fst (run part_000 evs1 init)) matchId)
    (match_state (fst (run part_000 (evs1 ++ evs2) init)) matchId) /\
  (forall e evs3,
      evs2 = e :: evs3 ->
      phase_step
        (match_state (fst (run part_000 evs1 init)) matchId)
        (match_state (fst (run part_000 (evs1 ++ [e]) init)) matchId)) /\
  (forall x,
      match_winner (fst (run part_000 evs1 init)) matchId = Some x ->
      match_winner (fst (run part_000 (evs1 ++ evs2) init)) matchId = Some x) /\
  (match_winner (fst (run part_000 (evs1 ++ evs2) init)) matchId <> None ->
   match_state (fst (run part_000 (evs1 ++ evs2) init)) matchId
   = Some finished).
Proof.
  intros _.
  rewrite calm_app. intros Hcalm. apply andb_prop in Hcalm as [Hc1 Hc2].
  destruct (calm_run evs1 init chains_ok_init Hc1) as [Hok1 _].
  destruct (calm_run evs2 _ Hok1 Hc2) as [Hok2 H2].
  rewrite run_app_fst. destruct (H2 matchId) as [Ha Hb].
  split; [exact Ha|]. split.
  { intros e evs3 ->. simpl in Hc2. apply andb_prop in Hc2 as [He _].
    apply negb_true_iff in He.
    rewrite run_app_fst, run_cons_fst.
    now apply chain_step_next. }
  split; [exact Hb|].
  specialize (Hok2 matchId). unfold chain_ok, chain_at in Hok2.
  unfold match_winner, match_state.
  destruct (obj_get matchId (matches (fst (run part_000 evs2 _)))) as [m|];
    [|congruence].
  simpl. destruct (state m); intuition congruence.
Qed.

Lemma part_000_calm_runs_are_monotone_witness :
  phase_le
    (match_state (fst (run part_000 (firstn 5 played_twice) init)) "L")
    (match_state
       (fst (run part_000
               (firstn 5 played_twice ++ firstn 3 (skipn 5 played_twice))
               init)) "L") /\
  (forall e evs3,
      firstn 3 (skipn 5 played_twice) = e :: evs3 ->
      phase_step
        (match_state (fst (run part_000 (firstn 5 played_twice) init)) "L")
        (match_state
           (fst (run part_000 (firstn 5 played_twice ++ [e]) init)) "L")) /\
  (forall x,
      match_winner (fst (run part_000 (firstn 5 played_twice) init)) "L"
      = Some x ->
      match_winner
        (fst (run part_000
                (firstn 5 played_twice ++ firstn 3 (skipn 5 played_twice))
                init)) "L" = Some x) /\
  (match_winner
     (fst (run part_000
             (firstn 5 played_twice ++ firstn 3 (skipn 5 played_twice))
             init)) "L" <> None ->
   match_state
     (fst (run part_000
             (firstn 5 played_twice ++ firstn 3 (skipn 5 played_twice))
             init)) "L" = Some finished).
Proof.
  apply (part_000_calm_runs_are_monotone
           (firstn 5 played_twice) (firstn 3 (skipn 5 played_twice)) "L");
    reflexivity.
Defined.

(** The runs on which the later generation moves a match back are not
    calm: each has a [deposit_made] that restarts a started match. *)
Example restarting_runs_are_not_calm :
  calm deposit_again init = false /\ calm played_twice init = false /\
  calm (firstn 8 played_twice) init = true.
Proof. repeat split. Qed.

(** ** Sessions *)

Lemma step_lobby_write v e w :
  lobbies (fst (step v e w)) = lobbies w \/
  exists lobbyId l',
    lobby_write lobbyId e (obj_get lobbyId (lobbies w)) l' /\
    lobbies (fst (step v e w)) = obj_set lobbyId l' (lobbies w).
Proof.
  assert (Hdep : forall lid wal w',
             (w' = fst (ServerTs.deposit_made lid wal w) \/
              w' = fst (Part000.deposit_made lid wal w)) ->
             lobbies w' = lobbies w \/
             exists l',
               lobby_write lid (ev_deposit_made lid wal)
                 (obj_get lid (lobbies w)) l' /\
               lobbies w' = obj_set lid l' (lobbies w)).
  { intros lid wal w' Hw'.
    unfold ServerTs.deposit_made, Part000.deposit_made in Hw'.
    destruct (obj_get lid (lobbies w)) as [lobby|] eqn:Hl;
      [|left; destruct Hw' as [-> | ->]; reflexivity].
    destruct (obj_get wal (lobby_players lobby)) as [lp|] eqn:Hp;
      [|left; destruct Hw' as [-> | ->]; reflexivity].
    right. eexists. split; [apply (lw_deposit lid wal lobby lp Hp)|].
    cbv zeta in *. unfold both_deposited.
    destruct Hw' as [-> | ->]; simpl deposits; now destruct (_ && _). }
  destruct e as [sid lid wal r|lid wal|sid mid wal|mid wal|sid|n].
  - right. exists lid. eexists. split; [apply (lw_join lid sid wal r)|].
    now destruct v.
  - destruct (Hdep lid wal (fst (step v (ev_deposit_made lid wal) w)))
      as [H|(l' & H1 & H2)].
    + destruct v; [now left|now right].
    + now left.
    + right. now exists lid, l'.
  - left. destruct v; [apply ServerTs_join_match_lobbies
                      |apply Part000_join_match_lobbies].
  - left. destruct v; apply tap_lobbies.
  - left. now destruct v.
  - left. destruct v; apply timeout_lobbies;
      auto using ServerTs_run_task_lobbies, Part000_run_task_lobbies.
Qed.







(** ** Nothing is removed *)

(** The roster [deposit_made] builds: a fresh entry for every wallet of a
    lobby member, the old entry for every other wallet. *)
Lemma copy_roster_get members : forall ps k,
  obj_get k (copy_roster members ps) =
  if existsb (fun lp => String.eqb k (lp_wallet lp)) members
  then Some (mkPlayer k 0 0)
  else obj_get k ps.
Proof.
  induction members as [|lp members IH]; intros ps k; [reflexivity|].
  simpl. rewrite IH, obj_get_set.
  destruct (String.eqb_spec k (lp_wallet lp)) as [->|Hne]; simpl;
    now destruct (existsb _ members).
Qed.

Lemma persists_refl w : persists w w.
Proof. split; intros k x H; exists x; now split. Qed.

Lemma persists_trans w1 w2 w3 :
  persists w1 w2 -> persists w2 w3 -> persists w1 w3.
Proof.
  intros [L1 M1] [L2 M2]. split.
  - intros k l H. destruct (L1 k l H) as (l' & H' & Hk).
    destruct (L2 k l' H') as (l'' & H'' & Hk').
    exists l''. split; [exact H''|]. intros wal Hw. apply Hk', Hk, Hw.
  - intros k m H. destruct (M1 k m H) as (m' & H' & Hk).
    destruct (M2 k m' H') as (m'' & H'' & Hk').
    exists m''. split; [exact H''|]. intros wal Hw. apply Hk', Hk, Hw.
Qed.

Lemma obj_set_keeps {A} k (v : A) o k' :
  obj_get k' o <> None -> obj_get k' (obj_set k v o) <> None.
Proof.
  rewrite obj_get_set. now destruct (String.eqb k' k).
Qed.

Lemma lobby_write_keeps lobbyId e l l' wallet :
  lobby_write lobbyId e (Some l) l' ->
  obj_get wallet (lobby_players l) <> None ->
  obj_get wallet (lobby_players l') <> None.
Proof.
  intros Hw. inversion Hw; subst; cbv zeta; intros Hk.
  - now apply obj_set_keeps.
  - destruct (both_deposited _); simpl; now apply obj_set_keeps.
Qed.

Lemma match_change_keeps k v e fired m m' armed wal :
  match_change k v e fired (Some m) m' armed ->
  obj_get wal (players m) <> None ->
  obj_get wal (players m') <> None.
Proof.
  intros Hch Hk. remember (Some m) as prev eqn:Hprev.
  destruct Hch; try subst start m1 m0; try injection Hprev as ->;
    try subst prev; simpl in *; try assumption.
  - now apply obj_set_keeps.
  - destruct (_ =? 2); simpl; now apply obj_set_keeps.
  - destruct (obj_get wallet0 (players m)); destruct ((2 <=? _) && _);
      simpl; try assumption; now apply obj_set_keeps.
  - rewrite copy_roster_get. now destruct (existsb _ members).
Qed.

Lemma step_persists v e w : persists w (fst (step v e w)).
Proof.
  split.
  - intros k l Hl.
    destruct (step_lobby_write v e w) as [->|(lid & l' & Hw & ->)].
    + exists l. now split.
    + rewrite obj_get_set. destruct (String.eqb_spec k lid) as [->|Hne].
      * exists l'. split; [reflexivity|]. intros wal.
        rewrite Hl in Hw. now apply (lobby_write_keeps lid e).
      * exists l. now split.
  - intros k m Hm.
    destruct (step_effect v e w) as [[H _]|(k' & m' & armed & Hch & H & _)];
      rewrite H.
    + exists m. now split.
    + destruct (String.eqb_spec k k') as [->|Hne].
      * exists m'. split; [reflexivity|]. intros wal.
        rewrite Hm in Hch. now apply (match_change_keeps _ _ _ _ _ _ _ wal Hch).
      * exists m. now split.
Qed.

(** X8.  Nothing is ever removed: whatever the events, in both
    generations, a lobby that exists keeps existing with all its members,
    and a match that exists keeps existing with all its players. *)
Theorem run_persists (v : Variant) (evs : list Event) (w : World) :
  persists w (fst (run v evs w)).
Proof.
  revert w. induction evs as [|e evs IH]; intros w; [apply persists_refl|].
  rewrite run_cons_fst.
  eapply persists_trans; [apply step_persists|apply IH].
Qed.

Lemma on_roster_run v evs matchId wallet : forall w,
  on_roster w matchId wallet = true ->
  on_roster (fst (run v evs w)) matchId wallet = true.
Proof.
  induction evs as [|e evs IH]; intros w Hw; [exact Hw|].
  rewrite run_cons_fst. apply IH.
  destruct (step_persists v e w) as [_ HM]. unfold on_roster in *.
  destruct (obj_get matchId (matches w)) as [m|] eqn:Hm; [|discriminate].
  destruct (HM matchId m Hm) as (m' & -> & Hk).
  specialize (Hk wallet).
  destruct (obj_get wallet (players m)); [|discriminate].
  destruct (obj_get wallet (players m')); [reflexivity|].
  now exfalso; apply Hk.
Qed.

(** ** Well-formed registries *)

Lemma obj_get_nonempty {A} k (v : A) o : obj_get k o = Some v -> o <> [].
Proof. now destruct o. Qed.

Lemma obj_set_nonempty {A} k (v : A) o : obj_set k v o <> [].
Proof. apply (obj_get_nonempty k v), obj_get_set_same. Qed.

Lemma flag_of_set_deposit r r' d :
  flag_of r' d = true \/ r' = r -> flag_of r' (set_deposit r d) = true.
Proof. destruct r, r', d; simpl; intros [H|H]; congruence. Qed.

Lemma lobby_write_wf lobbyId e prev l' :
  lobby_write lobbyId e prev l' ->
  (forall l, prev = Some l -> lobby_wf lobbyId l) ->
  lobby_wf lobbyId l'.
Proof.
  intros Hw Hprev. destruct Hw as [sid wal r prev|wal l lp Hlp].
  - assert (H0 : lobby_wf lobbyId l0).
    { subst l0. destruct prev as [l|]; [now apply Hprev|].
      split; [reflexivity|]. intros k lp H. discriminate. }
    destruct H0 as [Hid Hps]. split; [exact Hid|].
    intros k lp. simpl. rewrite obj_get_set.
    destruct (String.eqb_spec k wal) as [->|Hne].
    + intros [= <-]. simpl. split; [reflexivity|discriminate].
    + apply Hps.
  - destruct (Hprev l eq_refl) as [Hid Hps].
    assert (H2 : lobby_wf lobbyId l2).
    { split; [exact Hid|]. intros k lp'. subst l2 l1. simpl.
      rewrite obj_get_set. destruct (String.eqb_spec k wal) as [->|Hne].
      - intros [= <-]. simpl. destruct (Hps wal lp Hlp) as [Hw _].
        split; [exact Hw|]. intros _. apply flag_of_set_deposit. now right.
      - intros Hk. destruct (Hps k lp' Hk) as [Hw Hd].
        split; [exact Hw|]. intros Hdep. apply flag_of_set_deposit.
        left. now apply Hd. }
    now destruct (both_deposited l2).
Qed.

(** Everything of [match_wf] but the roster being non-empty. *)
Lemma match_change_fields k v e fired prev m' armed :
  match_change k v e fired prev m' armed ->
  (forall m, prev = Some m -> match_wf v k m) ->
  id m' = k /\
  countdownTime m' = 3 /\
  gameTime m' = default_gameTime v /\
  forall wal p,
    obj_get wal (players m') = Some p ->
    wallet p = wal /\ score p = 0 /\ 0 <= taps p.
Proof.
  intros Hch Hprev.
  assert (Hfresh : forall g,
             g = default_gameTime v ->
             id (or_fresh prev k g) = k /\
             countdownTime (or_fresh prev k g) = 3 /\
             gameTime (or_fresh prev k g) = default_gameTime v /\
             forall wal p,
               obj_get wal (players (or_fresh prev k g)) = Some p ->
               wallet p = wal /\ score p = 0 /\ 0 <= taps p).
  { intros g Hg. destruct prev as [m|]; simpl.
    - destruct (Hprev m eq_refl) as (H1 & H2 & H3 & _ & H5). now fields.
    - fields; try reflexivity. discriminate. }
  assert (Hadd : forall wal (ps : Obj Player),
             (forall k' p,
                 obj_get k' ps = Some p ->
                 wallet p = k' /\ score p = 0 /\ 0 <= taps p) ->
             forall k' p,
               obj_get k' (obj_set wal (mkPlayer wal 0 0) ps) = Some p ->
               wallet p = k' /\ score p = 0 /\ 0 <= taps p).
  { intros wal ps H0 k' p. rewrite obj_get_set.
    destruct (String.eqb_spec k' wal) as [->|Hne]; [|apply H0].
    intros [= <-]. simpl. repeat split. lia. }
  destruct Hch.
  - destruct (Hprev m eq_refl) as (H1 & H2 & H3 & _ & H5). fields.
    intros wal q. simpl. rewrite obj_get_set.
    destruct (String.eqb_spec wal wallet0) as [->|Hne]; [|apply H5].
    intros [= <-]. simpl. destruct (H5 _ _ H0) as (? & ? & ?).
    repeat split; try assumption. lia.
  - destruct (Hprev m eq_refl) as (H1 & H2 & H3 & _ & H5). now fields.
  - destruct (Hprev m eq_refl) as (H1 & H2 & H3 & _ & H5). now fields.
  - destruct (Hprev m eq_refl) as (H1 & H2 & H3 & _ & H5). now fields.
  - destruct (Hfresh 10 eq_refl) as (H1 & H2 & H3 & H5).
    fold m0 in H1, H2, H3, H5.
    assert (H : id m1 = k /\ countdownTime m1 = 3 /\
                gameTime m1 = default_gameTime server_ts /\
                forall wal p,
                  obj_get wal (players m1) = Some p ->
                  wallet p = wal /\ score p = 0 /\ 0 <= taps p).
    { subst m1. simpl. fields. now apply Hadd. }
    now destruct start.
  - destruct (Hfresh 30 eq_refl) as (H1 & H2 & H3 & H5).
    fold m0 in H1, H2, H3, H5.
    assert (H : id m1 = k /\ countdownTime m1 = 3 /\
                gameTime m1 = default_gameTime part_000 /\
                forall wal p,
                  obj_get wal (players m1) = Some p ->
                  wallet p = wal /\ score p = 0 /\ 0 <= taps p).
    { subst m1. destruct (obj_get wallet0 (players m0)); simpl; fields.
      now apply Hadd. }
    now destruct start.
  - destruct (Hprev m eq_refl) as (H1 & H2 & H3 & _ & H5). now fields.
  - destruct (Hfresh 30 eq_refl) as (H1 & H2 & H3 & H5).
    fold m0 in H1, H2, H3, H5. fields.
    intros wal p. simpl. rewrite copy_roster_get.
    destruct (existsb _ members); [|apply H5].
    intros [= <-]. simpl. repeat split. lia.
Qed.

Lemma match_change_nonempty k v e fired prev m' armed :
  match_change k v e fired prev m' armed ->
  (forall m, prev = Some m -> players m <> []) ->
  (forall wal, v = part_000 -> e = ev_deposit_made k wal -> players m' <> []) ->
  players m' <> [].
Proof.
  intros Hch Hprev Hdep. destruct Hch; simpl; try (now apply Hprev).
  - apply obj_set_nonempty.
  - subst m1. destruct start; simpl; apply obj_set_nonempty.
  - assert (H : players m1 <> []).
    { subst m1. destruct (obj_get wallet0 (players m0)) eqn:Hg; simpl.
      - now apply (obj_get_nonempty wallet0 p).
      - apply obj_set_nonempty. }
    now destruct start.
  - now apply (Hdep wallet0).
Qed.

(** A completing [deposit_made] copies at least the depositor. *)
Lemma deposit_made_roster_nonempty lobbyId wallet w m' :
  obj_get lobbyId (matches (fst (Part000.deposit_made lobbyId wallet w)))
  = Some m' ->
  (forall m, obj_get lobbyId (matches w) = Some m -> players m <> []) ->
  players m' <> [].
Proof.
  unfold Part000.deposit_made.
  destruct (obj_get lobbyId (lobbies w)) as [lobby|]; [|intros H H0; eauto].
  destruct (obj_get wallet (lobby_players lobby)) as [lp|];
    [|intros H H0; eauto].
  cbv zeta. destruct (_ && _); [|intros H H0; eauto].
  simpl. rewrite obj_get_set_same. intros [= <-] _. simpl.
  fold (copy_roster
          (obj_values
             (obj_set wallet (with_deposited true lp) (lobby_players lobby)))
          (players
             match obj_get lobbyId (matches w) with
             | Some m => m
             | None => mkMatch lobbyId [] waiting 3 30 None
             end)).
  apply (obj_get_nonempty (lp_wallet lp) (mkPlayer (lp_wallet lp) 0 0)).
  rewrite copy_roster_get.
  replace (existsb _ _) with true; [reflexivity|].
  symmetry. apply existsb_exists. exists (with_deposited true lp).
  split; [|apply String.eqb_refl].
  change (with_deposited true lp) with (snd (wallet, with_deposited true lp)).
  apply in_map, obj_get_In, obj_get_set_same.
Qed.

Lemma step_registries_wf v e w :
  registries_wf v w -> registries_wf v (fst (step v e w)).
Proof.
  intros [HL HM]. split.
  - intros k l Hl.
    destruct (step_lobby_write v e w) as [Heq|(lid & l' & Hw & Heq)];
      rewrite Heq in Hl; [now apply HL|].
    rewrite obj_get_set in Hl.
    destruct (String.eqb_spec k lid) as [->|Hne]; [|now apply HL].
    injection Hl as <-. apply (lobby_write_wf lid e _ _ Hw).
    intros l0. apply HL.
  - intros k m Hm. pose proof Hm as Hm0.
    destruct (step_effect v e w) as [[H _]|(k' & m' & armed & Hch & H & _)];
      rewrite H in Hm; [now apply HM|].
    destruct (String.eqb_spec k k') as [->|Hne]; [|now apply HM].
    injection Hm as <-.
    destruct (match_change_fields _ _ _ _ _ _ _ Hch) as (H1 & H2 & H3 & H5).
    { intros m0. apply HM. }
    split; [exact H1|]. split; [exact H2|]. split; [exact H3|].
    split; [|exact H5].
    apply (match_change_nonempty _ _ _ _ _ _ _ Hch).
    + intros m0 H0. now destruct (HM k' m0 H0) as (_ & _ & _ & Hne & _).
    + intros wal -> ->.
      apply (deposit_made_roster_nonempty k' wal w m' Hm0).
      intros m0 H0. now destruct (HM k' m0 H0) as (_ & _ & _ & Hne & _).
Qed.

Lemma run_registries_wf v evs : forall w,
  registries_wf v w -> registries_wf v (fst (run v evs w)).
Proof. apply run_invariant, step_registries_wf. Qed.

Lemma registries_wf_init v : registries_wf v init.
Proof. split; intros k x H; discriminate. Qed.

(** X9.  In every world reached from the empty registries by plain
    events, in both generations: every lobby is stored under its own id and
    every member under their own wallet, and a member marked as deposited
    has the flag of their role set; every match is stored under its own id
    with [countdownTime] 3 and the [gameTime] of its generation, has at
    least one player, and every player is stored under their own wallet
    with score 0 and taps that are not negative. *)
Theorem reachable_registries_wf (v : Variant) (evs : list Event) :
  plain_run evs = true ->
  registries_wf v (fst (run v evs init)).
Proof. intros _. apply run_registries_wf, registries_wf_init. Qed.

Lemma reachable_registries_wf_witness :
  registries_wf part_000 (fst (run part_000 played_twice init)).
Proof. apply (reachable_registries_wf part_000 played_twice). reflexivity. Defined.

(** ** Pending timers *)

Lemma In_remove_nth {A} (x : A) n : forall l, In x (remove_nth n l) -> In x l.
Proof.
  unfold remove_nth. induction n as [|n IH]; intros [|a l]; simpl; auto.
  intros [->|H]; [now left|right; now apply IH].
Qed.

Lemma timers_left_incl e w t : In t (timers_left e w) -> In t (timers w).
Proof.
  destruct e; simpl; auto.
  destruct (nth_error (timers w) n); [apply In_remove_nth|auto].
Qed.

Lemma match_change_armed_wf k v e fired prev m' armed :
  match_change k v e fired prev m' armed ->
  Forall
    (fun t =>
       delay t = kind_delay (task t) /\
       task_match (task t) = k /\
       (v = server_ts -> forall mid, task t <> settle_timeout mid))
    armed.
Proof.
  intros Hch. destruct Hch; try destruct start;
    repeat constructor; simpl; discriminate.
Qed.

Lemma step_timers_wf v e w : timers_wf v w -> timers_wf v (fst (step v e w)).
Proof.
  unfold timers_wf. rewrite !Forall_forall. intros Hwf t Hin.
  assert (Hold : forall t0,
             In t0 (timers_left e w) -> timer_wf v (fst (step v e w)) t0).
  { intros t0 H0. destruct (Hwf t0 (timers_left_incl e w t0 H0))
      as (Hd & Hm & Hs).
    split; [exact Hd|]. split; [|exact Hs].
    destruct (obj_get (task_match (task t0)) (matches w)) as [m|] eqn:Hg;
      [|easy].
    destruct (step_persists v e w) as [_ HM].
    destruct (HM _ m Hg) as (m' & -> & _). discriminate. }
  destruct (step_effect v e w)
    as [[_ Hts]|(k & m' & armed & Hch & Hlook & Hts)];
    rewrite Hts in Hin; [now apply Hold|].
  apply in_app_or in Hin as [Hin|Hin]; [now apply Hold|].
  pose proof (match_change_armed_wf _ _ _ _ _ _ _ Hch) as Harmed.
  rewrite Forall_forall in Harmed.
  destruct (Harmed t Hin) as (Hd & Hk & Hs).
  split; [exact Hd|]. split; [|exact Hs].
  rewrite Hk, Hlook, String.eqb_refl. discriminate.
Qed.

Lemma run_timers_wf v evs : forall w,
  timers_wf v w -> timers_wf v (fst (run v evs w)).
Proof. apply run_invariant, step_timers_wf. Qed.

(** X10.  In every world reached from the empty registries, in both
    generations, every pending timer has the delay of its kind (2000 ms to
    settle, 3000 ms of countdown, 30000 ms of game) and closes over the id
    of a match that exists, and src/server.ts has no settle timer
    pending. *)
Theorem reachable_timers_wf (v : Variant) (evs : list Event) :
  timers_wf v (fst (run v evs init)).
Proof. apply run_timers_wf. constructor. Qed.

Lemma run_sound v evs : sound v (fst (run v evs init)).
Proof.
  split; [apply run_registries_wf, registries_wf_init|].
  split; [apply run_timers_wf; constructor|apply run_matches_ok].
Qed.

(** In a sound world every timer callback finds its match, and the game
    callback a roster to pick the winner from. *)
Lemma sound_callback v w n t :
  sound v w -> nth_error (timers w) n = Some t -> callback_runs v w n t.
Proof.
  intros ([_ HM] & Hwf & Hok) Hn.
  unfold timers_wf in Hwf. rewrite Forall_forall in Hwf.
  destruct (Hwf t (nth_error_In _ _ Hn)) as (_ & Hex & Hsettle).
  assert (Hstep :
            step v (ev_timeout n) w =
            match v with
            | server_ts => ServerTs.run_task (task t)
            | part_000 => Part000.run_task (task t)
            end (with_timers (remove_nth n (timers w)) w)).
  { destruct v; simpl; unfold timeout; now rewrite Hn. }
  unfold callback_runs. rewrite Hstep. clear Hstep.
  destruct (task t) as [mid|mid|mid]; simpl in Hex;
    destruct (obj_get mid (matches w)) as [m|] eqn:Hm; try easy.
  - destruct v; [now destruct (Hsettle eq_refl mid)|].
    split; [reflexivity|]. exists m. split; [reflexivity|].
    simpl. rewrite Hm. unfold Part000.startMatchCountdown.
    destruct (state_eqb (state m) waiting); simpl; [|easy].
    rewrite Hm. simpl. now rewrite obj_get_set_same.
  - exists m. split; [reflexivity|].
    destruct v; simpl; rewrite Hm; simpl; now rewrite obj_get_set_same.
  - destruct (HM mid m Hm) as (_ & _ & _ & Hne & _).
    assert (Hvals : obj_values (players m) <> []).
    { destruct (players m); [easy|discriminate]. }
    destruct (winner_of_max _ Hvals) as (p & Hin & Hwin & _).
    fold (scores_of m) in Hwin.
    assert (Hscores : scores_of (with_state finished m) = scores_of m)
      by reflexivity.
    exists m, (wallet p). split; [reflexivity|].
    destruct v; simpl; rewrite Hm, Hscores, Hwin; simpl;
      rewrite obj_get_set_same;
      rewrite (roster_values_get _ _ (Hok mid m Hm) Hin);
      repeat split; discriminate.
Qed.

(** X11.  In a world reached from the empty registries by plain events,
    in both generations, a timer that fires runs its callback in full.  A
    countdown timer puts its match to [active], broadcasts [game_start] and
    arms the game timer; a game timer puts its match to [finished] and
    broadcasts [game_end] with a winner who is on the roster (stored, too,
    in the later generation); a settle timer starts the countdown if its
    match is still [waiting] and does nothing otherwise.  No callback meets
    a missing match or an empty roster. *)
Theorem pending_timer_runs
  (v : Variant) (evs : list Event) (n : nat) (t : Timer) :
  plain_run evs = true ->
  nth_error (timers (fst (run v evs init))) n = Some t ->
  callback_runs v (fst (run v evs init)) n t.
Proof. intros _. apply sound_callback, run_sound. Qed.

Lemma pending_timer_runs_witness :
  callback_runs part_000 (fst (run part_000 sample_game init)) 0
    (mkTimer 30000 (game_timeout "M")).
Proof.
  apply (pending_timer_runs part_000 sample_game 0); reflexivity.
Defined.

Lemma remove_nth_last {A} (l : list A) x :
  remove_nth (List.length l) (l ++ [x]) = l.
Proof.
  induction l as [|a l IH]; [reflexivity|].
  change (remove_nth (List.length (a :: l)) ((a :: l) ++ [x]))
    with (a :: remove_nth (List.length l) (l ++ [x])).
  now rewrite IH.
Qed.

Lemma remove_nth_length {A} n : forall (l : list A) x,
  nth_error l n = Some x ->
  List.length (remove_nth n l) = (List.length l - 1)%nat.
Proof.
  unfold remove_nth.
  induction n as [|n IH]; intros [|a l] x H; simpl in *; try discriminate.
  - lia.
  - rewrite (IH l x H). destruct l; [now destruct n|simpl; lia].
Qed.

Lemma nth_error_last {A} (l : list A) x :
  nth_error (l ++ [x]) (List.length l) = Some x.
Proof. rewrite nth_error_app2, Nat.sub_diag; [reflexivity|lia]. Qed.

(** X12.  In a world reached from the empty registries by plain events,
    in both generations, a pending countdown timer and the game timer it
    arms end the match: when the countdown timer fires and then the last
    pending timer, the broadcasts are [game_start] and a [game_end] with
    the scores of the roster as it was and a winner from it, the match is
    [finished], and of the pending timers only the countdown timer is
    gone. *)
Theorem countdown_timer_ends_match
  (v : Variant) (evs : list Event) (n : nat) (t : Timer) (matchId : string) :
  plain_run evs = true ->
  nth_error (timers (fst (run v evs init))) n = Some t ->
  task t = countdown_timeout matchId ->
  let w := fst (run v evs init) in
  let last := (List.length (timers w) - 1)%nat in
  let r := run v [ev_timeout n; ev_timeout last] w in
  exists m champion,
    obj_get matchId (matches w) = Some m /\
    snd r = [emit matchId (game_start 30000);
             emit matchId (game_end (scores_of m) champion)] /\
    obj_get champion (players m) <> None /\
    match_state (fst r) matchId = Some finished /\
    option_map players (obj_get matchId (matches (fst r))) = Some (players m) /\
    timers (fst r) = remove_nth n (timers w).
Proof.
  intros _ Hn Ht w last r.
  pose proof (sound_callback v _ n t (run_sound v evs) Hn) as H1.
  unfold callback_runs in H1. rewrite Ht in H1. fold w in H1.
  destruct H1 as (m & Hm & Hout1 & Hm1 & Hts1).
  assert (Hw1 : fst (step v (ev_timeout n) w)
                = fst (run v (evs ++ [ev_timeout n]) init)).
  { rewrite run_app_fst. fold w. now rewrite run_cons_fst. }
  assert (Hlast : nth_error (timers (fst (step v (ev_timeout n) w))) last
                  = Some (mkTimer 30000 (game_timeout matchId))).
  { rewrite Hts1. subst last.
    rewrite <- (remove_nth_length n (timers w) t Hn). apply nth_error_last. }
  pose proof Hlast as H2. rewrite Hw1 in H2.
  apply (sound_callback v _ _ _ (run_sound v _)) in H2.
  unfold callback_runs in H2.
  rewrite <- Hw1 in H2. simpl task in H2.
  destruct H2 as (m1 & champion & Hm1' & Hout2 & Hch & Hm2 & Hts2).
  rewrite Hm1 in Hm1'. injection Hm1' as <-.
  exists m, champion. split; [exact Hm|].
  subst r. simpl run.
  destruct (step v (ev_timeout n) w) as [w1 out1] eqn:E1. simpl in *.
  destruct (step v (ev_timeout last) w1) as [w2 out2] eqn:E2. simpl in *.
  subst out1 out2. split; [reflexivity|]. split; [exact Hch|].
  unfold match_state. rewrite Hm2.
  split; [now destruct v|]. split; [now destruct v|].
  rewrite Hts2, Hts1. subst last.
  rewrite <- (remove_nth_length n (timers w) t Hn). apply remove_nth_last.
Qed.

Lemma countdown_timer_ends_match_witness :
  exists m champion,
    obj_get "M" (matches (fst (run part_000 (firstn 2 sample_game) init)))
    = Some m /\
    snd (run part_000 [ev_timeout 0; ev_timeout 0]
           (fst (run part_000 (firstn 2 sample_game) init))) =
    [emit "M" (game_start 30000);
     emit "M" (game_end (scores_of m) champion)] /\
    obj_get champion (players m) <> None /\
    match_state
      (fst (run part_000 [ev_timeout 0; ev_timeout 0]
              (fst (run part_000 (firstn 2 sample_game) init)))) "M"
    = Some finished /\
    option_map players
      (obj_get "M"
         (matches
            (fst (run part_000 [ev_timeout 0; ev_timeout 0]
                    (fst (run part_000 (firstn 2 sample_game) init))))))
    = Some (players m) /\
    timers
      (fst (run part_000 [ev_timeout 0; ev_timeout 0]
              (fst (run part_000 (firstn 2 sample_game) init)))) = [].
Proof.
  apply (countdown_timer_ends_match part_000 (firstn 2 sample_game) 0
           (mkTimer 3000 (countdown_timeout "M")) "M"); reflexivity.
Defined.

(** ** Deposits that complete a lobby *)

Lemma obj_replace_values_existsb {A} (f : A -> bool) k v v' : forall o,
  obj_get k o = Some v ->
  f v' = f v ->
  existsb f (obj_values (obj_replace k v' o)) = existsb f (obj_values o).
Proof.
  induction o as [|[k0 v0] o IH]; simpl; [discriminate|].
  destruct (String.eqb k k0); simpl.
  - intros [= ->] ->. reflexivity.
  - intros Hg Hf. now rewrite IH.
Qed.

Lemma is_member_after_deposit wallet l lp k :
  obj_get wallet (lobby_players l) = Some lp ->
  existsb (fun lp' => String.eqb k (lp_wallet lp'))
    (obj_values (obj_set wallet (with_deposited true lp) (lobby_players l)))
  = is_member k l.
Proof.
  intros Hlp. unfold is_member, obj_set. rewrite Hlp.
  now apply (obj_replace_values_existsb _ wallet lp).
Qed.

Lemma deposit_made_completes lobbyId wallet w :
  completes_lobby lobbyId wallet w = true ->
  exists lobby lp m',
    obj_get lobbyId (lobbies w) = Some lobby /\
    obj_get wallet (lobby_players lobby) = Some lp /\
    snd (Part000.deposit_made lobbyId wallet w) =
      [emit lobbyId (deposit_confirmed (role lp));
       emit lobbyId (match_ready (Some lobbyId))] /\
    option_map lobby_state
      (obj_get lobbyId (lobbies (fst (Part000.deposit_made lobbyId wallet w))))
    = Some ready /\
    obj_get lobbyId (matches (fst (Part000.deposit_made lobbyId wallet w)))
    = Some m' /\
    state m' = waiting /\
    winner m' = match_winner w lobbyId /\
    (forall k,
        obj_get k (players m') =
        if is_member k lobby then Some (mkPlayer k 0 0)
        else
          match obj_get lobbyId (matches w) with
          | Some m => obj_get k (players m)
          | None => None
          end) /\
    timers (fst (Part000.deposit_made lobbyId wallet w)) =
      timers w ++ [mkTimer 2000 (settle_timeout lobbyId)].
Proof.
  intros Hc. unfold completes_lobby in Hc.
  unfold Part000.deposit_made, match_winner.
  destruct (obj_get lobbyId (lobbies w)) as [lobby|]; [|discriminate].
  destruct (obj_get wallet (lobby_players lobby)) as [lp|] eqn:Hlp;
    [|discriminate].
  unfold both_deposited in Hc. simpl deposits in Hc.
  cbv zeta. simpl deposits. rewrite Hc. simpl.
  rewrite !obj_get_set_same.
  exists lobby, lp. eexists.
  split; [reflexivity|]. split; [exact Hlp|].
  do 4 (split; [reflexivity|]).
  split; [|split; [|reflexivity]].
  - simpl. now destruct (obj_get lobbyId (matches w)).
  - intros k. simpl.
    fold (copy_roster
            (obj_values
               (obj_set wallet (with_deposited true lp) (lobby_players lobby)))
            (players
               match obj_get lobbyId (matches w) with
               | Some m => m
               | None => mkMatch lobbyId [] waiting 3 30 None
               end)).
    rewrite copy_roster_get, (is_member_after_deposit _ _ _ _ Hlp).
    destruct (is_member k lobby); [reflexivity|].
    now destruct (obj_get lobbyId (matches w)).
Qed.

(** X13.  In the later generation, after a run of plain events, a
    [deposit_made] with plain keys that completes its lobby confirms the
    deposit, announces the match of the same id and leaves that match
    [waiting] with a fresh entry (no taps) for every member of the lobby,
    whatever that member had before; the entries of other players and the
    stored winner stay, and one settle timer of 2000 ms is armed.  A
    [deposit_made] that does not complete its lobby touches neither the
    matches nor the timers. *)
Theorem part_000_deposit_materialises_match
  (evs : list Event) (lobbyId wallet : string) :
  plain_run evs = true ->
  plain_event (ev_deposit_made lobbyId wallet) = true ->
  let w := fst (run part_000 evs init) in
  let w' := fst (step part_000 (ev_deposit_made lobbyId wallet) w) in
  let out := snd (step part_000 (ev_deposit_made lobbyId wallet) w) in
  if completes_lobby lobbyId wallet w then
    exists lobby lp m',
      obj_get lobbyId (lobbies w) = Some lobby /\
      obj_get wallet (lobby_players lobby) = Some lp /\
      out = [emit lobbyId (deposit_confirmed (role lp));
             emit lobbyId (match_ready (Some lobbyId))] /\
      option_map lobby_state (obj_get lobbyId (lobbies w')) = Some ready /\
      obj_get lobbyId (matches w') = Some m' /\
      state m' = waiting /\
      winner m' = match_winner w lobbyId /\
      (forall k,
          obj_get k (players m') =
          if is_member k lobby then Some (mkPlayer k 0 0)
          else
            match obj_get lobbyId (matches w) with
            | Some m => obj_get k (players m)
            | None => None
            end) /\
      timers w' = timers w ++ [mkTimer 2000 (settle_timeout lobbyId)]
  else matches w' = matches w /\ timers w' = timers w.
Proof.
  intros _ _. cbv zeta.
  destruct (completes_lobby lobbyId wallet (fst (run part_000 evs init)))
    eqn:Hc.
  - now apply deposit_made_completes.
  - now apply deposit_made_incomplete.
Qed.

Lemma part_000_deposit_materialises_match_witness :
  let w := fst (run part_000 (firstn 3 played_twice) init) in
  let w' := fst (step part_000 (ev_deposit_made "L" "B") w) in
  let out := snd (step part_000 (ev_deposit_made "L" "B") w) in
  exists lobby lp m',
    obj_get "L" (lobbies w) = Some lobby /\
    obj_get "B" (lobby_players lobby) = Some lp /\
    out = [emit "L" (deposit_confirmed (role lp));
           emit "L" (match_ready (Some "L"))] /\
    option_map lobby_state (obj_get "L" (lobbies w')) = Some ready /\
    obj_get "L" (matches w') = Some m' /\
    state m' = waiting /\
    winner m' = match_winner w "L" /\
    (forall k,
        obj_get k (players m') =
        if is_member k lobby then Some (mkPlayer k 0 0)
        else
          match obj_get "L" (matches w) with
          | Some m => obj_get k (players m)
          | None => None
          end) /\
    timers w' = timers w ++ [mkTimer 2000 (settle_timeout "L")].
Proof.
  exact (part_000_deposit_materialises_match (firstn 3 played_twice) "L" "B"
           eq_refl eq_refl).
Defined.

Lemma is_member_get k l lp :
  lobby_wf (lobby_id l) l ->
  obj_get k (lobby_players l) = Some lp -> is_member k l = true.
Proof.
  intros [_ Hwf] Hget. unfold is_member. apply existsb_exists.
  exists lp. split.
  - change lp with (snd (k, lp)). apply in_map, obj_get_In, Hget.
  - destruct (Hwf k lp Hget) as [-> _]. apply String.eqb_refl.
Qed.

Lemma step_ready_lobbies e w :
  registries_wf part_000 w ->
  lobbies_ok w ->
  ready_lobbies_have_matches w ->
  ready_lobbies_have_matches (fst (step part_000 e w)).
Proof.
  intros [HL _] Hok HJ lid l' Hl' Hready.
  destruct (step_persists part_000 e w) as [_ HM].
  assert (Hkeep : forall l,
             obj_get lid (lobbies w) = Some l ->
             lobby_state l = ready ->
             (forall wal lp,
                 obj_get wal (lobby_players l') = Some lp ->
                 deposited lp = true ->
                 exists lp0,
                   obj_get wal (lobby_players l) = Some lp0 /\
                   deposited lp0 = true) ->
             exists m,
               obj_get lid (matches (fst (step part_000 e w))) = Some m /\
               forall wal lp,
                 obj_get wal (lobby_players l') = Some lp ->
                 deposited lp = true ->
                 obj_get wal (players m) <> None).
  { intros l Hl Hr Hsub. destruct (HJ lid l Hl Hr) as (m & Hm & Hin).
    destruct (HM lid m Hm) as (m' & Hm' & Hk).
    exists m'. split; [exact Hm'|]. intros wal lp Hg Hd.
    destruct (Hsub wal lp Hg Hd) as (lp0 & Hg0 & Hd0).
    apply Hk. now apply (Hin wal lp0). }
  destruct (step_lobby_write part_000 e w) as [Heq|(k & l1 & Hw & Heq)];
    rewrite Heq in Hl'.
  { apply (Hkeep l' Hl' Hready). intros wal lp Hg Hd. now exists lp. }
  rewrite obj_get_set in Hl'.
  destruct (String.eqb_spec lid k) as [->|Hne].
  2:{ apply (Hkeep l' Hl' Hready). intros wal lp Hg Hd. now exists lp. }
  injection Hl' as ->.
  remember (obj_get k (lobbies w)) as prev eqn:Hprev.
  destruct Hw as [sid wal r prev|wal l lp Hlp].
  - destruct prev as [l|]; subst l0; simpl in Hready; [|discriminate].
    apply (Hkeep l eq_refl Hready).
    intros wal' lp' Hg Hd. simpl in Hg. rewrite obj_get_set in Hg.
    destruct (String.eqb_spec wal' wal) as [->|Hn].
    + injection Hg as <-. discriminate.
    + now exists lp'.
  - symmetry in Hprev.
    destruct (both_deposited l2) eqn:Hboth.
    + assert (Hc : completes_lobby k wal w = true).
      { unfold completes_lobby. rewrite Hprev, Hlp. exact Hboth. }
      destruct (deposit_made_completes k wal w Hc)
        as (lobby & lp0 & m' & Hl0 & _ & _ & _ & Hm' & _ & _ & Hroster & _).
      rewrite Hprev in Hl0. injection Hl0 as <-.
      exists m'. split; [exact Hm'|].
      intros wal' lp' Hg _. rewrite Hroster.
      replace (is_member wal' l) with true; [discriminate|].
      symmetry. subst l2 l1. simpl in Hg. rewrite obj_get_set in Hg.
      destruct (HL k l Hprev) as [Hid Hwf].
      destruct (String.eqb_spec wal' wal) as [->|Hn].
      * apply (is_member_get wal l lp); [now rewrite Hid|exact Hlp].
      * apply (is_member_get wal' l lp'); [now rewrite Hid|exact Hg].
    + exfalso. assert (Hl : lobby_state l = ready) by exact Hready.
      pose proof (Hok k l Hprev) as Hlok. unfold lobby_ok in Hlok.
      rewrite Hl in Hlok. subst l2 l1.
      unfold both_deposited in *. simpl in Hboth.
      destruct (deposits l) as [c o], (role lp); simpl in *;
        destruct c, o; simpl in *; congruence.
Qed.

Lemma run_ready_lobbies evs :
  registries_wf part_000 (fst (run part_000 evs init)) /\
  lobbies_ok (fst (run part_000 evs init)) /\
  ready_lobbies_have_matches (fst (run part_000 evs init)).
Proof.
  apply (run_invariant
           (fun w => registries_wf part_000 w /\ lobbies_ok w /\
                     ready_lobbies_have_matches w)).
  - intros e w (H1 & H2 & H3). split; [now apply step_registries_wf|].
    split; [now apply step_lobbies_ok|now apply step_ready_lobbies].
  - split; [apply registries_wf_init|].
    split; intros k l Hk; discriminate.
Qed.

(** X14.  In the later generation, in every world reached from the empty
    registries, a [ready] lobby has a match of the same id, and every
    member of the lobby whose deposit is confirmed is on the roster of that
    match. *)
Theorem part_000_ready_lobby_has_match (evs : list Event) :
  ready_lobbies_have_matches (fst (run part_000 evs init)).
Proof. apply run_ready_lobbies. Qed.

(** ** Ties *)

Lemma head_le_pick (l1 l2 : list Score) a l s :
  a :: l = l1 ++ s :: l2 ->
  (forall x, In x l1 -> score_value x <= score_value s) ->
  score_value a <= score_value s.
Proof.
  intros Heq Hle. destruct l1 as [|b l1]; simpl in Heq.
  - injection Heq as -> _. lia.
  - injection Heq as -> _. apply Hle. now left.
Qed.

(** [reduce] with [pick] returns the last of the entries that no entry
    beats. *)
Lemma fold_pick_last l : forall a,
  exists l1 s l2,
    a :: l = l1 ++ s :: l2 /\
    fold_left pick l a = s /\
    (forall x, In x l1 -> score_value x <= score_value s) /\
    (forall x, In x l2 -> score_value x < score_value s).
Proof.
  induction l as [|b l IH]; intros a.
  - exists [], a, []. simpl. repeat split; easy.
  - simpl. destruct (IH (pick a b)) as (l1 & s & l2 & Heq & Hf & H1 & H2).
    pose proof (head_le_pick _ _ _ _ _ Heq H1) as Hhd.
    unfold pick in *.
    destruct (Z.ltb_spec (score_value b) (score_value a)) as [Hlt|Hge].
    + destruct l1 as [|c l1]; simpl in Heq; injection Heq as Hc Hl.
      * exists [], a, (b :: l). subst s l2. simpl.
        repeat split; try easy.
        intros x [<-|Hx]; [exact Hlt|now apply H2].
      * subst c l. exists (a :: b :: l1), s, l2. simpl.
        repeat split; try easy.
        intros x [<-|[<-|Hx]]; [lia|lia|apply H1; now right].
    + exists (a :: l1), s, l2. simpl. rewrite Heq.
      repeat split; try easy.
      intros x [<-|Hx]; [lia|now apply H1].
Qed.

(** X15.  When the [game_end] timer of a match with at least one player
    fires, the winner that is broadcast is the last player, in the
    enumeration order of the roster, whose taps nobody exceeds: every
    player listed before the winner has at most the winner's taps, every
    player listed after has strictly fewer.  A tie therefore goes to the
    player listed last. *)
Theorem game_end_tie_goes_to_last
  (v : Variant) (w : World) (n : nat) (d : Z) (matchId : string) (m : Match) :
  nth_error (timers w) n = Some (mkTimer d (game_timeout matchId)) ->
  obj_get matchId (matches w) = Some m ->
  players m <> [] ->
  exists before p after,
    obj_values (players m) = before ++ p :: after /\
    (forall q, In q before -> taps q <= taps p) /\
    (forall q, In q after -> taps q < taps p) /\
    snd (step v (ev_timeout n) w) =
      [emit matchId (game_end (scores_of m) (wallet p))].
Proof.
  intros Hn Hm Hne.
  set (f := fun p => mkScore (wallet p) (taps p)).
  destruct (obj_values (players m)) as [|p0 ps] eqn:Hvals.
  { destruct (players m); [easy|discriminate]. }
  destruct (fold_pick_last (map f ps) (f p0))
    as (l1 & s & l2 & Heq & Hf & H1 & H2).
  change (f p0 :: map f ps) with (map f (p0 :: ps)) in Heq.
  apply map_eq_app in Heq as (before & rest & Hsplit & Hb & Hr).
  apply map_eq_cons in Hr as (p & after & -> & Hp & Ha).
  exists before, p, after. subst l1 l2 s.
  split; [exact Hsplit|]. split; [|split].
  - intros q Hq. apply (H1 (f q)). now apply in_map.
  - intros q Hq. apply (H2 (f q)). now apply in_map.
  - assert (Hwin : winner_of (scores_of m) = Some (wallet p)).
    { unfold winner_of, scores_of. fold f. rewrite Hvals. simpl.
      now rewrite Hf. }
    assert (Hscores : scores_of (with_state finished m) = scores_of m)
      by reflexivity.
    destruct v; simpl; unfold timeout; rewrite Hn; simpl; rewrite Hm;
      rewrite Hscores, Hwin; reflexivity.
Qed.

Lemma game_end_tie_goes_to_last_witness :
  let evs := [ev_join_match "s1" "M" "A"; ev_join_match "s2" "M" "B";
              ev_timeout 0; ev_tap "M" "A"; ev_tap "M" "B"] in
  let w := fst (run part_000 evs init) in
  exists before p after,
    [mkPlayer "A" 0 1; mkPlayer "B" 0 1] = before ++ p :: after /\
    (forall q, In q before -> taps q <= taps p) /\
    (forall q, In q after -> taps q < taps p) /\
    snd (step part_000 (ev_timeout 0) w) =
      [emit "M" (game_end [mkScore "A" 1; mkScore "B" 1] (wallet p))].
Proof.
  apply (game_end_tie_goes_to_last part_000
           (fst (run part_000
                   [ev_join_match "s1" "M" "A"; ev_join_match "s2" "M" "B";
                    ev_timeout 0; ev_tap "M" "A"; ev_tap "M" "B"] init))
           0 30000 "M"
           (mkMatch "M" [("A", mkPlayer "A" 0 1); ("B", mkPlayer "B" 0 1)]
              active 3 30 None)).
  - reflexivity.
  - reflexivity.
  - discriminate.
Defined.

(** ** Rooms *)

Lemma startMatchCountdown_keeps_rooms matchId w :
  rooms (fst (Part000.startMatchCountdown matchId w)) = rooms w.
Proof.
  unfold Part000.startMatchCountdown.
  now destruct (obj_get matchId (matches w)).
Qed.

Lemma run_task_keeps_rooms v tk w :
  rooms (fst (match v with
              | server_ts => ServerTs.run_task tk w
              | part_000 => Part000.run_task tk w
              end)) = rooms w.
Proof.
  destruct v, tk as [k|k|k]; simpl; try reflexivity;
    destruct (obj_get k (matches w)) as [m|]; try reflexivity;
    try (now destruct (winner_of _)).
  destruct (state_eqb (state m) waiting); [|reflexivity].
  apply startMatchCountdown_keeps_rooms.
Qed.

Lemma step_rooms v e w :
  rooms (fst (step v e w)) =
  match e with
  | ev_join_lobby sid room _ _ | ev_join_match sid room _ =>
      obj_set sid (set_add room (socket_rooms sid w)) (rooms w)
  | ev_disconnecting sid => obj_set sid [] (rooms w)
  | _ => rooms w
  end.
Proof.
  destruct e as [sid lid wal r|lid wal|sid mid wal|mid wal|sid|n].
  - now destruct v.
  - destruct v; simpl.
    + unfold ServerTs.deposit_made.
      destruct (obj_get lid (lobbies w)) as [l|]; [|reflexivity].
      destruct (obj_get wal (lobby_players l)); [|reflexivity].
      cbv zeta. now destruct (_ && _).
    + unfold Part000.deposit_made.
      destruct (obj_get lid (lobbies w)) as [l|]; [|reflexivity].
      destruct (obj_get wal (lobby_players l)); [|reflexivity].
      cbv zeta. now destruct (_ && _).
  - destruct v; simpl.
    + unfold ServerTs.join_match. cbv zeta. now destruct (_ =? 2).
    + unfold Part000.join_match. cbv zeta.
      destruct ((2 <=? _) && _); [|reflexivity].
      match goal with
      | |- context [Part000.startMatchCountdown mid ?a] =>
          pose proof (startMatchCountdown_keeps_rooms mid a) as Hs;
          destruct (Part000.startMatchCountdown mid a) as [w2 out2]
      end.
      exact Hs.
  - destruct v; simpl; unfold tap;
      destruct (obj_get mid (matches w)) as [m|]; try reflexivity;
      destruct (state m); try reflexivity;
      now destruct (obj_get wal (players m)).
  - now destruct v.
  - destruct v; simpl; unfold timeout;
      destruct (nth_error (timers w) n) as [t|]; try reflexivity.
    + exact (run_task_keeps_rooms server_ts (task t)
               (with_timers (remove_nth n (timers w)) w)).
    + exact (run_task_keeps_rooms part_000 (task t)
               (with_timers (remove_nth n (timers w)) w)).
Qed.

Lemma set_add_In r rs : In r (set_add r rs).
Proof.
  unfold set_add. destruct (in_dec string_dec r rs); [assumption|].
  apply in_or_app. right. now left.
Qed.

Lemma set_add_keeps r r' rs : In r rs -> In r (set_add r' rs).
Proof.
  unfold set_add. destruct (in_dec string_dec r' rs); [easy|].
  intros H. apply in_or_app. now left.
Qed.

(** A socket stays in a room as long as it does not disconnect. *)
Lemma step_keeps_room v e w sid r :
  leaves sid e = false ->
  In r (socket_rooms sid w) ->
  In r (socket_rooms sid (fst (step v e w))).
Proof.
  intros Hl Hin. unfold socket_rooms at 1. rewrite step_rooms.
  destruct e as [s room wal ro|lid wal|s room wal|mid wal|s|n];
    try exact Hin; simpl in Hl; rewrite obj_get_set;
    destruct (String.eqb_spec sid s) as [->|Hne]; try exact Hin.
  - now apply set_add_keeps.
  - now apply set_add_keeps.
  - now rewrite String.eqb_refl in Hl.
Qed.

Lemma run_keeps_room v sid r evs : forall w,
  stays sid evs = true ->
  In r (socket_rooms sid w) ->
  In r (socket_rooms sid (fst (run v evs w))).
Proof.
  induction evs as [|e evs IH]; intros w Hs Hin; [exact Hin|].
  simpl in Hs. apply andb_prop in Hs as [He Hs].
  apply negb_true_iff in He.
  rewrite run_cons_fst. apply IH; [exact Hs|].
  now apply step_keeps_room.
Qed.

Lemma step_joins_room v w sid room :
  (forall wal r,
      In room (socket_rooms sid (fst (step v (ev_join_lobby sid room wal r) w))))
  /\
  (forall wal,
      In room (socket_rooms sid (fst (step v (ev_join_match sid room wal) w)))).
Proof.
  split; intros; unfold socket_rooms at 1; rewrite step_rooms;
    rewrite obj_get_set_same; apply set_add_In.
Qed.

Lemma join_match_change v sid matchId wallet w :
  exists m' armed,
    match_change matchId v (ev_join_match sid matchId wallet) None
      (obj_get matchId (matches w)) m' armed /\
    forall mid,
      obj_get mid (matches (fst (step v (ev_join_match sid matchId wallet) w)))
      = if String.eqb mid matchId then Some m' else obj_get mid (matches w).
Proof.
  destruct v; simpl.
  - eexists _, _.
    split; [apply (mc_join_server_ts matchId sid _ wallet)|].
    unfold ServerTs.join_match. cbv zeta.
    fold (or_fresh (obj_get matchId (matches w)) matchId 10).
    destruct (_ =? 2); simpl;
      intros k; rewrite !obj_get_set; now destruct (String.eqb k matchId).
  - eexists _, _.
    split; [apply (mc_join_part_000 matchId sid _ wallet)|].
    unfold Part000.join_match. cbv zeta.
    fold (or_fresh (obj_get matchId (matches w)) matchId 30).
    destruct ((2 <=? _) && _).
    + match goal with
      | |- context [Part000.startMatchCountdown matchId ?a] =>
          pose proof (startMatchCountdown_matches matchId a) as Hs;
          destruct (Part000.startMatchCountdown matchId a) as [w2 out2]
      end.
      simpl in *. rewrite obj_get_set_same in Hs.
      destruct (Hs _ eq_refl) as [H1 H2].
      intros k. rewrite H1, !obj_get_set. now destruct (String.eqb k matchId).
    + simpl. intros k. apply obj_get_set.
Qed.

(** The roster after a [join_match] of [wallet]: the wallet, and whoever
    was there. *)
Lemma match_change_join_roster k v sid wallet fired prev m' armed x :
  match_change k v (ev_join_match sid k wallet) fired prev m' armed ->
  (match obj_get x (players m') with Some _ => true | None => false end) =
  (String.eqb x wallet ||
   match prev with
   | Some m =>
       match obj_get x (players m) with Some _ => true | None => false end
   | None => false
   end).
Proof.
  intros Hch. inversion Hch; subst; clear Hch.
  - repeat match goal with x := _ |- _ => subst x end.
    assert (H : forall m1 : Match,
               players (if key_count (players m1) =? 2
                        then with_state countdown m1 else m1) = players m1)
      by (intros m1; now destruct (_ =? 2)).
    rewrite H. simpl. rewrite obj_get_set.
    destruct (String.eqb x wallet); [reflexivity|].
    now destruct prev.
  - repeat match goal with x := _ |- _ => subst x end.
    assert (H : forall (m1 : Match) (b : bool),
               players (if b then with_state countdown m1 else m1) = players m1)
      by (intros m1 b; now destruct b).
    rewrite H.
    destruct (obj_get wallet (players (or_fresh prev k 30))) as [p|] eqn:Hp.
    + destruct (String.eqb_spec x wallet) as [->|Hne].
      * repeat match goal with x := _ |- _ => subst x end. now rewrite Hp.
      * repeat match goal with x := _ |- _ => subst x end.
        simpl. now destruct prev.
    + simpl. rewrite obj_get_set.
      destruct (String.eqb x wallet); [reflexivity|].
      now destruct prev.
Qed.

Lemma join_match_on_roster v sid matchId wallet w x :
  on_roster (fst (step v (ev_join_match sid matchId wallet) w)) matchId x =
  (String.eqb x wallet || on_roster w matchId x).
Proof.
  destruct (join_match_change v sid matchId wallet w) as (m' & armed & Hch & Hm).
  unfold on_roster. rewrite Hm, String.eqb_refl.
  apply (match_change_join_roster _ _ _ _ _ _ _ _ x Hch).
Qed.

Lemma key_count_pos {A} k (v : A) o : obj_get k o = Some v -> 1 <= key_count o.
Proof.
  intros H. apply obj_get_nonempty in H. unfold key_count, obj_keys.
  destruct o; [easy|]. simpl List.length. lia.
Qed.

Lemma socket_announces_leave v sid room w m :
  In room (socket_rooms sid w) ->
  obj_get room (matches w) = Some m ->
  In (emit room (player_left (key_count (players m) - 1)))
    (snd (step v (ev_disconnecting sid) w)).
Proof.
  intros Hin Hm.
  assert (Hout : snd (step v (ev_disconnecting sid) w) =
                 snd (disconnecting sid w)) by now destruct v.
  rewrite Hout. simpl. apply in_flat_map. exists room.
  split; [exact Hin|]. rewrite Hm. now left.
Qed.

(** X16.  In a run of plain events, a socket that joined a match and has
    not disconnected since is announced when it disconnects: in both
    generations the match still exists with the wallet on its roster, and
    the [disconnecting] handler broadcasts [player_left] to the room of the
    match with the size of the roster minus one, which is not negative.
    The wallet stays on the roster after the disconnect. *)
Theorem joined_socket_announces_leave
  (v : Variant) (evs1 evs2 : list Event) (sid matchId wallet : string) :
  plain_run (evs1 ++ ev_join_match sid matchId wallet :: evs2) = true ->
  stays sid evs2 = true ->
  let w := fst (run v (evs1 ++ ev_join_match sid matchId wallet :: evs2) init) in
  exists m,
    obj_get matchId (matches w) = Some m /\
    obj_get wallet (players m) <> None /\
    0 <= key_count (players m) - 1 /\
    In (emit matchId (player_left (key_count (players m) - 1)))
      (snd (step v (ev_disconnecting sid) w)) /\
    obj_get matchId (matches (fst (step v (ev_disconnecting sid) w))) = Some m.
Proof.
  intros _ Hs w. subst w. rewrite run_app_fst, run_cons_fst.
  set (w1 := fst (run v evs1 init)).
  set (w2 := fst (step v (ev_join_match sid matchId wallet) w1)).
  assert (Hroom : In matchId (socket_rooms sid (fst (run v evs2 w2))))
    by (apply run_keeps_room; [exact Hs|apply step_joins_room]).
  assert (Hon : on_roster (fst (run v evs2 w2)) matchId wallet = true).
  { apply on_roster_run. unfold w2.
    now rewrite join_match_on_roster, String.eqb_refl. }
  unfold on_roster in Hon.
  destruct (obj_get matchId (matches (fst (run v evs2 w2)))) as [m|] eqn:Hm;
    [|discriminate].
  destruct (obj_get wallet (players m)) as [p|] eqn:Hp; [|discriminate].
  exists m. split; [reflexivity|]. split; [now rewrite Hp|].
  split; [pose proof (key_count_pos _ _ _ Hp); lia|].
  split; [now apply socket_announces_leave|].
  rewrite <- Hm. now destruct v.
Qed.

Lemma joined_socket_announces_leave_witness :
  let w :=
    fst (run server_ts
           ([ev_join_match "s1" "M" "A"] ++
            ev_join_match "s2" "M" "B" :: [ev_disconnecting "s1"; ev_timeout 0])
           init) in
  exists m,
    obj_get "M" (matches w) = Some m /\
    obj_get "B" (players m) <> None /\
    0 <= key_count (players m) - 1 /\
    In (emit "M" (player_left (key_count (players m) - 1)))
      (snd (step server_ts (ev_disconnecting "s2") w)) /\
    obj_get "M" (matches (fst (step server_ts (ev_disconnecting "s2") w)))
    = Some m.
Proof.
  apply (joined_socket_announces_leave server_ts
           [ev_join_match "s1" "M" "A"]
           [ev_disconnecting "s1"; ev_timeout 0] "s2" "M" "B");
    reflexivity.
Defined.

(** X17.  In the later generation the room of a lobby is the room of its
    match: a socket that joined a lobby and has not disconnected since is
    announced, once the lobby is [ready], when it disconnects, whether or
    not it ever sent [join_match]: the match of the same id exists and the
    [disconnecting] handler broadcasts [player_left] to that room with the
    size of the roster minus one. *)
Theorem part_000_lobby_socket_announces_leave
  (evs1 evs2 : list Event) (sid lobbyId wallet : string) (r : Role) :
  stays sid evs2 = true ->
  lobby_state_of
    (fst (run part_000 (evs1 ++ ev_join_lobby sid lobbyId wallet r :: evs2) init))
    lobbyId = Some ready ->
  let w :=
    fst (run part_000 (evs1 ++ ev_join_lobby sid lobbyId wallet r :: evs2) init)
  in
  exists m,
    obj_get lobbyId (matches w) = Some m /\
    In (emit lobbyId (player_left (key_count (players m) - 1)))
      (snd (step part_000 (ev_disconnecting sid) w)).
Proof.
  intros Hs Hready w.
  destruct (run_ready_lobbies
              (evs1 ++ ev_join_lobby sid lobbyId wallet r :: evs2))
    as (_ & _ & HJ).
  fold w in HJ, Hready. unfold lobby_state_of in Hready.
  destruct (obj_get lobbyId (lobbies w)) as [l|] eqn:Hl; [|discriminate].
  injection Hready as Hready.
  destruct (HJ lobbyId l Hl Hready) as (m & Hm & _).
  exists m. split; [exact Hm|].
  apply socket_announces_leave; [|exact Hm].
  unfold w. rewrite run_app_fst, run_cons_fst.
  apply run_keeps_room; [exact Hs|apply step_joins_room].
Qed.

Lemma part_000_lobby_socket_announces_leave_witness :
  let w :=
    fst (run part_000
           ([] ++ ev_join_lobby "s1" "L" "A" creator ::
              [ev_join_lobby "s2" "L" "B" opponent;
               ev_deposit_made "L" "A"; ev_deposit_made "L" "B"]) init) in
  exists m,
    obj_get "L" (matches w) = Some m /\
    In (emit "L" (player_left (key_count (players m) - 1)))
      (snd (step part_000 (ev_disconnecting "s1") w)).
Proof.
  apply (part_000_lobby_socket_announces_leave []
           [ev_join_lobby "s2" "L" "B" opponent;
            ev_deposit_made "L" "A"; ev_deposit_made "L" "B"]
           "s1" "L" "A" creator).
  - reflexivity.
  - reflexivity.
Defined.

(** ** Who is a member *)

Lemma step_in_lobby v e w lobbyId wallet :
  in_lobby (fst (step v e w)) lobbyId wallet =
  (in_lobby w lobbyId wallet || joins_lobby lobbyId wallet e).
Proof.
  assert (Hwrite : forall k l',
             lobby_write k e (obj_get k (lobbies w)) l' ->
             lobbies (fst (step v e w)) = obj_set k l' (lobbies w) ->
             in_lobby (fst (step v e w)) lobbyId wallet =
             (in_lobby w lobbyId wallet || joins_lobby lobbyId wallet e)).
  { intros k l' Hw Heq. unfold in_lobby. rewrite Heq, obj_get_set.
    remember (obj_get k (lobbies w)) as prev eqn:Hprev.
    destruct Hw as [sid wal r prev|wal l lp Hlp]; simpl joins_lobby.
    + destruct (String.eqb_spec lobbyId k) as [->|Hne];
        [|now rewrite andb_false_l, orb_false_r].
      subst l0. simpl. rewrite obj_get_set, <- Hprev.
      destruct (String.eqb wallet wal); [now rewrite orb_true_r|].
      rewrite orb_false_r. now destruct prev.
    + rewrite orb_false_r.
      destruct (String.eqb_spec lobbyId k) as [->|Hne]; [|reflexivity].
      rewrite <- Hprev.
      assert (H : lobby_players
                    (if both_deposited l2 then with_lobby_state ready l2
                     else l2) = lobby_players l2)
        by now destruct (both_deposited l2).
      rewrite H. subst l2 l1. simpl. rewrite obj_get_set.
      destruct (String.eqb_spec wallet wal) as [->|Hn]; [|reflexivity].
      now rewrite Hlp. }
  destruct (step_lobby_write v e w) as [Heq|(k & l' & Hw & Heq)];
    [|now apply (Hwrite k l')].
  destruct e as [sid lid wal r|lid wal|sid mid wal|mid wal|sid|n];
    try (unfold in_lobby; rewrite Heq; now rewrite orb_false_r).
  apply (Hwrite lid _ (lw_join lid sid wal r _)). now destruct v.
Qed.

Lemma run_in_lobby v lobbyId wallet evs : forall w,
  in_lobby (fst (run v evs w)) lobbyId wallet =
  (in_lobby w lobbyId wallet || joined_lobby lobbyId wallet evs).
Proof.
  induction evs as [|e evs IH]; intros w; simpl joined_lobby.
  - now rewrite orb_false_r.
  - rewrite run_cons_fst, IH, step_in_lobby. now rewrite orb_assoc.
Qed.

(** X18.  The members of a lobby are the wallets that sent [join_lobby]
    for it: in both generations, after any plain events from the empty
    registries, a wallet is among the players of a lobby exactly when the
    events contain a [join_lobby] of that wallet for that lobby.  No other
    handler adds a member, and none removes one. *)
Theorem lobby_members_are_joiners
  (v : Variant) (evs : list Event) (lobbyId wallet : string) :
  plain_run evs = true ->
  in_lobby (fst (run v evs init)) lobbyId wallet =
  joined_lobby lobbyId wallet evs.
Proof. intros _. now rewrite run_in_lobby. Qed.

Lemma lobby_members_are_joiners_witness :
  in_lobby (fst (run server_ts played_twice init)) "L" "B" =
  joined_lobby "L" "B" played_twice.
Proof.
  apply (lobby_members_are_joiners server_ts played_twice "L" "B").
  reflexivity.
Defined.

Lemma step_lobby_entries_ok v e w :
  lobby_entries_ok w -> lobby_entries_ok (fst (step v e w)).
Proof.
  intros Hok lid l' Hl'.
  destruct (step_lobby_write v e w) as [Heq|(k & l1 & Hw & Heq)];
    rewrite Heq in Hl'; [now apply (Hok lid)|].
  rewrite obj_get_set in Hl'.
  destruct (String.eqb_spec lid k) as [->|Hne]; [|now apply (Hok lid)].
  injection Hl' as ->.
  remember (obj_get k (lobbies w)) as prev eqn:Hprev. symmetry in Hprev.
  apply Forall_forall. intros kv Hin.
  destruct Hw as [sid wal r prev|wal l lp Hlp].
  - subst l0. simpl in Hin. apply obj_set_In in Hin as [->|Hin];
      [reflexivity|].
    destruct prev as [l|]; [|easy].
    exact (proj1 (Forall_forall _ _) (Hok k l Hprev) kv Hin).
  - assert (H : lobby_players
                  (if both_deposited l2 then with_lobby_state ready l2
                   else l2) = lobby_players l2)
      by now destruct (both_deposited l2).
    rewrite H in Hin. subst l2 l1. simpl in Hin.
    pose proof (proj1 (Forall_forall _ _) (Hok k l Hprev)) as Hall.
    apply obj_set_In in Hin as [->|Hin]; [|now apply Hall].
    simpl. apply (Hall (wal, lp)). now apply obj_get_In.
Qed.

Lemma run_lobby_entries_ok v evs : lobby_entries_ok (fst (run v evs init)).
Proof.
  apply run_invariant; [apply step_lobby_entries_ok|].
  intros k l Hk. discriminate.
Qed.

Lemma is_member_in_lobby w lobbyId l x :
  lobby_entries_ok w ->
  obj_get lobbyId (lobbies w) = Some l ->
  is_member x l = in_lobby w lobbyId x.
Proof.
  intros Hok Hl. unfold in_lobby. rewrite Hl.
  pose proof (proj1 (Forall_forall _ _) (Hok lobbyId l Hl)) as Hall.
  unfold is_member.
  destruct (obj_get x (lobby_players l)) as [lp|] eqn:Hx.
  - apply existsb_exists. exists lp. apply obj_get_In in Hx. split.
    + change lp with (snd (x, lp)). now apply in_map.
    + apply String.eqb_eq. symmetry. exact (Hall _ Hx).
  - destruct (existsb _ _) eqn:He; [|reflexivity]. exfalso.
    apply existsb_exists in He as (lp & Hin & Heq).
    apply String.eqb_eq in Heq.
    apply in_map_iff in Hin as ([k lp'] & Hs & Hin). simpl in Hs. subst lp'.
    pose proof (Hall _ Hin) as Hk. simpl in Hk.
    apply (proj1 (obj_get_None x (lobby_players l)) Hx).
    unfold obj_keys. rewrite Heq, Hk. change k with (fst (k, lp)).
    now apply in_map.
Qed.

Lemma on_roster_same w w' matchId x :
  obj_get matchId (matches w') = obj_get matchId (matches w) ->
  on_roster w' matchId x = on_roster w matchId x.
Proof. unfold on_roster. now intros ->. Qed.

Lemma step_on_roster v e w matchId x :
  lobby_entries_ok w ->
  on_roster (fst (step v e w)) matchId x =
  (on_roster w matchId x || enrols v e w matchId x).
Proof.
  intros Hok.
  pose proof (step_effect v e w) as Heff.
  destruct e as [sid lid wal r|lid wal|sid mid wal|mid wal|sid|n].
  - (* join_lobby *)
    simpl enrols. rewrite orb_false_r. apply on_roster_same.
    destruct Heff as [[H _]|(k & m' & armed & Hch & _)]; [apply H|].
    inversion Hch.
  - (* deposit_made *)
    destruct v.
    + simpl enrols. rewrite orb_false_r. apply on_roster_same.
      destruct Heff as [[H _]|(k & m' & armed & Hch & _)]; [apply H|].
      inversion Hch.
    + assert (Hother : matchId <> lid ->
                       obj_get matchId
                         (matches (fst (step part_000 (ev_deposit_made lid wal) w)))
                       = obj_get matchId (matches w)).
      { intros Hne.
        destruct Heff as [[H _]|(k & m' & armed & Hch & H & _)]; [apply H|].
        rewrite H. inversion Hch; subst.
        now destruct (String.eqb_spec matchId lid). }
      simpl enrols.
      destruct (String.eqb_spec matchId lid) as [->|Hne].
      2:{ simpl. rewrite orb_false_r. now apply on_roster_same, Hother. }
      destruct (completes_lobby lid wal w) eqn:Hc.
      * destruct (deposit_made_completes lid wal w Hc)
          as (lobby & lp & m' & Hl & _ & _ & _ & Hm' & _ & _ & Hroster & _).
        simpl. unfold on_roster at 1. simpl step. rewrite Hm', Hroster.
        rewrite (is_member_in_lobby w lid lobby x Hok Hl).
        destruct (in_lobby w lid x); [now rewrite orb_true_r|].
        rewrite orb_false_r. unfold on_roster.
        now destruct (obj_get lid (matches w)).
      * simpl. rewrite orb_false_r. apply on_roster_same.
        destruct (deposit_made_incomplete lid wal w Hc) as [H _].
        simpl step. now rewrite H.
  - (* join_match *)
    simpl enrols.
    destruct (String.eqb_spec matchId mid) as [->|Hne].
    + rewrite join_match_on_roster. simpl. apply orb_comm.
    + simpl. rewrite orb_false_r. apply on_roster_same.
      destruct (join_match_change v sid mid wal w) as (m' & armed & _ & H).
      rewrite H. now destruct (String.eqb_spec matchId mid).
  - (* tap *)
    simpl enrols. rewrite orb_false_r.
    destruct Heff as [[H _]|(k & m' & armed & Hch & H & _)];
      [apply on_roster_same, H|].
    unfold on_roster. rewrite H.
    destruct (String.eqb_spec matchId k) as [->|Hne]; [|reflexivity].
    remember (obj_get k (matches w)) as prev.
    inversion Hch; subst. simpl. rewrite obj_get_set.
    destruct (String.eqb_spec x wal) as [->|Hn]; [|reflexivity].
    match goal with Hp : obj_get wal (players _) = Some _ |- _ =>
      now rewrite Hp end.
  - (* disconnecting *)
    simpl enrols. rewrite orb_false_r. apply on_roster_same.
    destruct Heff as [[H _]|(k & m' & armed & Hch & _)]; [apply H|].
    inversion Hch.
  - (* a timer fires *)
    simpl enrols. rewrite orb_false_r.
    destruct Heff as [[H _]|(k & m' & armed & Hch & H & _)];
      [apply on_roster_same, H|].
    unfold on_roster. rewrite H.
    destruct (String.eqb_spec matchId k) as [->|Hne]; [|reflexivity].
    remember (obj_get k (matches w)) as prev.
    inversion Hch; subst; reflexivity.
Qed.

Lemma run_snoc_fst v evs e w :
  fst (run v (evs ++ [e]) w) = fst (step v e (fst (run v evs w))).
Proof. now rewrite run_app_fst, run_cons_fst. Qed.

Lemma roster_joiners
  (v : Variant) (evs : list Event) (matchId wallet : string) :
  on_roster (fst (run v evs init)) matchId wallet = true <->
  joined_match matchId wallet evs = true \/
  (v = part_000 /\
   exists evs1 k evs2,
     evs = evs1 ++ ev_deposit_made matchId k :: evs2 /\
     completes_lobby matchId k (fst (run part_000 evs1 init)) = true /\
     joined_lobby matchId wallet evs1 = true).
Proof.
  induction evs as [|e evs IH] using rev_ind.
  - simpl. split; [discriminate|].
    intros [H|(_ & evs1 & k & evs2 & H & _)]; [discriminate|].
    now destruct evs1.
  - rewrite run_snoc_fst, step_on_roster by apply run_lobby_entries_ok.
    unfold joined_match. rewrite existsb_app. simpl existsb.
    rewrite orb_false_r. fold (joined_match matchId wallet evs).
    split.
    + intros H. apply orb_true_iff in H as [H|H].
      * apply IH in H as [H|(Hv & evs1 & k & evs2 & Heq & Hc & Hj)].
        -- left. now rewrite H.
        -- right. split; [exact Hv|].
           exists evs1, k, (evs2 ++ [e]). rewrite Heq.
           split; [now rewrite <- app_assoc|]. now split.
      * destruct e as [sid lid wal r|lid wal|sid mid wal|mid wal|sid|n];
          simpl in H; try discriminate.
        -- destruct v; [discriminate|].
           apply andb_prop in H as [H Hin]. apply andb_prop in H as [Hm Hc].
           apply String.eqb_eq in Hm. subst lid.
           right. split; [reflexivity|].
           exists evs, wal, []. split; [reflexivity|]. split; [exact Hc|].
           now rewrite run_in_lobby in Hin.
        -- left. simpl. rewrite H. apply orb_true_r.
    + intros [H|(Hv & evs1 & k & evs2 & Heq & Hc & Hj)].
      * apply orb_true_iff in H as [H|H].
        -- apply orb_true_iff. left. apply IH. now left.
        -- apply orb_true_iff. right.
           destruct e as [sid lid wal r|lid wal|sid mid wal|mid wal|sid|n];
             simpl in H; try discriminate. exact H.
      * subst v. destruct evs2 as [|e2 evs2 _] using rev_ind.
        -- apply app_inj_tail in Heq as [-> ->].
           apply orb_true_iff. right. simpl.
           rewrite String.eqb_refl, Hc. simpl.
           now rewrite run_in_lobby.
        -- rewrite app_comm_cons, app_assoc in Heq.
           apply app_inj_tail in Heq as [-> ->].
           apply orb_true_iff. left. apply IH. right.
           split; [reflexivity|]. now exists evs1, k, evs2.
Qed.

(** X19.  Nobody is on a roster without having asked: after any plain
    events from the empty registries, a wallet is on the roster of a match
    exactly
    when the events contain a [join_match] of that wallet for that match
    or, in the later generation only, a [deposit_made] that completed the
    lobby of the same id after the wallet had sent [join_lobby] for it. *)
Theorem roster_members_are_joiners
  (v : Variant) (evs : list Event) (matchId wallet : string) :
  plain_run evs = true ->
  on_roster (fst (run v evs init)) matchId wallet = true <->
  joined_match matchId wallet evs = true \/
  (v = part_000 /\
   exists evs1 k evs2,
     evs = evs1 ++ ev_deposit_made matchId k :: evs2 /\
     completes_lobby matchId k (fst (run part_000 evs1 init)) = true /\
     joined_lobby matchId wallet evs1 = true).
Proof. intros _. apply roster_joiners. Qed.

Lemma roster_members_are_joiners_witness :
  on_roster (fst (run part_000 played_twice init)) "L" "A" = true <->
  joined_match "L" "A" played_twice = true \/
  (part_000 = part_000 /\
   exists evs1 k evs2,
     played_twice = evs1 ++ ev_deposit_made "L" k :: evs2 /\
     completes_lobby "L" k (fst (run part_000 evs1 init)) = true /\
     joined_lobby "L" "A" evs1 = true).
Proof.
  apply (roster_members_are_joiners part_000 played_twice "L" "A").
  reflexivity.
Defined.

(** ** The two sides of the server *)

Lemma run_cons_snd v e evs w :
  snd (run v (e :: evs) w) =
  snd (step v e w) ++ snd (run v evs (fst (step v e w))).
Proof.
  simpl. destruct (step v e w) as [w1 o1]. simpl.
  now destruct (run v evs w1).
Qed.

Lemma filter_none {A} (f : A -> bool) l :
  Forall (fun x => f x = false) l -> filter f l = [].
Proof.
  induction 1 as [|x l Hx _ IH]; [reflexivity|]. simpl. now rewrite Hx.
Qed.

Lemma startMatchCountdown_msgs matchId w :
  Forall (fun em => emit_msg em = countdown_start 3000)
    (snd (Part000.startMatchCountdown matchId w)).
Proof.
  unfold Part000.startMatchCountdown.
  destruct (obj_get matchId (matches w)); simpl; repeat constructor.
Qed.

(** What the match handlers and the timer callbacks broadcast. *)
Lemma step_match_msgs v e w :
  is_lobby_event e = false ->
  Forall (fun em =>
            if is_disconnecting e
            then exists n, emit_msg em = player_left n
            else is_match_msg (emit_msg em) = true)
    (snd (step v e w)).
Proof.
  assert (Hs : forall mid a,
             Forall (fun em => is_match_msg (emit_msg em) = true)
               (snd (Part000.startMatchCountdown mid a))).
  { intros mid a. eapply Forall_impl; [|apply startMatchCountdown_msgs].
    now intros em ->. }
  intros He.
  destruct e as [sid lid wal r|lid wal|sid mid wal|mid wal|sid|n];
    try discriminate; simpl is_disconnecting; cbv iota.
  - destruct v; simpl.
    + unfold ServerTs.join_match. cbv zeta.
      destruct (_ =? 2); simpl; repeat constructor.
    + unfold Part000.join_match. cbv zeta.
      destruct ((2 <=? _) && _); [|repeat constructor].
      match goal with
      | |- context [Part000.startMatchCountdown mid ?a] =>
          pose proof (Hs mid a) as Hs';
          destruct (Part000.startMatchCountdown mid a) as [w2 out2]
      end.
      simpl in *. now constructor.
  - assert (H : Forall (fun em => is_match_msg (emit_msg em) = true)
                  (snd (tap mid wal w))).
    { unfold tap. destruct (obj_get mid (matches w)) as [m|]; [|constructor].
      destruct (state m); try constructor.
      destruct (obj_get wal (players m)); repeat constructor. }
    now destruct v.
  - assert (H : Forall (fun em => exists n, emit_msg em = player_left n)
                  (snd (disconnecting sid w))).
    { simpl. induction (socket_rooms sid w) as [|r rs IH]; [constructor|].
      simpl. apply Forall_app. split; [|exact IH].
      destruct (obj_get r (matches w)); repeat constructor. now eexists. }
    now destruct v.
  - destruct v; simpl; unfold timeout;
      destruct (nth_error (timers w) n) as [t|]; try constructor;
      destruct (task t) as [k|k|k]; simpl; try constructor;
      destruct (obj_get k (matches w)) as [m|]; try constructor;
      try (destruct (winner_of _); repeat constructor);
      try (repeat constructor; fail).
    destruct (state_eqb (state m) waiting); [apply Hs|constructor].
Qed.

(** What the lobby handlers broadcast. *)
Lemma step_lobby_msgs v e w :
  is_lobby_event e = true ->
  Forall (fun em => is_lobby_msg (emit_msg em) = true) (snd (step v e w)).
Proof.
  intros He.
  destruct e as [sid lid wal r|lid wal|sid mid wal|mid wal|sid|n];
    try discriminate.
  - destruct v; simpl; repeat constructor.
  - destruct v; simpl.
    + unfold ServerTs.deposit_made.
      destruct (obj_get lid (lobbies w)) as [l|]; [|constructor].
      destruct (obj_get wal (lobby_players l)); [|constructor].
      cbv zeta. destruct (_ && _); repeat constructor.
    + unfold Part000.deposit_made.
      destruct (obj_get lid (lobbies w)) as [l|]; [|constructor].
      destruct (obj_get wal (lobby_players l)); [|constructor].
      cbv zeta. destruct (_ && _); repeat constructor.
Qed.

Lemma match_msg_not_lobby m : is_match_msg m = true -> is_lobby_msg m = false.
Proof. now destruct m. Qed.

Lemma lobby_msg_not_match m : is_lobby_msg m = true -> is_match_msg m = false.
Proof. now destruct m. Qed.

Lemma lobby_side_match_event v e w :
  is_lobby_event e = false -> lobby_side (snd (step v e w)) = [].
Proof.
  intros He. apply filter_none.
  eapply Forall_impl; [|apply (step_match_msgs v e w He)].
  intros em H. simpl in H. destruct (is_disconnecting e).
  - destruct H as [n ->]. reflexivity.
  - now apply match_msg_not_lobby.
Qed.

Lemma match_side_lobby_event v e w :
  is_lobby_event e = true -> match_side (snd (step v e w)) = [].
Proof.
  intros He. apply filter_none.
  eapply Forall_impl; [|apply (step_lobby_msgs v e w He)].
  intros em H. now apply lobby_msg_not_match.
Qed.

Lemma match_event_lobbies v e w :
  is_lobby_event e = false -> lobbies (fst (step v e w)) = lobbies w.
Proof.
  intros He.
  destruct e as [sid lid wal r|lid wal|sid mid wal|mid wal|sid|n];
    try discriminate.
  - destruct v; [apply ServerTs_join_match_lobbies
                |apply Part000_join_match_lobbies].
  - destruct v; apply tap_lobbies.
  - now destruct v.
  - destruct v; apply timeout_lobbies;
      auto using ServerTs_run_task_lobbies, Part000_run_task_lobbies.
Qed.

(** A lobby handler reads the lobbies only. *)
Lemma lobby_event_reads_lobbies v e w1 w2 :
  is_lobby_event e = true ->
  lobbies w1 = lobbies w2 ->
  lobbies (fst (step v e w1)) = lobbies (fst (step v e w2)) /\
  snd (step v e w1) = snd (step v e w2).
Proof.
  intros He H. destruct w1 as [l1 m1 r1 t1], w2 as [l2 m2 r2 t2].
  simpl in H. subst l2.
  destruct e as [sid lid wal r|lid wal|sid mid wal|mid wal|sid|n];
    try discriminate.
  - now destruct v.
  - destruct v; simpl.
    + unfold ServerTs.deposit_made. simpl.
      destruct (obj_get lid l1) as [l|]; [|easy].
      destruct (obj_get wal (lobby_players l)); [|easy].
      now destruct (_ && _).
    + unfold Part000.deposit_made. simpl.
      destruct (obj_get lid l1) as [l|]; [|easy].
      destruct (obj_get wal (lobby_players l)); [|easy].
      now destruct (_ && _).
Qed.

Lemma run_lobby_side v evs : forall w1 w2,
  lobbies w1 = lobbies w2 ->
  lobbies (fst (run v evs w1)) =
    lobbies (fst (run v (filter is_lobby_event evs) w2)) /\
  lobby_side (snd (run v evs w1)) =
    snd (run v (filter is_lobby_event evs) w2).
Proof.
  induction evs as [|e evs IH]; intros w1 w2 H; [now split|].
  simpl filter. rewrite run_cons_fst, run_cons_snd.
  unfold lobby_side. rewrite filter_app.
  fold (lobby_side (snd (step v e w1))).
  fold (lobby_side (snd (run v evs (fst (step v e w1))))).
  destruct (is_lobby_event e) eqn:He.
  - rewrite run_cons_fst, run_cons_snd.
    destruct (lobby_event_reads_lobbies v e w1 w2 He H) as [Hl Ho].
    destruct (IH _ _ Hl) as [IH1 IH2]. split; [exact IH1|].
    rewrite IH2, <- Ho. f_equal. unfold lobby_side.
    apply forallb_filter_id. apply forallb_forall.
    apply Forall_forall, step_lobby_msgs, He.
  - rewrite (lobby_side_match_event v e w1 He). simpl.
    apply IH. now rewrite (match_event_lobbies v e w1 He).
Qed.

(** X20.  The lobby side of the server does not depend on the match side:
    in both generations the lobbies reached by any events, and the lobby
    broadcasts ([lobby_update], [player_joined] of a lobby,
    [deposit_confirmed], [match_ready]) sent on the way, are those of the
    [join_lobby] and [deposit_made] events alone, with every [join_match],
    [tap], disconnect and timer left out. *)
Theorem lobby_side_ignores_match_events (v : Variant) (evs : list Event) :
  lobbies (fst (run v evs init)) =
    lobbies (fst (run v (filter is_lobby_event evs) init)) /\
  lobby_side (snd (run v evs init)) =
    snd (run v (filter is_lobby_event evs) init).
Proof. now apply run_lobby_side. Qed.

Lemma server_ts_lobby_event_play e w :
  is_lobby_event e = true -> play (fst (step server_ts e w)) = play w.
Proof.
  intros He.
  destruct e as [sid lid wal r|lid wal|sid mid wal|mid wal|sid|n];
    try discriminate; simpl; [reflexivity|].
  unfold ServerTs.deposit_made.
  destruct (obj_get lid (lobbies w)) as [l|]; [|reflexivity].
  destruct (obj_get wal (lobby_players l)); [|reflexivity].
  cbv zeta. now destruct (_ && _).
Qed.

(** A match handler of src/server.ts reads the matches and the timers
    only; its rooms matter to [player_left] alone. *)
Lemma server_ts_match_event_reads_play e w1 w2 :
  is_lobby_event e = false ->
  play w1 = play w2 ->
  play (fst (step server_ts e w1)) = play (fst (step server_ts e w2)) /\
  match_side (snd (step server_ts e w1)) =
    match_side (snd (step server_ts e w2)).
Proof.
  intros He H.
  destruct (is_disconnecting e) eqn:Hd.
  - destruct e; try discriminate. split; [exact H|].
    assert (Hnone : forall w,
               match_side (snd (step server_ts (ev_disconnecting sid) w)) = []).
    { intros w. apply filter_none.
      eapply Forall_impl;
        [|apply (step_match_msgs server_ts (ev_disconnecting sid) w He)].
      intros em [n ->]. reflexivity. }
    now rewrite !Hnone.
  - destruct w1 as [l1 m1 r1 t1], w2 as [l2 m2 r2 t2].
    unfold play in H. simpl in H. injection H as -> ->.
    destruct e as [sid lid wal r|lid wal|sid mid wal|mid wal|sid|n];
      try discriminate; simpl.
    + unfold ServerTs.join_match. simpl. now destruct (_ =? 2).
    + unfold tap. simpl.
      destruct (obj_get mid m2) as [m|]; [|easy].
      destruct (state m); try easy.
      now destruct (obj_get wal (players m)).
    + unfold timeout. simpl.
      destruct (nth_error t2 n) as [t|]; [|easy].
      destruct (task t) as [k|k|k]; simpl; [easy| |].
      * now destruct (obj_get k m2).
      * destruct (obj_get k m2) as [m|]; [|easy].
        now destruct (winner_of (scores_of (with_state finished m))).
Qed.

Lemma server_ts_run_match_side evs : forall w1 w2,
  play w1 = play w2 ->
  play (fst (run server_ts evs w1)) =
    play (fst (run server_ts
                 (filter (fun e => negb (is_lobby_event e)) evs) w2)) /\
  match_side (snd (run server_ts evs w1)) =
    match_side
      (snd (run server_ts
              (filter (fun e => negb (is_lobby_event e)) evs) w2)).
Proof.
  induction evs as [|e evs IH]; intros w1 w2 H; [now split|].
  simpl filter. rewrite run_cons_fst, run_cons_snd.
  unfold match_side at 1. rewrite filter_app.
  fold (match_side (snd (step server_ts e w1))).
  fold (match_side (snd (run server_ts evs (fst (step server_ts e w1))))).
  destruct (is_lobby_event e) eqn:He; simpl negb; cbv iota.
  - rewrite (match_side_lobby_event server_ts e w1 He), app_nil_l.
    apply IH. now rewrite (server_ts_lobby_event_play e w1 He).
  - rewrite run_cons_fst, run_cons_snd.
    destruct (server_ts_match_event_reads_play e w1 w2 He H) as [Hp Ho].
    destruct (IH _ _ Hp) as [IH1 IH2]. split; [exact IH1|].
    unfold match_side at 3. rewrite filter_app.
    fold (match_side (snd (step server_ts e w2))).
    now rewrite Ho, IH2.
Qed.

Lemma Part001_run_filter evs : forall w,
  Part001.run evs w =
  run server_ts (filter (fun e => negb (is_lobby_event e)) evs) w.
Proof.
  induction evs as [|e evs IH]; intros w; [reflexivity|].
  simpl filter.
  destruct e as [sid lid wal r|lid wal|sid mid wal|mid wal|sid|n]; simpl.
  - rewrite IH. now destruct (run server_ts _ w).
  - rewrite IH. now destruct (run server_ts _ w).
  - destruct (ServerTs.join_match sid mid wal w) as [w1 o1]. now rewrite IH.
  - destruct (tap mid wal w) as [w1 o1]. now rewrite IH.
  - now rewrite IH.
  - destruct (timeout ServerTs.run_task n w) as [w1 o1]. now rewrite IH.
Qed.

(** X21.  The lobby handlers that src/server.ts adds to part_001 leave its
    match side as it was: on any events, src/server.ts reaches the matches
    and the pending timers that part_001 (which drops [join_lobby] and
    [deposit_made]) reaches, and sends the same match broadcasts
    ([player_joined], [countdown_start], [game_start], [tap_update],
    [game_end]) in the same order.  (The later generation does not have
    this property: there a [deposit_made] writes a match.) *)
Theorem server_ts_extends_part_001 (evs : list Event) :
  matches (fst (run server_ts evs init)) = matches (fst (Part001.run evs init))
  /\
  timers (fst (run server_ts evs init)) = timers (fst (Part001.run evs init))
  /\
  match_side (snd (run server_ts evs init)) =
    match_side (snd (Part001.run evs init)).
Proof.
  rewrite Part001_run_filter.
  destruct (server_ts_run_match_side evs init init eq_refl) as [Hp Ho].
  unfold play in Hp. injection Hp as Hm Ht. now repeat split.
Qed.

(** ** The oldest generation *)

Lemma legacy_out_app a b : legacy_out (a ++ b) = legacy_out a ++ legacy_out b.
Proof. apply flat_map_app. Qed.

Lemma task_legacy_timer t : task (legacy_timer t) = task t.
Proof. unfold legacy_timer. destruct (task t) eqn:E; simpl; congruence. Qed.

Lemma remove_nth_map {A B} (f : A -> B) n l :
  remove_nth n (map f l) = map f (remove_nth n l).
Proof.
  unfold remove_nth. now rewrite map_app, firstn_map, skipn_map.
Qed.

Lemma Oldest_run_task_sim tk w :
  Oldest.run_task tk (legacy_world w) =
  (legacy_world (fst (ServerTs.run_task tk w)),
   legacy_out (snd (ServerTs.run_task tk w))).
Proof.
  destruct w as [l m r t].
  destruct tk as [k|k|k]; simpl; [reflexivity| |].
  - destruct (obj_get k m) as [x|]; [|reflexivity].
    unfold legacy_world, setTimeout. simpl. now rewrite map_app.
  - destruct (obj_get k m) as [x|]; [|reflexivity].
    now destruct (winner_of (scores_of (with_state finished x))).
Qed.

Lemma Oldest_step_sim e w :
  is_lobby_event e = false ->
  Oldest.step e (legacy_world w) =
  (legacy_world (fst (ServerTs.step e w)),
   legacy_out (snd (ServerTs.step e w))).
Proof.
  intros He.
  destruct e as [sid lid wal r|lid wal|sid mid wal|mid wal|sid|n];
    try discriminate; simpl.
  - destruct w as [l m r t].
    unfold Oldest.join_match, ServerTs.join_match. simpl.
    destruct (_ =? 2); [|reflexivity].
    unfold legacy_world, setTimeout. simpl. now rewrite map_app.
  - destruct w as [l m r t]. unfold Oldest.tap, tap. simpl.
    destruct (obj_get mid m) as [x|]; [|reflexivity].
    destruct (state x); try reflexivity.
    now destruct (obj_get wal (players x)).
  - destruct w as [l m r t]. unfold legacy_world. simpl. f_equal.
    unfold socket_rooms. simpl.
    induction (match obj_get sid r with Some rs => rs | None => [sid] end)
      as [|room rs IH]; [reflexivity|].
    simpl. rewrite legacy_out_app, <- IH.
    now destruct (obj_get room m).
  - unfold Oldest.timeout, timeout.
    change (timers (legacy_world w)) with (map legacy_timer (timers w)).
    rewrite nth_error_map.
    destruct (nth_error (timers w) n) as [t|]; [|reflexivity].
    simpl option_map. cbv iota. rewrite task_legacy_timer, remove_nth_map.
    apply (Oldest_run_task_sim (task t)
             (with_timers (remove_nth n (timers w)) w)).
Qed.

Lemma Oldest_run_sim evs : forall w,
  Oldest.run evs (legacy_world w) =
  (legacy_world
     (fst (run server_ts (filter (fun e => negb (is_lobby_event e)) evs) w)),
   legacy_out
     (snd (run server_ts (filter (fun e => negb (is_lobby_event e)) evs) w))).
Proof.
  induction evs as [|e evs IH]; intros w; [reflexivity|].
  simpl filter. destruct (is_lobby_event e) eqn:He; simpl negb; cbv iota.
  - assert (Hs : Oldest.step e (legacy_world w) = (legacy_world w, []))
      by (destruct e; try discriminate; reflexivity).
    simpl. rewrite Hs, IH. reflexivity.
  - rewrite run_cons_fst, run_cons_snd, legacy_out_app.
    simpl Oldest.run. rewrite (Oldest_step_sim e w He).
    change (step server_ts e w) with (ServerTs.step e w).
    now rewrite IH.
Qed.

(** X22.  The oldest generation (the first 103 lines of part_000) is
    part_001 with other payloads and a shorter game: on any events it
    reaches the matches and the rooms that part_001 reaches, with the same
    timers pending except that a game timer runs for 10000 ms, and it
    broadcasts the same events to the same rooms in the same order, with
    [countdown_start] carrying [countdownTime: 3] and [game_start] carrying
    [duration: 10]. *)
Theorem oldest_is_part_001 (evs : list Event) :
  Oldest.run evs init =
  (legacy_world (fst (Part001.run evs init)),
   legacy_out (snd (Part001.run evs init))).
Proof. rewrite Part001_run_filter. apply (Oldest_run_sim evs init). Qed.

(** ** Taps *)

Lemma tapped_range matchId wallet e :
  0 <= tapped matchId wallet e <= 1.
Proof.
  destruct e; simpl; try lia. destruct (_ && _); lia.
Qed.

Lemma taps_or_zero_same w w' matchId wallet :
  obj_get matchId (matches w') = obj_get matchId (matches w) ->
  taps_or_zero w' matchId wallet = taps_or_zero w matchId wallet.
Proof. unfold taps_or_zero, taps_of. now intros ->. Qed.

Lemma le_max_plus x d : 0 <= d -> x <= Z.max 0 x + d.
Proof. lia. Qed.

Lemma zero_le_max_plus x d : 0 <= d -> 0 <= Z.max 0 x + d.
Proof. lia. Qed.

(** One step adds at most one tap, and only for a [tap] event. *)
Lemma step_taps v e w matchId wallet :
  taps_or_zero (fst (step v e w)) matchId wallet <=
  Z.max 0 (taps_or_zero w matchId wallet) + tapped matchId wallet e.
Proof.
  pose proof (tapped_range matchId wallet e) as Hr.
  destruct (step_effect v e w) as [[H _]|(k & m' & armed & Hch & H & _)].
  { rewrite (taps_or_zero_same w _ _ _ (H matchId)). lia. }
  destruct (String.eqb_spec matchId k) as [->|Hne].
  2:{ rewrite (taps_or_zero_same w _ matchId wallet); [lia|].
      rewrite H. now destruct (String.eqb_spec matchId k). }
  unfold taps_or_zero, taps_of in *. rewrite H, String.eqb_refl.
  remember (obj_get k (matches w)) as prev eqn:Hprev.
  assert (Hfresh : forall g,
             match option_map taps (obj_get wallet (players (or_fresh prev k g)))
             with Some t => t | None => 0 end =
             match prev with
             | Some m =>
                 match option_map taps (obj_get wallet (players m))
                 with Some t => t | None => 0 end
             | None => 0
             end) by (intros g; now destruct prev).
  assert (Hst : forall (b : bool) (m1 : Match),
             players (if b then with_state countdown m1 else m1) = players m1)
    by (intros b m1; now destruct b).
  destruct Hch; repeat match goal with x := _ |- _ => subst x end;
    rewrite ?Hst; simpl players; simpl tapped in *;
    rewrite ?String.eqb_refl in *; simpl andb in *.
  - (* tap *)
    rewrite obj_get_set.
    destruct (String.eqb_spec wallet wallet0) as [->|Hn]; simpl.
    + match goal with Hp : obj_get _ _ = Some _ |- _ => rewrite Hp end.
      simpl. lia.
    + apply le_max_plus; lia.
  - apply le_max_plus; lia.
  - apply le_max_plus; lia.
  - apply le_max_plus; lia.
  - (* join_match, src/server.ts *)
    rewrite obj_get_set.
    destruct (String.eqb wallet wallet0); simpl; [apply zero_le_max_plus; lia|].
    rewrite Hfresh. destruct prev; [apply le_max_plus|apply zero_le_max_plus]; lia.
  - (* join_match, part_000 *)
    destruct (obj_get wallet0 (players (or_fresh prev k 30))) eqn:Hp.
    + rewrite Hfresh. destruct prev; [apply le_max_plus|apply zero_le_max_plus]; lia.
    + simpl players. rewrite obj_get_set.
      destruct (String.eqb wallet wallet0); simpl; [apply zero_le_max_plus; lia|].
      rewrite Hfresh. destruct prev; [apply le_max_plus|apply zero_le_max_plus]; lia.
  - apply le_max_plus; lia.
  - (* deposit_made, part_000 *)
    rewrite copy_roster_get.
    destruct (existsb _ members); simpl; [apply zero_le_max_plus; lia|].
    rewrite Hfresh. destruct prev; [apply le_max_plus|apply zero_le_max_plus]; lia.
Qed.

Lemma run_taps v matchId wallet evs : forall w,
  0 <= taps_sent matchId wallet evs /\
  taps_or_zero (fst (run v evs w)) matchId wallet <=
  Z.max 0 (taps_or_zero w matchId wallet) + taps_sent matchId wallet evs.
Proof.
  induction evs as [|e evs IH]; intros w; [simpl; lia|].
  rewrite run_cons_fst. simpl taps_sent.
  destruct (IH (fst (step v e w))) as [H0 H1].
  pose proof (step_taps v e w matchId wallet).
  pose proof (tapped_range matchId wallet e). lia.
Qed.

(** X23.  Nobody gets a tap for free: after any events from the empty
    registries, in both generations, the taps stored for a wallet in a
    match are at most the number of [tap] events sent for that wallet and
    that match. *)
Theorem taps_bounded_by_tap_events
  (v : Variant) (evs : list Event) (matchId wallet : string) :
  taps_or_zero (fst (run v evs init)) matchId wallet <=
  taps_sent matchId wallet evs.
Proof.
  destruct (run_taps v matchId wallet evs init) as [_ H].
  exact H.
Qed.
